(** * game-scheduler: the scheduling engine of [src/schedule-analysis.js]

    A shallow embedding of the JavaScript scheduling engine (seeded
    generator, verification utilities, home/away optimizer, slot assigner,
    attempt and retry orchestrators) and of the checks the command line of
    [src/cli.js] runs on a schedule, together with the properties stated
    about them.

    Conventions of the embedding.
    - Counters (remaining games, per-team counts, indices) are JavaScript
      numbers holding integers; they are modelled as [Z].
    - Every number that is not an integer by construction (generator state
      and output, pair scores) is an IEEE-754 binary64 value, modelled by the
      Standard Library's executable specification [spec_float] with
      precision 53 and maximal exponent 1024; arithmetic is round-to-nearest-
      even, as in JavaScript.
    - 32-bit integer operators ([^], [|], [<<], [>>>], [Math.imul]) are
      written out on [Z] with their wrap-around.
    - A [Map] whose iteration order is observed is an association list in
      insertion order; a [Map] or [Set] that is only looked up is a [gmap] or
      a [gset].
    - The host's [String.prototype.localeCompare] and [Date] calendar are
      not part of the sources; they are the two fields of the class [Host]. *)

From Stdlib Require Import ZArith String Ascii List Lia Bool.
From Stdlib Require Import Floats.SpecFloat.
From stdpp Require Import gmap strings list fin_maps pretty.

Local Open Scope string_scope.
Local Open Scope Z_scope.

(** ** JavaScript numbers *)

Module Js.

(** *** 32-bit integer operators *)

Definition toUint32 (z : Z) : Z := z mod 2 ^ 32.

Definition toInt32 (z : Z) : Z := (z + 2 ^ 31) mod 2 ^ 32 - 2 ^ 31.

(** [a ^ b] *)
Definition xor (a b : Z) : Z := toInt32 (Z.lxor (toInt32 a) (toInt32 b)).

(** [a | b] *)
Definition or (a b : Z) : Z := toInt32 (Z.lor (toInt32 a) (toInt32 b)).

(** [a << n] *)
Definition shl (a n : Z) : Z := toInt32 (Z.shiftl (toInt32 a) (n mod 32)).

(** [a >>> n] *)
Definition ushr (a n : Z) : Z := Z.shiftr (toUint32 a) (n mod 32).

(** [Math.imul(a, b)] *)
Definition imul (a b : Z) : Z := toInt32 (toInt32 a * toInt32 b).

(** *** binary64 values *)

Definition number : Type := spec_float.

Definition ofZ (z : Z) : number := binary_normalize 53 1024 z 0 false.

Definition add : number -> number -> number := SFadd 53 1024.
Definition mul : number -> number -> number := SFmul 53 1024.
Definition sub : number -> number -> number := SFsub 53 1024.
Definition div : number -> number -> number := SFdiv 53 1024.
Definition neg : number -> number := SFopp.

(** [x < y], [x > y] and [x === y] on numbers. *)
Definition lt (x y : number) : bool := SFltb x y.
Definition gt (x y : number) : bool := SFltb y x.
Definition strictEq (x y : number) : bool := SFeqb x y.

Definition NaN : number := S754_nan.
Definition negInfinity : number := S754_infinity true.

(** The literals of the source: [0.05], [0.02], [0.2], [0.5], each the
    binary64 value nearest to the decimal (a correctly rounded quotient of
    two exactly representable integers). *)
Definition lit_0_05 : number := Eval vm_compute in div (ofZ 5) (ofZ 100).
Definition lit_0_02 : number := Eval vm_compute in div (ofZ 2) (ofZ 100).
Definition lit_0_2 : number := Eval vm_compute in div (ofZ 2) (ofZ 10).
Definition lit_0_5 : number := Eval vm_compute in div (ofZ 1) (ofZ 2).

(** The integer part of a number (truncation toward zero), the first step
    of the conversions [ToInt32] and [ToUint32]; NaN and the infinities
    convert to 0. *)
Definition truncate (x : number) : Z :=
  match x with
  | S754_finite s m e =>
      let mag := if 0 <=? e then Z.shiftl (Z.pos m) e
                 else Z.shiftr (Z.pos m) (- e) in
      if s then - mag else mag
  | _ => 0
  end.

(** [Math.floor(x)] used as an array index: [None] when the result is not a
    finite number. *)
Definition floor (x : number) : option Z :=
  match x with
  | S754_zero _ => Some 0
  | S754_finite s m e =>
      let z := if s then Z.neg m else Z.pos m in
      Some (if 0 <=? e then Z.shiftl z e else Z.shiftr z (- e))
  | _ => None
  end.

(** [arr[x]] for a number [x] produced by [Math.floor]: [undefined] (here
    [None]) outside the array. *)
Definition index {A : Type} (arr : list A) (x : option Z) : option A :=
  match x with
  | Some z => if 0 <=? z then arr !! Z.to_nat z else None
  | None => None
  end.

(** [Math.ceil(x)], likewise. *)
Definition ceil (x : number) : option Z :=
  match floor (neg x) with
  | Some z => Some (- z)
  | None => None
  end.

(** A counter kept in a [Map] and updated as [m.set(k, m.get(k) + d)]: the
    update of a missing key stores NaN. *)
Inductive counter : Type := Int (z : Z) | NotANumber.

(** [m.get(k) + d] *)
Definition bump (c : option counter) (d : Z) : counter :=
  match c with
  | Some (Int z) => Int (z + d)
  | _ => NotANumber
  end.

(** [m.get(k) || 0] *)
Definition orZero (c : option counter) : Z :=
  match c with
  | Some (Int z) => z
  | _ => 0
  end.

(** [m.get(a) + m.get(b)] as a number. *)
Definition plus (a b : option counter) : number :=
  match a, b with
  | Some (Int x), Some (Int y) => ofZ (x + y)
  | _, _ => NaN
  end.

(** Truthiness of a string value that may be [undefined]. *)
Definition truthy (s : option string) : bool :=
  match s with
  | Some s => negb (String.eqb s "")
  | None => false
  end.

End Js.

(** ** Deterministic generator *)

Definition charCodeAt (c : ascii) : Z := Z.of_nat (nat_of_ascii c).

Definition hashSeed (seed : string) : Z :=
  let h0 := Js.xor 1779033703 (Z.of_nat (String.length seed)) in
  let h := fold_left
             (fun h c =>
                let h := Js.imul (Js.xor h (charCodeAt c)) 3432918353 in
                Js.or (Js.shl h 13) (Js.ushr h 19))
             (list_ascii_of_string seed) h0 in
  Js.ushr (Js.xor (Js.imul (Js.xor h (Js.ushr h 16)) 2246822507) (Js.ushr h 13)) 0.

(** The generator is a closure over the mutable number [t]; its state is
    that number. *)
Definition Rng : Type := Js.number.

Definition createSeededRng (seed : string) : Rng := Js.ofZ (hashSeed seed).

(** One call [rng()]: the value returned and the state left behind.  [t] is
    a number and is never wrapped ([t += 0x6D2B79F5] is a binary64
    addition); the integer operators convert it on use. *)
Definition rngNext (t : Rng) : Js.number * Rng :=
  let t := Js.add t (Js.ofZ 1831565813) in
  let ti := Js.truncate t in
  let r := Js.imul (Js.xor ti (Js.ushr ti 15)) (Js.or ti 1) in
  let r := Js.xor r (r + Js.imul (Js.xor r (Js.ushr r 7)) (Js.or r 61)) in
  (Js.div (Js.ofZ (Js.ushr (Js.xor r (Js.ushr r 14)) 0)) (Js.ofZ 4294967296), t).

(** ** Host services *)

(** [localeCompare a b] is the sign-carrying result of [a.localeCompare(b)];
    [getWeekKey d] is the key of the week of date [d] (the source derives it
    from the Monday found by the host's [Date]). *)
Class Host : Type := {
  localeCompare : string -> string -> Z;
  getWeekKey : string -> string
}.

(** ** Arrays and Maps *)

(** [Array.prototype.sort] is stable: with a consistent comparator its
    result is the one of a stable insertion sort. *)
Fixpoint sortInsert {A : Type} (cmp : A -> A -> Z) (x : A) (l : list A) : list A :=
  match l with
  | [] => [x]
  | y :: l' => if 0 <? cmp y x then x :: l else y :: sortInsert cmp x l'
  end.

Definition stableSort {A : Type} (cmp : A -> A -> Z) (l : list A) : list A :=
  fold_left (fun acc x => sortInsert cmp x acc) l [].

(** A [Map] with string keys, in insertion order. *)
Fixpoint mapGet {V : Type} (m : list (string * V)) (k : string) : option V :=
  match m with
  | [] => None
  | (k', v) :: m' => if decide (k' = k) then Some v else mapGet m' k
  end.

Fixpoint mapSet {V : Type} (m : list (string * V)) (k : string) (v : V) : list (string * V) :=
  match m with
  | [] => [(k, v)]
  | (k', v') :: m' => if decide (k' = k) then (k, v) :: m' else (k', v') :: mapSet m' k v
  end.

(** [m.set(k, (m.get(k) || 0) + 1)] *)
Definition mapIncr (m : list (string * Z)) (k : string) : list (string * Z) :=
  mapSet m k (default 0 (mapGet m k) + 1).

(** A [Set] of strings, in insertion order. *)
Definition setAdd (s : list string) (k : string) : list string :=
  if decide (k ∈ s) then s else (s ++ [k])%list.

(** ** Data model *)

Module Game.
Record t : Type := mk { date : string; slot : string; away : string; home : string }.
End Game.

Module Slot.
(** [index] is [None] when the slot object carries no [index] field. *)
Record t : Type := mk { date : string; slot : string; index : option Z }.
End Slot.

Module Lock.
(** [requiredTeams] lists the teams of the lock's array or Set (an absent
    field and an empty collection behave alike everywhere: the source reads
    it as [requiredTeams || []]); [away] and [home] are the optional
    explicit sides. *)
Record t : Type := mk { requiredTeams : list string; away : option string; home : option string }.
End Lock.

Module Balance.
Record t : Type := mk { home : Z; away : Z; diff : Z }.
End Balance.

Module Violation.
Record t : Type := mk { date : string; team : string; gameCount : nat; gameIndices : list nat }.
End Violation.

Module Fairness.
(** The fields [mean] and [stdDev] of the source's record (decimal roundings
    of binary64 values through [toFixed]) are not represented. *)
Record t : Type := mk { rating : string; range : Z; min : Z; max : Z; fair : bool }.
End Fairness.

(** ** Verification utilities *)

Section Utilities.
Context `{Host}.

Definition summarizeSlotDistribution (games : list Game.t) (slot : string) : list (string * Z) :=
  let counts :=
    fold_left
      (fun counts game =>
         if negb (String.eqb (Game.slot game) slot) then counts
         else mapIncr (mapIncr counts (Game.away game)) (Game.home game))
      games [] in
  stableSort (fun a b => localeCompare a.1 b.1) counts.

(** [Math.min(...counts)] and [Math.max(...counts)] on a non-empty array. *)
Definition minOf (counts : list Z) : Z := fold_right Z.min (hd 0 counts) counts.
Definition maxOf (counts : list Z) : Z := fold_right Z.max (hd 0 counts) counts.

Definition rateCounts (counts : list Z) : Fairness.t :=
  match counts with
  | [] => Fairness.mk "N/A" 0 0 0 true
  | _ =>
      let min := minOf counts in
      let max := maxOf counts in
      let range := max - min in
      let '(rating, fair) :=
        if range =? 0 then ("Perfect", true)
        else if range =? 1 then ("Excellent", true)
        else if range =? 2 then ("Good", true)
        else if range =? 3 then ("Fair", false)
        else ("Poor", false) in
      Fairness.mk rating range min max fair
  end.

(** [Object.values(distribution)]: the counts of the distribution (their
    order does not reach the result). *)
Definition computeSlotFairness (games : list Game.t) (slot : string) : Fairness.t :=
  rateCounts (map snd (summarizeSlotDistribution games slot)).

End Utilities.

Definition computeHomeAwayBalance (games : list Game.t) : list (string * Balance.t) :=
  let '(homeCount, awayCount) :=
    fold_left
      (fun '(homeCount, awayCount) game =>
         (mapIncr homeCount (Game.home game), mapIncr awayCount (Game.away game)))
      games ([], []) in
  let teams := fold_left setAdd (map fst homeCount ++ map fst awayCount)%list [] in
  fold_left
    (fun balance team =>
       let home := default 0 (mapGet homeCount team) in
       let away := default 0 (mapGet awayCount team) in
       mapSet balance team (Balance.mk home away (Z.abs (home - away))))
    teams [].

(** [if (!dateMap.has(team)) dateMap.set(team, [])] *)
Definition ensureTeam (dateMap : list (string * list nat)) (team : string)
  : list (string * list nat) :=
  match mapGet dateMap team with
  | Some _ => dateMap
  | None => mapSet dateMap team []
  end.

(** [dateMap.get(team).push(idx)] *)
Definition pushIndex (dateMap : list (string * list nat)) (team : string) (idx : nat)
  : list (string * list nat) :=
  mapSet dateMap team (default [] (mapGet dateMap team) ++ [idx])%list.

(** The body of the first [forEach] of [verifyNoDoubleheaders]. *)
Definition recordGame (teamsByDate : list (string * list (string * list nat)))
    (item : nat * Game.t) : list (string * list (string * list nat)) :=
  let '(idx, game) := item in
  let dateMap := default [] (mapGet teamsByDate (Game.date game)) in
  let dateMap := ensureTeam (ensureTeam dateMap (Game.away game)) (Game.home game) in
  let dateMap := pushIndex (pushIndex dateMap (Game.away game) idx) (Game.home game) idx in
  mapSet teamsByDate (Game.date game) dateMap.

Definition findViolations (teamsByDate : list (string * list (string * list nat)))
  : list Violation.t :=
  flat_map
    (fun '(date, teamsOnDate) =>
       flat_map
         (fun '(team, gameIndices) =>
            if (1 <? length gameIndices)%nat
            then [Violation.mk date team (length gameIndices) gameIndices]
            else [])
         teamsOnDate)
    teamsByDate.

Definition verifyNoDoubleheaders (games : list Game.t) : bool * list Violation.t :=
  let teamsByDate := fold_left recordGame (imap (fun idx game => (idx, game)) games) [] in
  let violations := findViolations teamsByDate in
  (match violations with [] => true | _ => false end, violations).

(** ** Home/away optimizer *)

(** An abrupt completion by [TypeError] (a property read on [undefined]). *)
Inductive Completion (A : Type) : Type :=
| Normal (a : A)
| TypeError.
Arguments Normal {A} a.
Arguments TypeError {A}.

Module Candidate.
Record t : Type := mk { idx : nat; game : Game.t; team : string; toHome : bool }.
End Candidate.

Definition totalImbalance (balance : list (string * Balance.t)) : Z :=
  fold_left (fun total entry => total + Balance.diff entry.2) balance 0.

Definition imbalancedTeams (balance : list (string * Balance.t)) : list (string * Balance.t) :=
  stableSort (fun a b => Balance.diff b.2 - Balance.diff a.2)
    (List.filter (fun entry => 0 <? Balance.diff entry.2) balance).

(** [gameLocks]: the locks whose slot index lies below the number of games. *)
Definition gameLocks (lockRequirements : gmap Z Lock.t) (count : nat) : gmap Z Lock.t :=
  filter (fun entry => entry.1 < Z.of_nat count) lockRequirements.

(** [isLocked && lock.away && lock.home] *)
Definition fullyPinned (lock : option Lock.t) : bool :=
  match lock with
  | Some lock =>
      let isLocked := Js.truthy (Lock.away lock) || Js.truthy (Lock.home lock) in
      isLocked && Js.truthy (Lock.away lock) && Js.truthy (Lock.home lock)
  | None => false
  end.

Definition flipCandidates (locks : gmap Z Lock.t) (balance : list (string * Balance.t))
    (games : list Game.t) (team : string) (home away : Z) : list Candidate.t :=
  let needsMoreHome := home <? away in
  let needsMoreAway := away <? home in
  flat_map
    (fun '(idx, game) =>
       if fullyPinned (locks !! Z.of_nat idx) then []
       else if needsMoreHome && String.eqb (Game.away game) team then
         match mapGet balance (Game.home game) with
         | Some opp =>
             if Balance.home opp <? Balance.away opp then []
             else [Candidate.mk idx game team true]
         | None => [Candidate.mk idx game team true]
         end
       else if needsMoreAway && String.eqb (Game.home game) team then
         match mapGet balance (Game.away game) with
         | Some opp =>
             if Balance.away opp <? Balance.home opp then []
             else [Candidate.mk idx game team false]
         | None => [Candidate.mk idx game team false]
         end
       else [])
    (imap (fun idx game => (idx, game)) games).

(** The [for ... of imbalanced] loop: the candidates of the first team, in
    order, that has any. *)
Fixpoint firstFlippable (locks : gmap Z Lock.t) (balance : list (string * Balance.t))
    (games : list Game.t) (imbalanced : list (string * Balance.t)) : option (list Candidate.t) :=
  match imbalanced with
  | [] => None
  | (team, b) :: rest =>
      match flipCandidates locks balance games team (Balance.home b) (Balance.away b) with
      | [] => firstFlippable locks balance games rest
      | candidates => Some candidates
      end
  end.

Definition flipGame (game : Game.t) : Game.t :=
  Game.mk (Game.date game) (Game.slot game) (Game.home game) (Game.away game).

Inductive Step : Type :=
| Stop
| Flip (games : list Game.t) (rng : Rng)
| Crash.

(** One iteration of the [while] loop: [Stop] when it leaves [improved]
    false or breaks, [Flip] when a game was flipped. *)
Definition optimizeStep (locks : gmap Z Lock.t) (games : list Game.t) (rng : Rng) : Step :=
  let balance := computeHomeAwayBalance games in
  if totalImbalance balance =? 0 then Stop
  else
    let imbalanced := imbalancedTeams balance in
    match imbalanced with
    | [] => Stop
    | _ =>
        match firstFlippable locks balance games imbalanced with
        | None => Stop
        | Some candidates =>
            let '(u, rng) := rngNext rng in
            match Js.index candidates (Js.floor (Js.mul u (Js.ofZ (Z.of_nat (length candidates))))) with
            | None => Crash
            | Some choice =>
                Flip (<[Candidate.idx choice := flipGame (Candidate.game choice)]> games) rng
            end
        end
    end.

(** The loop runs while [improved && flips < maxFlips]; every iteration that
    does not end it adds one flip, so [budget] counts [maxFlips - flips]. *)
Fixpoint optimizeLoop (locks : gmap Z Lock.t) (budget : nat) (games : list Game.t)
    (rng : Rng) (flips : Z) : Completion (list Game.t * Z) :=
  match budget with
  | O => Normal (games, flips)
  | S budget =>
      match optimizeStep locks games rng with
      | Stop => Normal (games, flips)
      | Flip games rng => optimizeLoop locks budget games rng (flips + 1)
      | Crash => TypeError
      end
  end.

Definition optimizeHomeAwayBalance (games : list Game.t) (lockRequirements : gmap Z Lock.t)
    (seed : string) (maxFlips : Z) : Completion (list Game.t * Z) :=
  optimizeLoop (gameLocks lockRequirements (length games)) (Z.to_nat maxFlips)
    games (createSeededRng seed) 0.

(** ** Pair ledger *)

Module Pair.
Record t : Type := mk { teams : string * string; remaining : Z; homeToggle : Z }.
End Pair.

Fixpoint pairUp (sorted : list string) (gamesPerPair : Z) : list Pair.t :=
  match sorted with
  | [] => []
  | a :: rest =>
      (map (fun b => Pair.mk (a, b) gamesPerPair 0) rest ++ pairUp rest gamesPerPair)%list
  end.

Definition createPairState `{Host} (teams : list string) (gamesPerPair : Z) : list Pair.t :=
  pairUp (stableSort localeCompare teams) gamesPerPair.

Definition needScore (count minTarget : Z) : Z := Z.max 0 (minTarget - count).

Definition projectedExcess (count delta maxTarget : Z) : Z := Z.max 0 ((count + delta) - maxTarget).

(** [Math.floor] and [Math.ceil] of the binary64 quotient; the quotient of
    two counts is finite, so the conversions succeed. *)
Definition computeTargetRange (teamCount slotGameCount : Z) : Z * Z * Js.number :=
  let appearances := slotGameCount * 2 in
  let ideal := if teamCount =? 0 then Js.ofZ 0
               else Js.div (Js.ofZ appearances) (Js.ofZ teamCount) in
  (default 0 (Js.floor ideal), default 0 (Js.ceil ideal), ideal).

(** [Array.from(new Set(teams))] for an array [teams]. *)
Definition toTeamArray (teams : list string) : list string := fold_left setAdd teams [].

(** ** Slot assigner *)

Module Rejected.
Record t : Type := mk {
  noGames : nat; wrongTeams : nat; sameDay : nat;
  wouldExceed : nat; teamLocked : nat; weekLimit : nat }.
Definition zero : t := mk 0 0 0 0 0 0.
End Rejected.

Module Diagnostics.
Record t : Type := mk {
  rejection : Rejected.t; forced : bool;
  requiredTeams : option (list string); totalPairs : nat }.
End Diagnostics.

Module Select.
(** The argument object of [selectPair].  [requiredTeams] and
    [allLockedTeams] are [None] for [null]; [diagnostics] tells whether a
    diagnostics object was passed. *)
Record t : Type := mk {
  pairs : list Pair.t;
  isTargetSlot : bool;
  teamTargetCounts : gmap string Z;
  minTarget : Z;
  maxTarget : Z;
  teamGamesRemaining : gmap string Js.counter;
  rng : Rng;
  requiredTeams : option (list string);
  diagnostics : bool;
  teamsPlayedToday : option (gset string);
  allLockedTeams : option (gset string);
  teamsThisWeek : option (gmap string Z);
  currentDate : string }.
End Select.

(** What the eligibility filter says of one pair: the filter that rejects
    it, or [Eligible]. *)
Inductive Verdict : Type :=
| NoGames | WrongTeams | SameDay | TeamLocked | WeekLimit | WouldExceed | Eligible.

(** [Array.isArray(requiredTeams) && requiredTeams.length > 0] *)
Definition isForced (requiredTeams : option (list string)) : bool :=
  match requiredTeams with
  | Some (_ :: _) => true
  | _ => false
  end.

(** [entry.teams.includes(team)] *)
Definition includes (entry : Pair.t) (team : string) : bool :=
  String.eqb (Pair.teams entry).1 team || String.eqb (Pair.teams entry).2 team.

Definition has (s : gset string) (team : string) : bool := bool_decide (team ∈ s).

Definition weeklyCount (teamsThisWeek : option (gmap string Z)) (team : string) : Z :=
  match teamsThisWeek with
  | Some m => default 0 (m !! team)
  | None => 0
  end.

Definition screenPair (a : Select.t) (entry : Pair.t) : Verdict :=
  let forced := isForced (Select.requiredTeams a) in
  let '(teamA, teamB) := Pair.teams entry in
  if Pair.remaining entry <=? 0 then NoGames
  else if forced && negb (forallb (includes entry) (default [] (Select.requiredTeams a)))
  then WrongTeams
  else if match Select.teamsPlayedToday a with
          | Some today => has today teamA || has today teamB
          | None => false
          end
  then SameDay
  else if negb forced &&
          match Select.allLockedTeams a with
          | Some locked => has locked teamA || has locked teamB
          | None => false
          end
  then TeamLocked
  else
    let weeklyCountA := weeklyCount (Select.teamsThisWeek a) teamA in
    let weeklyCountB := weeklyCount (Select.teamsThisWeek a) teamB in
    if negb forced && ((2 <=? weeklyCountA) || (2 <=? weeklyCountB)) then WeekLimit
    else
      let targetCountA := default 0 (Select.teamTargetCounts a !! teamA) in
      let targetCountB := default 0 (Select.teamTargetCounts a !! teamB) in
      let delta := if Select.isTargetSlot a then 1 else 0 in
      let projectedA := projectedExcess targetCountA delta (Select.maxTarget a) in
      let projectedB := projectedExcess targetCountB delta (Select.maxTarget a) in
      if negb forced && ((0 <? projectedA) || (0 <? projectedB)) then WouldExceed
      else Eligible.

(** The score of a surviving pair, [u] being the value the generator
    returned for its jitter. *)
Definition pairScore (a : Select.t) (entry : Pair.t) (u : Js.number) : Js.number :=
  let '(teamA, teamB) := Pair.teams entry in
  let weeklyCountA := weeklyCount (Select.teamsThisWeek a) teamA in
  let weeklyCountB := weeklyCount (Select.teamsThisWeek a) teamB in
  let targetCountA := default 0 (Select.teamTargetCounts a !! teamA) in
  let targetCountB := default 0 (Select.teamTargetCounts a !! teamB) in
  let needA := needScore targetCountA (Select.minTarget a) in
  let needB := needScore targetCountB (Select.minTarget a) in
  let base := Js.ofZ (Pair.remaining entry) in
  let targetScore :=
    if Select.isTargetSlot a then Js.mul (Js.ofZ (needA + needB)) (Js.ofZ 3)
    else Js.mul (Js.ofZ (needA + needB)) (Js.neg Js.lit_0_2) in
  let gamesLeft :=
    Js.mul (Js.plus (Select.teamGamesRemaining a !! teamA) (Select.teamGamesRemaining a !! teamB))
      Js.lit_0_02 in
  let weeklyPenalty := Js.mul (Js.ofZ (weeklyCountA + weeklyCountB)) (Js.neg (Js.ofZ 2)) in
  let jitter := Js.mul u Js.lit_0_05 in
  Js.add (Js.add (Js.add (Js.add base targetScore) gamesLeft) weeklyPenalty) jitter.

Definition countRejection (v : Verdict) (r : Rejected.t) : Rejected.t :=
  let '(Rejected.mk noGames wrongTeams sameDay wouldExceed teamLocked weekLimit) := r in
  match v with
  | NoGames => Rejected.mk (S noGames) wrongTeams sameDay wouldExceed teamLocked weekLimit
  | WrongTeams => Rejected.mk noGames (S wrongTeams) sameDay wouldExceed teamLocked weekLimit
  | SameDay => Rejected.mk noGames wrongTeams (S sameDay) wouldExceed teamLocked weekLimit
  | WouldExceed => Rejected.mk noGames wrongTeams sameDay (S wouldExceed) teamLocked weekLimit
  | TeamLocked => Rejected.mk noGames wrongTeams sameDay wouldExceed (S teamLocked) weekLimit
  | WeekLimit => Rejected.mk noGames wrongTeams sameDay wouldExceed teamLocked (S weekLimit)
  | Eligible => r
  end.

Module Scan.
(** The variables of [selectPair] that its [forEach] updates; [best] holds
    the positions in [pairs] of the entries it references. *)
Record t : Type := mk {
  bestScore : Js.number; best : list nat;
  rejected : option Rejected.t; rng : Rng }.
End Scan.

Definition scanPair (a : Select.t) (st : Scan.t) (item : nat * Pair.t) : Scan.t :=
  let '(i, entry) := item in
  match screenPair a entry with
  | Eligible =>
      let '(u, rng) := rngNext (Scan.rng st) in
      let score := pairScore a entry u in
      if Js.gt score (Scan.bestScore st) then Scan.mk score [i] (Scan.rejected st) rng
      else if Js.strictEq score (Scan.bestScore st)
      then Scan.mk (Scan.bestScore st) (Scan.best st ++ [i])%list (Scan.rejected st) rng
      else Scan.mk (Scan.bestScore st) (Scan.best st) (Scan.rejected st) rng
  | v => Scan.mk (Scan.bestScore st) (Scan.best st) (countRejection v <$> Scan.rejected st) (Scan.rng st)
  end.

Definition scanPairs (a : Select.t) : Scan.t :=
  fold_left (scanPair a) (imap (fun i entry => (i, entry)) (Select.pairs a))
    (Scan.mk Js.negInfinity []
       (if Select.diagnostics a then Some Rejected.zero else None) (Select.rng a)).

Module Selected.
(** What a call of [selectPair] leaves: the position in [pairs] of the entry
    returned ([None] for [null] or [undefined]), the generator's state, and
    the fields written to the diagnostics object. *)
Record t : Type := mk { chosen : option nat; rng : Rng; report : option Diagnostics.t }.
End Selected.

Definition selectPair (a : Select.t) : Selected.t :=
  let st := scanPairs a in
  match Scan.best st with
  | [] =>
      Selected.mk None (Scan.rng st)
        ((fun rejected =>
            Diagnostics.mk rejected (isForced (Select.requiredTeams a))
              (Select.requiredTeams a) (length (Select.pairs a))) <$> Scan.rejected st)
  | best =>
      let '(u, rng) := rngNext (Scan.rng st) in
      Selected.mk (Js.index best (Js.floor (Js.mul u (Js.ofZ (Z.of_nat (length best)))))) rng None
  end.

Module HomeAway.
Record t : Type := mk { home : gmap string Js.counter; away : gmap string Js.counter }.
End HomeAway.

(** Placement by home/away balance, the code shared by the lock-free branch
    of [assignGame] and by its branch for a lock without explicit sides:
    the pair [(away, home)]. *)
Definition placeByBalance (teamA teamB : string) (homeAwayCounts : HomeAway.t) (rng : Rng)
  : (string * string) * Rng :=
  let homeA := Js.orZero (HomeAway.home homeAwayCounts !! teamA) in
  let awayA := Js.orZero (HomeAway.away homeAwayCounts !! teamA) in
  let homeB := Js.orZero (HomeAway.home homeAwayCounts !! teamB) in
  let awayB := Js.orZero (HomeAway.away homeAwayCounts !! teamB) in
  let balanceScoreA := homeA - awayA in
  let balanceScoreB := homeB - awayB in
  if 1 <? Z.abs (balanceScoreA - balanceScoreB) then
    if balanceScoreA <? balanceScoreB then ((teamB, teamA), rng) else ((teamA, teamB), rng)
  else
    let '(u, rng) := rngNext rng in
    let swap := Js.lt u Js.lit_0_5 in
    ((if swap then teamB else teamA, if swap then teamA else teamB), rng).

(** [entry.teams.find((team) => team !== side) || side] *)
Definition otherTeam (entry : Pair.t) (side : string) : string :=
  let '(teamA, teamB) := Pair.teams entry in
  let found := if negb (String.eqb teamA side) then Some teamA
               else if negb (String.eqb teamB side) then Some teamB
               else None in
  if Js.truthy found then default "" found else side.

Definition assignGame (slot : Slot.t) (entry : Pair.t) (rng : Rng) (lock : option Lock.t)
    (homeAwayCounts : HomeAway.t) : Game.t * Rng :=
  let '(teamA, teamB) := Pair.teams entry in
  let '((away, home), rng) :=
    match lock with
    | Some lock =>
        let required := toTeamArray (Lock.requiredTeams lock) in
        let lockAway := default "" (Lock.away lock) in
        let lockHome := default "" (Lock.home lock) in
        if Js.truthy (Lock.away lock) && Js.truthy (Lock.home lock) then ((lockAway, lockHome), rng)
        else if Js.truthy (Lock.away lock) then ((lockAway, otherTeam entry lockAway), rng)
        else if Js.truthy (Lock.home lock) then ((otherTeam entry lockHome, lockHome), rng)
        else
          let '((away, home), rng) := placeByBalance teamA teamB homeAwayCounts rng in
          match required with
          | [req] =>
              if negb (String.eqb away req) && String.eqb home req
              then ((home, away), rng) else ((away, home), rng)
          | _ => ((away, home), rng)
          end
    | None => placeByBalance teamA teamB homeAwayCounts rng
    end in
  (Game.mk (Slot.date slot) (Slot.slot slot) away home, rng).

(** ** Attempt orchestrator *)

(** The text of a failure reason is rendered from these data. *)
Inductive Reason : Type :=
| NoAvailableMatchup (slotNumber : nat) (date slot : string)
    (lockedTo : option (list string))
    (detail : option (Rejected.t * option (list Pair.t)))
| StillUnassigned (count : nat) (examples : list (string * string))
| HasDoubleheaders (violations : list Violation.t).

Module Failure.
Record t : Type := mk { reason : Reason; slotIndex : option nat; partialGames : list Game.t }.
End Failure.

Module Stats.
Record t : Type := mk {
  targetSlot : string; minTarget : Z; maxTarget : Z; targetCounts : gmap string Z }.
End Stats.

Module Success.
Record t : Type := mk { games : list Game.t; stats : Stats.t; homeAwayCounts : HomeAway.t }.
End Success.

Module Attempt.
(** The mutable state of one attempt. *)
Record t : Type := mk {
  pairs : list Pair.t;
  teamTargetCounts : gmap string Z;
  teamGamesRemaining : gmap string Js.counter;
  assignments : list Game.t;
  teamsByDate : gmap string (gset string);
  teamsByWeek : gmap string (gmap string Z);
  homeAwayCounts : HomeAway.t;
  rng : Rng }.
End Attempt.

Module Plan.
(** What an attempt fixes before its loop over the slots. *)
Record t : Type := mk {
  targetSlot : string; minTarget : Z; maxTarget : Z;
  lockRequirements : gmap Z Lock.t; allLockedTeams : gset string; verbose : bool }.
End Plan.

(** [m.set(k, (m.get(k) || 0) + 1)] on a looked-up Map. *)
Definition countUp (m : gmap string Z) (k : string) : gmap string Z :=
  <[k := default 0 (m !! k) + 1]> m.

(** [m.set(k, m.get(k) + d)] *)
Definition shift (m : gmap string Js.counter) (k : string) (d : Z) : gmap string Js.counter :=
  <[k := Js.bump (m !! k) d]> m.

Definition playPair (entry : Pair.t) : Pair.t :=
  Pair.mk (Pair.teams entry) (Pair.remaining entry - 1) (Pair.homeToggle entry).

Section Attempts.
Context `{Host}.

(** The body of the loop over the slots, for slot [i]. *)
Definition fillSlot (plan : Plan.t) (i : nat) (slot : Slot.t) (st : Attempt.t)
  : Attempt.t + Failure.t :=
  let slotLock := Plan.lockRequirements plan !! default (Z.of_nat i) (Slot.index slot) in
  let teamsPlayedToday := default ∅ (Attempt.teamsByDate st !! Slot.date slot) in
  let weekKey := getWeekKey (Slot.date slot) in
  let teamsThisWeek := default ∅ (Attempt.teamsByWeek st !! weekKey) in
  let isTarget := String.eqb (Slot.slot slot) (Plan.targetSlot plan) in
  let picked :=
    selectPair
      (Select.mk (Attempt.pairs st) isTarget (Attempt.teamTargetCounts st)
         (Plan.minTarget plan) (Plan.maxTarget plan) (Attempt.teamGamesRemaining st)
         (Attempt.rng st)
         ((fun lock => Lock.requiredTeams lock) <$> slotLock)
         (Plan.verbose plan)
         (Some teamsPlayedToday)
         (if decide (Plan.allLockedTeams plan = ∅) then None else Some (Plan.allLockedTeams plan))
         (Some teamsThisWeek)
         (Slot.date slot)) in
  match Selected.chosen picked ≫= (fun k => (fun entry => (k, entry)) <$> Attempt.pairs st !! k) with
  | None =>
      let detail :=
        (fun d =>
           (Diagnostics.rejection d,
            if Diagnostics.forced d then
              Some (List.filter
                      (fun p => (0 <? Pair.remaining p) &&
                                forallb (includes p) (default [] (Diagnostics.requiredTeams d)))
                      (Attempt.pairs st))
            else None)) <$> Selected.report picked in
      inr (Failure.mk
             (NoAvailableMatchup (i + 1) (Slot.date slot) (Slot.slot slot)
                ((fun lock => Lock.requiredTeams lock) <$> slotLock) detail)
             (Some i) (Attempt.assignments st))
  | Some (k, candidate) =>
      let '(game, rng) :=
        assignGame slot candidate (Selected.rng picked) slotLock (Attempt.homeAwayCounts st) in
      let away := Game.away game in
      let home := Game.home game in
      let counts := Attempt.homeAwayCounts st in
      let homeCounts := shift (HomeAway.home counts) home 1 in
      let awayCounts := shift (HomeAway.away counts) away 1 in
      let teamsPlayedToday := teamsPlayedToday ∪ {[away]} ∪ {[home]} in
      let teamsThisWeek := countUp (countUp teamsThisWeek away) home in
      let teamGamesRemaining := shift (shift (Attempt.teamGamesRemaining st) away (-1)) home (-1) in
      let teamTargetCounts :=
        if isTarget then countUp (countUp (Attempt.teamTargetCounts st) away) home
        else Attempt.teamTargetCounts st in
      inl (Attempt.mk
             (<[k := playPair candidate]> (Attempt.pairs st))
             teamTargetCounts teamGamesRemaining
             (Attempt.assignments st ++ [game])%list
             (<[Slot.date slot := teamsPlayedToday]> (Attempt.teamsByDate st))
             (<[weekKey := teamsThisWeek]> (Attempt.teamsByWeek st))
             (HomeAway.mk homeCounts awayCounts)
             rng)
  end.

Fixpoint fillSlots (plan : Plan.t) (i : nat) (slots : list Slot.t) (st : Attempt.t)
  : Attempt.t + Failure.t :=
  match slots with
  | [] => inl st
  | slot :: rest =>
      match fillSlot plan i slot st with
      | inl st => fillSlots plan (S i) rest st
      | inr failure => inr failure
      end
  end.

Definition collectLockedTeams (lockRequirements : gmap Z Lock.t) : gset string :=
  map_fold (fun _ lock locked => locked ∪ list_to_set (Lock.requiredTeams lock)) ∅ lockRequirements.

Definition initialAttempt (teams : list string) (seed : string) (gamesPerPair : Z) : Attempt.t :=
  let gamesNeededPerTeam := gamesPerPair * (Z.of_nat (length teams) - 1) in
  Attempt.mk
    (createPairState teams gamesPerPair)
    (list_to_map (map (fun team => (team, 0)) teams))
    (list_to_map (map (fun team => (team, Js.Int gamesNeededPerTeam)) teams))
    []
    ∅ ∅
    (HomeAway.mk (list_to_map (map (fun team => (team, Js.Int 0)) teams))
                 (list_to_map (map (fun team => (team, Js.Int 0)) teams)))
    (createSeededRng seed).

Definition planAttempt (teams : list string) (slots : list Slot.t) (targetSlot : string)
    (lockRequirements : gmap Z Lock.t) (verbose : bool) : Plan.t :=
  let targetSlots :=
    length (List.filter (fun slot => String.eqb (Slot.slot slot) targetSlot) slots) in
  let '(minTarget, maxTarget, _) :=
    computeTargetRange (Z.of_nat (length teams)) (Z.of_nat targetSlots) in
  Plan.mk targetSlot minTarget maxTarget lockRequirements
    (collectLockedTeams lockRequirements) verbose.

Definition tryGenerateSchedule (teams : list string) (slots : list Slot.t) (targetSlot : string)
    (seed : string) (gamesPerPair : Z) (lockRequirements : gmap Z Lock.t) (verbose : bool)
  : Success.t + Failure.t :=
  let plan := planAttempt teams slots targetSlot lockRequirements verbose in
  match fillSlots plan 0 slots (initialAttempt teams seed gamesPerPair) with
  | inr failure => inr failure
  | inl st =>
      let unfinished := List.filter (fun entry => 0 <? Pair.remaining entry) (Attempt.pairs st) in
      match unfinished with
      | _ :: _ =>
          inr (Failure.mk
                 (StillUnassigned (length unfinished) (map Pair.teams (take 3 unfinished)))
                 None (Attempt.assignments st))
      | [] =>
          inl (Success.mk (Attempt.assignments st)
                 (Stats.mk targetSlot (Plan.minTarget plan) (Plan.maxTarget plan)
                    (Attempt.teamTargetCounts st))
                 (Attempt.homeAwayCounts st))
      end
  end.

End Attempts.

(** ** Retry orchestrator *)

Module FailedAttempt.
Record t : Type := mk {
  attempt : nat; reason : Reason; slotIndex : option nat;
  partialGames : list Game.t; seed : string }.
End FailedAttempt.

Module Schedule.
Record t : Type := mk {
  games : list Game.t; stats : Stats.t; homeAwayCounts : HomeAway.t;
  seed : string; attempts : nat; homeAwayFlips : Z }.
End Schedule.

(** How a call of [generateBalancedSchedule] completes: by returning a
    schedule, or by throwing. *)
Inductive Generated : Type :=
| Built (schedule : Schedule.t)
| NoTeamsProvided
| NoSlotsProvided
| UnableToBuild (maxAttempts : Z) (failures : list FailedAttempt.t)
| RaisedTypeError.

Module Request.
(** The argument object of [generateBalancedSchedule]; [seed] is [None]
    when the caller leaves it to the default [Date.now()]. *)
Record t : Type := mk {
  teams : list string;
  slots : list Slot.t;
  targetSlot : string;
  seed : option string;
  gamesPerPair : Z;
  maxAttempts : Z;
  lockRequirements : gmap Z Lock.t;
  verbose : bool;
  optimizeHomeAway : bool }.
End Request.

Section Retries.
Context `{Host}.

(** [`${seed}-${attempt}`] *)
Definition attemptSeed (seed : string) (attempt : nat) : string :=
  seed ++ "-" ++ pretty attempt.

(** The [return] of the loop: the record of the attempt with the final
    game list, the seed and the number of the attempt, and the flip count. *)
Definition returned (result : Success.t) (attemptSeed : string) (attempt : nat)
    (finalGames : list Game.t) (flips : Z) : Generated :=
  Built (Schedule.mk finalGames (Success.stats result) (Success.homeAwayCounts result)
           attemptSeed (attempt + 1) flips).

(** What the loop does with the value [optimized] of its call of the
    optimizer: the second doubleheader check, which discards an output that
    fails it, and the [return]. *)
Definition afterOptimizer (result : Success.t) (attemptSeed : string) (attempt : nat)
    (optimized : Completion (list Game.t * Z)) : Generated :=
  match optimized with
  | TypeError => RaisedTypeError
  | Normal (optimizedGames, optimizedFlips) =>
      if negb (verifyNoDoubleheaders optimizedGames).1
      then returned result attemptSeed attempt (Success.games result) 0
      else returned result attemptSeed attempt optimizedGames optimizedFlips
  end.

(** The [for] loop over the attempts, from attempt [attempt] on, with
    [budget] attempts left and [failures] collected so far. *)
Fixpoint attemptsFrom (rq : Request.t) (teams : list string) (seed : string)
    (budget attempt : nat) (failures : list FailedAttempt.t) : Generated :=
  match budget with
  | O =>
      match failures with
      | [] => RaisedTypeError
      | _ => UnableToBuild (Request.maxAttempts rq) failures
      end
  | S budget =>
      let attemptSeed := attemptSeed seed attempt in
      match tryGenerateSchedule teams (Request.slots rq) (Request.targetSlot rq) attemptSeed
              (Request.gamesPerPair rq) (Request.lockRequirements rq) (Request.verbose rq) with
      | inl result =>
          let dhCheck := verifyNoDoubleheaders (Success.games result) in
          if negb dhCheck.1 then
            attemptsFrom rq teams seed budget (S attempt)
              (failures ++ [FailedAttempt.mk (attempt + 1) (HasDoubleheaders (take 3 dhCheck.2))
                              None (Success.games result) attemptSeed])%list
          else if Request.optimizeHomeAway rq then
            afterOptimizer result attemptSeed attempt
              (optimizeHomeAwayBalance (Success.games result) (Request.lockRequirements rq)
                 (attemptSeed ++ "-optimize") 100)
          else returned result attemptSeed attempt (Success.games result) 0
      | inr failure =>
          attemptsFrom rq teams seed budget (S attempt)
            (failures ++ [FailedAttempt.mk (attempt + 1) (Failure.reason failure)
                            (Failure.slotIndex failure) (Failure.partialGames failure)
                            attemptSeed])%list
      end
  end.

(** [now] is the value [Date.now()] would return; it is read only when the
    request carries no seed. *)
Definition generateBalancedSchedule (now : Z) (rq : Request.t) : Generated :=
  let seed := match Request.seed rq with Some seed => seed | None => pretty now end in
  let normalizedTeams := toTeamArray (Request.teams rq) in
  match normalizedTeams, Request.slots rq with
  | [], _ => NoTeamsProvided
  | _, [] => NoSlotsProvided
  | _, _ =>
      attemptsFrom rq normalizedTeams seed (Z.to_nat (Request.maxAttempts rq)) 0 []
  end.

End Retries.

(** ** Command line: lock requirements and slot adherence ([src/cli.js]) *)

(** [`${date}|${slot}`] *)
Definition slotKey (date slot : string) : string := date ++ "|" ++ slot.

(** The Map [slotIndexByKey] of [buildLockRequirements]: a later slot with
    the same key replaces an earlier one. *)
Definition slotIndexByKey (slots : list Slot.t) : gmap string Z :=
  fold_left
    (fun byKey '(idx, slot) =>
       <[slotKey (Slot.date slot) (Slot.slot slot) :=
           default (Z.of_nat idx) (Slot.index slot)]> byKey)
    (imap (fun idx slot => (idx, slot)) slots) ∅.

(** The body of the [forEach] over the games in [buildLockRequirements];
    [requiredTeams] is a Set, kept in insertion order. *)
Definition lockGame (lockedSet : gset string) (byKey : gmap string Z)
    (requirements : gmap Z Lock.t) (game : Game.t) : gmap Z Lock.t :=
  match byKey !! slotKey (Game.date game) (Game.slot game) with
  | None => requirements
  | Some slotIndex =>
      let entry := default [] (Lock.requiredTeams <$> requirements !! slotIndex) in
      let entry := if has lockedSet (Game.away game) then setAdd entry (Game.away game)
                   else entry in
      let entry := if has lockedSet (Game.home game) then setAdd entry (Game.home game)
                   else entry in
      if has lockedSet (Game.away game) || has lockedSet (Game.home game)
      then <[slotIndex := Lock.mk entry None None]> requirements
      else requirements
  end.

Definition buildLockRequirements (games : list Game.t) (slots : list Slot.t)
    (lockedTeams : list string) : gmap Z Lock.t :=
  match lockedTeams with
  | [] => ∅
  | _ => fold_left (lockGame (list_to_set lockedTeams) (slotIndexByKey slots)) games ∅
  end.

Module Mismatch.
Record t : Type := mk { index : nat; expected : Slot.t; actual : string * string }.
End Mismatch.

Module Adherence.
Record t : Type := mk {
  expectedCount : nat; actualCount : nat; mismatches : list Mismatch.t; isExact : bool }.
End Adherence.

(** The loop of [verifyTimeSlots] over the positions both lists have. *)
Fixpoint slotMismatches (i : nat) (games : list Game.t) (slotPairs : list Slot.t)
  : list Mismatch.t :=
  match games, slotPairs with
  | game :: games, expected :: slotPairs =>
      let rest := slotMismatches (S i) games slotPairs in
      if negb (String.eqb (Game.date game) (Slot.date expected)) ||
         negb (String.eqb (Game.slot game) (Slot.slot expected))
      then Mismatch.mk i expected (Game.date game, Game.slot game) :: rest
      else rest
  | _, _ => []
  end.

Definition verifyTimeSlots (games : list Game.t) (slotPairs : list Slot.t) : Adherence.t :=
  let mismatches := slotMismatches 0 games slotPairs in
  Adherence.mk (length slotPairs) (length games) mismatches
    ((length games =? length slotPairs)%nat &&
     match mismatches with [] => true | _ => false end).

(** ** Command line: teams, opponent counts ([src/cli.js]) *)

Module TeamStats.
(** [opponents] is a Map, in insertion order. *)
Record t : Type := mk { games : Z; opponents : list (string * Z) }.
End TeamStats.

(** [ensure] of [buildTeamStats]: an empty name gives [null] ([false]
    here) and leaves the Map alone; any other name is entered on first
    sight. *)
Definition ensureStats (stats : list (string * TeamStats.t)) (team : string)
  : list (string * TeamStats.t) * bool :=
  if String.eqb team "" then (stats, false)
  else match mapGet stats team with
       | Some _ => (stats, true)
       | None => (mapSet stats team (TeamStats.mk 0 []), true)
       end.

(** [entry.games += 1] on the entry of [team]. *)
Definition countGame (stats : list (string * TeamStats.t)) (team : string)
  : list (string * TeamStats.t) :=
  match mapGet stats team with
  | Some entry =>
      mapSet stats team (TeamStats.mk (TeamStats.games entry + 1) (TeamStats.opponents entry))
  | None => stats
  end.

(** [entry.opponents.set(opponent, (entry.opponents.get(opponent) || 0) + 1)] *)
Definition countOpponent (stats : list (string * TeamStats.t)) (team opponent : string)
  : list (string * TeamStats.t) :=
  match mapGet stats team with
  | Some entry =>
      mapSet stats team
        (TeamStats.mk (TeamStats.games entry) (mapIncr (TeamStats.opponents entry) opponent))
  | None => stats
  end.

(** The body of the [forEach] of [buildTeamStats]. Both names are entered
    before the test, so a game with one empty name still enters the other. *)
Definition recordMeeting (stats : list (string * TeamStats.t)) (game : Game.t)
  : list (string * TeamStats.t) :=
  let '(stats, away) := ensureStats stats (Game.away game) in
  let '(stats, home) := ensureStats stats (Game.home game) in
  if negb away || negb home then stats
  else
    let stats := countGame stats (Game.away game) in
    let stats := countGame stats (Game.home game) in
    let stats := countOpponent stats (Game.away game) (Game.home game) in
    countOpponent stats (Game.home game) (Game.away game).

Definition buildTeamStats (games : list Game.t) : list (string * TeamStats.t) :=
  fold_left recordMeeting games [].

Module Issue.
Record t : Type := mk { teamA : string; teamB : string; countA : Z; countB : Z }.
End Issue.

Module Opponents.
Record t : Type := mk { issues : list Issue.t; expectedCount : Z; totalPairs : Z }.
End Opponents.

(** [teamStats.get(team)?.opponents.get(other) || 0] *)
Definition opponentCount (teamStats : list (string * TeamStats.t)) (team other : string) : Z :=
  default 0 (mapGet teamStats team ≫= fun entry => mapGet (TeamStats.opponents entry) other).

(** The two loops of [verifyOpponentCounts], over [i < j]. *)
Fixpoint opponentIssues (teamStats : list (string * TeamStats.t)) (expectedCount : Z)
    (teams : list string) : list Issue.t :=
  match teams with
  | [] => []
  | teamA :: rest =>
      (omap (fun teamB =>
               let countA := opponentCount teamStats teamA teamB in
               let countB := opponentCount teamStats teamB teamA in
               if negb (countA =? countB) || negb (countA =? expectedCount)
               then Some (Issue.mk teamA teamB countA countB) else None)
            rest ++ opponentIssues teamStats expectedCount rest)%list
  end.

Section CommandLine.
Context `{Host}.

(** [extractTeams]: the non-empty names of the games, each once, sorted. *)
Definition extractTeams (games : list Game.t) : list string :=
  let teamSet :=
    fold_left
      (fun teamSet game =>
         let teamSet := if String.eqb (Game.away game) "" then teamSet
                        else setAdd teamSet (Game.away game) in
         if String.eqb (Game.home game) "" then teamSet else setAdd teamSet (Game.home game))
      games [] in
  stableSort localeCompare teamSet.

(** [expectedCount] ranges over the integers, as the counts do. *)
Definition verifyOpponentCounts (teamStats : list (string * TeamStats.t)) (expectedCount : Z)
  : Opponents.t :=
  let teams := stableSort localeCompare (map fst teamStats) in
  Opponents.mk (opponentIssues teamStats expectedCount teams) expectedCount
    (Z.of_nat (length teams) * (Z.of_nat (length teams) - 1) / 2).

End CommandLine.

(** ** A host for concrete runs *)

(** Code-unit order for [localeCompare], and for [getWeekKey] the proleptic
    Gregorian calendar on dates written [MM/DD/YYYY] (the source's
    [getWeekKey] run on a host whose [Date] follows that calendar). *)
Module Civil.

Definition compareStrings (a b : string) : Z :=
  match String.compare a b with
  | Lt => -1
  | Eq => 0
  | Gt => 1
  end.

Fixpoint digitsValue (acc : Z) (s : string) : option Z :=
  match s with
  | EmptyString => Some acc
  | String c rest =>
      let code := charCodeAt c in
      if (48 <=? code) && (code <=? 57) then digitsValue (acc * 10 + (code - 48)) rest
      else None
  end.

Fixpoint splitSlash (cur : string) (s : string) : list string :=
  match s with
  | EmptyString => [cur]
  | String c rest =>
      if Ascii.eqb c "/"%char then cur :: splitSlash "" rest
      else splitSlash (cur ++ String c "") rest
  end.

(** Days since 1970-01-01 of the date with month index [m] (from 0) and
    day [d] of year [y], with the overflow rules of [new Date(y, m, d)]. *)
Definition daysFromCivil (y m d : Z) : Z :=
  let y := (if (0 <=? y) && (y <=? 99) then 1900 + y else y) + m / 12 in
  let m := m mod 12 + 1 in
  let y := if m <=? 2 then y - 1 else y in
  let era := y / 400 in
  let yoe := y - era * 400 in
  let doy := (153 * (if 2 <? m then m - 3 else m + 9) + 2) / 5 in
  let doe := yoe * 365 + yoe / 4 - yoe / 100 + doy in
  era * 146097 + doe - 719468 + (d - 1).

Definition civilFromDays (z : Z) : Z * Z * Z :=
  let z := z + 719468 in
  let era := z / 146097 in
  let doe := z - era * 146097 in
  let yoe := (doe - doe / 1460 + doe / 36524 - doe / 146096) / 365 in
  let doy := doe - (365 * yoe + yoe / 4 - yoe / 100) in
  let mp := (5 * doy + 2) / 153 in
  let d := doy - (153 * mp + 2) / 5 + 1 in
  let m := if mp <? 10 then mp + 3 else mp - 9 in
  let y := yoe + era * 400 in
  (if m <=? 2 then y + 1 else y, m, d).

Definition pad2 (z : Z) : string :=
  if (0 <=? z) && (z <? 10) then "0" ++ pretty z else pretty z.

Definition weekKey (dateStr : string) : string :=
  match map (digitsValue 0) (splitSlash "" dateStr) with
  | Some month :: Some day :: Some year :: _ =>
      let days := daysFromCivil year (month - 1) day in
      let dayOfWeek := (days + 4) mod 7 in
      let monday := days - (if dayOfWeek =? 0 then 6 else dayOfWeek - 1) in
      let '(y, m, d) := civilFromDays monday in
      pretty y ++ "-" ++ pad2 m ++ "-" ++ pad2 d
  | _ => "NaN-NaN-NaN"
  end.

Definition host : Host := {| localeCompare := compareStrings; getWeekKey := weekKey |}.

End Civil.
Definition timesHome (games : list Game.t) (team : string) : Z :=
  Z.of_nat (length (List.filter (fun game => String.eqb (Game.home game) team) games)).
Definition timesAway (games : list Game.t) (team : string) : Z :=
  Z.of_nat (length (List.filter (fun game => String.eqb (Game.away game) team) games)).

Definition crowded : Select.t :=
  Select.mk [Pair.mk ("A", "B") 1 0] false {["A" := 3]} 1 2
    {["A" := Js.Int 1; "B" := Js.Int 1]} (createSeededRng "s") None false
    (Some ∅) None (Some ∅) "05/06/2024".


Definition evening : string := "7:00PM - 9:00PM".

(** One game in the afternoon, none in the evening. *)
Definition afternoonOnly : list Game.t := [Game.mk "05/06/2024" "5:00PM - 7:00PM" "A" "B"].

Definition homeAndHome : list Game.t :=
  [Game.mk "05/06/2024" evening "A" "B"; Game.mk "05/13/2024" evening "B" "A"].

(** How many times a team appears in the games of a date. *)
Fixpoint appearances (games : list Game.t) (date team : string) : nat :=
  match games with
  | [] => 0
  | game :: rest =>
      ((if String.eqb (Game.date game) date
        then (if String.eqb (Game.away game) team then 1 else 0) +
             (if String.eqb (Game.home game) team then 1 else 0)
        else 0) + appearances rest date team)%nat
  end.

Definition uniqueKeys {V} (m : list (string * V)) : Prop := NoDup (map fst m).

(** The indices recorded for a team on a date. *)
Definition indicesOf (teamsByDate : list (string * list (string * list nat))) (date team : string)
  : list nat :=
  default [] (mapGet (default [] (mapGet teamsByDate date)) team).

Definition wellKeyed (tbd : list (string * list (string * list nat))) : Prop :=
  uniqueKeys tbd /\ forall date dateMap, (date, dateMap) ∈ tbd -> uniqueKeys dateMap.


(** What the claims observe of a completed call: the game list and the
    flip count of a schedule that was returned. *)
Definition gamesAndFlips (g : Generated) : option (list Game.t * Z) :=
  match g with
  | Built schedule => Some (Schedule.games schedule, Schedule.homeAwayFlips schedule)
  | _ => None
  end.

Definition sameScan (s1 s2 : Scan.t) : Prop :=
  Scan.bestScore s1 = Scan.bestScore s2 /\ Scan.best s1 = Scan.best s2 /\
  Scan.rng s1 = Scan.rng s2.

Definition sameAttempt (r1 r2 : Attempt.t + Failure.t) : Prop :=
  match r1, r2 with
  | inl st1, inl st2 => st1 = st2
  | inr f1, inr f2 => True
  | _, _ => False
  end.

(** The success record of an attempt (for a failed attempt, its partial
    games). *)
Definition succeeded (r : Success.t + Failure.t) : Success.t :=
  match r with
  | inl s => s
  | inr f => Success.mk (Failure.partialGames f) (Stats.mk "" 0 0 ∅) (HomeAway.mk ∅ ∅)
  end.

(** Four teams, one game per pair, six evening slots; team A is locked to
    the second, fourth and sixth slot, the second with the sides of the
    historical game A at B. *)
Definition fourTeams : list string := ["A"; "B"; "C"; "D"].

Definition slotsOn (dates : list string) : list Slot.t :=
  imap (fun i date => Slot.mk date evening (Some (Z.of_nat i))) dates.

Definition ownDays : list Slot.t :=
  slotsOn ["05/06/2024"; "05/13/2024"; "05/20/2024"; "05/27/2024"; "06/03/2024"; "06/10/2024"].

Definition sharedDay : list Slot.t :=
  slotsOn ["05/06/2024"; "05/06/2024"; "05/13/2024"; "05/20/2024"; "05/27/2024"; "06/03/2024"].

Definition locksOfA : gmap Z Lock.t :=
  {[ 1 := Lock.mk ["A"] (Some "A") (Some "B");
     3 := Lock.mk ["A"] None None;
     5 := Lock.mk ["A"] None None ]}.

(** An optimizer output with a doubleheader: A plays twice on 05/06/2024. *)
Definition twiceOnOneDay : list Game.t :=
  [Game.mk "05/06/2024" evening "A" "B"; Game.mk "05/06/2024" evening "C" "A"].

Definition sharedDayRequest : Request.t :=
  Request.mk fourTeams sharedDay evening (Some "t1") 1 2 locksOfA false true.

(** *** The scoring rule in the words of its description *)

Definition deficit (a : Select.t) (team : string) : Z :=
  Z.max 0 (Select.minTarget a - default 0 (Select.teamTargetCounts a !! team)).

(** [remaining + targetTerm + 0.02 x (neededA + neededB)
    - 2.0 x (weeklyA + weeklyB) + jitter], with [jitter = u x 0.05]. *)
Definition claimedScore (a : Select.t) (entry : Pair.t) (u : Js.number) : Js.number :=
  let '(teamA, teamB) := Pair.teams entry in
  let deficits := Js.ofZ (deficit a teamA + deficit a teamB) in
  let targetTerm :=
    if Select.isTargetSlot a then Js.mul (Js.ofZ 3) deficits
    else Js.mul (Js.neg Js.lit_0_2) deficits in
  let remainingNeeded :=
    Js.plus (Select.teamGamesRemaining a !! teamA) (Select.teamGamesRemaining a !! teamB) in
  let weekly :=
    Js.ofZ (weeklyCount (Select.teamsThisWeek a) teamA +
            weeklyCount (Select.teamsThisWeek a) teamB) in
  let jitter := Js.mul u Js.lit_0_05 in
  Js.add
    (Js.sub
       (Js.add (Js.add (Js.ofZ (Pair.remaining entry)) targetTerm)
          (Js.mul Js.lit_0_02 remainingNeeded))
       (Js.mul (Js.ofZ 2) weekly))
    jitter.

Definition isEligible (a : Select.t) (item : nat * Pair.t) : bool :=
  match screenPair a item.2 with
  | Eligible => true
  | _ => false
  end.

(** The pairs that survive the eligibility filter, with their positions. *)
Definition survivors (a : Select.t) : list (nat * Pair.t) :=
  List.filter (isEligible a) (imap (fun i entry => (i, entry)) (Select.pairs a)).

(** The value of the call number [k] (from 0) of a generator in state [rng]. *)
Definition nthDraw (rng : Rng) (k : nat) : Js.number :=
  (rngNext (Nat.iter k (fun t => (rngNext t).2) rng)).1.

Fixpoint scoresFrom (a : Select.t) (rng : Rng) (k : nat) (items : list (nat * Pair.t))
  : list (nat * Js.number) :=
  match items with
  | [] => []
  | (i, entry) :: rest =>
      (i, claimedScore a entry (nthDraw rng k)) :: scoresFrom a rng (S k) rest
  end.

(** Survivor number [k] is scored with the generator's call number [k]. *)
Definition claimedScores (a : Select.t) : list (nat * Js.number) :=
  scoresFrom a (Select.rng a) 0 (survivors a).

Definition tiedWith (score : Js.number) (scores : list (nat * Js.number)) : list nat :=
  map fst (List.filter (fun p => Js.strictEq p.2 score) scores).

(** What the scan of [selectPair] maintains, [processed] being the scores
    of the survivors seen so far and [k] their number. *)
Definition scanInvariant (rng0 : Rng) (st : Scan.t) (processed : list (nat * Js.number))
    (k : nat) : Prop :=
  Scan.rng st = Nat.iter k (fun t => (rngNext t).2) rng0 /\
  (forall j s, (j, s) ∈ processed -> Js.gt s (Scan.bestScore st) = false) /\
  Scan.best st = tiedWith (Scan.bestScore st) processed /\
  Js.strictEq (Scan.bestScore st) (Scan.bestScore st) = true.

(** The first slot of a season of three teams, two games per pair. *)
Definition openingSlot : Select.t :=
  Select.mk
    [Pair.mk ("A", "B") 2 0; Pair.mk ("A", "C") 2 0; Pair.mk ("B", "C") 2 0]
    true {["A" := 0; "B" := 0; "C" := 0]} 1 2
    {["A" := Js.Int 4; "B" := Js.Int 4; "C" := Js.Int 4]}
    (createSeededRng "t1-0") None false (Some ∅) None (Some ∅) "05/06/2024".

(** How many games of a list oppose two given teams, in either role. *)
Definition opposes (a b : string) (game : Game.t) : bool :=
  (String.eqb (Game.away game) a && String.eqb (Game.home game) b) ||
  (String.eqb (Game.away game) b && String.eqb (Game.home game) a).

Definition meetings (games : list Game.t) (a b : string) : Z :=
  Z.of_nat (length (List.filter (opposes a b) games)).

Definition ownDaysRequest : Request.t :=
  Request.mk fourTeams ownDays evening (Some "t1") 1 20 locksOfA false true.

Definition scheduleOf (g : Generated) : list Game.t :=
  match g with
  | Built schedule => Schedule.games schedule
  | _ => []
  end.

(** *** Attempt invariants *)

(** No lock states an explicit away or home side. *)
Definition sideless (locks : gmap Z Lock.t) : Prop :=
  forall k lock, locks !! k = Some lock ->
    Js.truthy (Lock.away lock) = false /\ Js.truthy (Lock.home lock) = false.

Definition labelOfGame (game : Game.t) : string * string := (Game.date game, Game.slot game).
Definition labelOfSlot (slot : Slot.t) : string * string := (Slot.date slot, Slot.slot slot).

(** The state of an attempt is free of doubleheaders: pairs hold two
    different teams, no team appears twice on a date, and whoever appears on
    a date is in that date's played set. *)
Definition clean (st : Attempt.t) : Prop :=
  (forall j p, Attempt.pairs st !! j = Some p -> (Pair.teams p).1 <> (Pair.teams p).2) /\
  forall date team,
    (appearances (Attempt.assignments st) date team <= 1)%nat /\
    ((0 < appearances (Attempt.assignments st) date team)%nat ->
     team ∈ default ∅ (Attempt.teamsByDate st !! date)).

(** The ledger agrees with the games placed: for every pair, the games it
    has played and the games it has left add up to [g]. *)
Definition ledger (g : Z) (pairings : list (string * string)) (st : Attempt.t) : Prop :=
  map Pair.teams (Attempt.pairs st) = pairings /\
  forall j p, Attempt.pairs st !! j = Some p ->
    0 <= Pair.remaining p /\
    meetings (Attempt.assignments st) (Pair.teams p).1 (Pair.teams p).2 + Pair.remaining p = g.


Definition locksWithoutSides : gmap Z Lock.t :=
  {[ 1 := Lock.mk ["A"] None None;
     3 := Lock.mk ["A"] None None;
     5 := Lock.mk ["A"] None None ]}.

(** *** Optimizer and retry loop *)

(** The same fixture: the same game, possibly with the sides swapped. *)
Definition sameFixture (g g' : Game.t) : Prop := g' = g \/ g' = flipGame g.

(** What an earlier attempt must have been for the loop to go on. *)
Definition attemptRejected (r : Success.t + Failure.t) : Prop :=
  match r with
  | inl result => (verifyNoDoubleheaders (Success.games result)).1 = false
  | inr _ => True
  end.

(** Attempt number [k] of a request. *)
Definition attemptOf `{Host} (rq : Request.t) (teams : list string) (seed : string) (k : nat)
  : Success.t + Failure.t :=
  tryGenerateSchedule teams (Request.slots rq) (Request.targetSlot rq) (attemptSeed seed k)
    (Request.gamesPerPair rq) (Request.lockRequirements rq) (Request.verbose rq).

(** What [buildLockRequirements] guarantees of each lock it builds. *)
Definition builtFrom (games : list Game.t) (slots : list Slot.t) (lockedTeams : list string)
    (k : Z) (lock : Lock.t) : Prop :=
  Lock.away lock = None /\ Lock.home lock = None /\
  NoDup (Lock.requiredTeams lock) /\ Lock.requiredTeams lock <> [] /\
  forall team, team ∈ Lock.requiredTeams lock ->
    team ∈ lockedTeams /\
    exists game, game ∈ games /\
      slotIndexByKey slots !! slotKey (Game.date game) (Game.slot game) = Some k /\
      (team = Game.away game \/ team = Game.home game).

(** A team takes the field in one of the games. *)
Definition fields (games : list Game.t) (team : string) : Prop :=
  exists game, game ∈ games /\ (team = Game.away game \/ team = Game.home game).

(** *** Counters of an attempt *)

(** How often a team takes the field in a given slot label, away and home
    counted apart (a game of a team against itself counts twice). *)
Definition slotAppearances (games : list Game.t) (slot team : string) : Z :=
  Z.of_nat (length (List.filter
                      (fun game => String.eqb (Game.slot game) slot &&
                                   String.eqb (Game.away game) team) games)) +
  Z.of_nat (length (List.filter
                      (fun game => String.eqb (Game.slot game) slot &&
                                   String.eqb (Game.home game) team) games)).

(** The games of a team in the week of a given key. *)
Definition weekGames `{Host} (games : list Game.t) (week team : string) : Z :=
  Z.of_nat (length (List.filter
                      (fun game => String.eqb (getWeekKey (Game.date game)) week &&
                                   (String.eqb (Game.away game) team ||
                                    String.eqb (Game.home game) team)) games)).

(** Every game opposes the two teams of a pairing. *)
Definition roster (pairings : list (string * string)) (st : Attempt.t) : Prop :=
  map Pair.teams (Attempt.pairs st) = pairings /\
  forall game, game ∈ Attempt.assignments st ->
    (Game.away game, Game.home game) ∈ pairings \/ (Game.home game, Game.away game) ∈ pairings.

(** The counters of an attempt agree with the games placed. *)
Definition tallied (teams : list string) (targetSlot : string) (st : Attempt.t) : Prop :=
  (forall team, default 0 (Attempt.teamTargetCounts st !! team) =
                slotAppearances (Attempt.assignments st) targetSlot team) /\
  (forall team, team ∈ teams ->
     HomeAway.home (Attempt.homeAwayCounts st) !! team =
       Some (Js.Int (timesHome (Attempt.assignments st) team)) /\
     HomeAway.away (Attempt.homeAwayCounts st) !! team =
       Some (Js.Int (timesAway (Attempt.assignments st) team))).

(** The weekly book of an attempt agrees with the games placed, and no
    team has more than two games in a week; no team is above the target
    ceiling. *)
Definition capped `{Host} (maxTarget : Z) (st : Attempt.t) : Prop :=
  (forall week team,
     default 0 (default ∅ (Attempt.teamsByWeek st !! week) !! team) =
       weekGames (Attempt.assignments st) week team /\
     weekGames (Attempt.assignments st) week team <= 2) /\
  (forall team, default 0 (Attempt.teamTargetCounts st !! team) <= Z.max 0 maxTarget).

(** *** Sample seasons *)

(** The schedule a call returned (an empty one when it threw). *)
Definition built (g : Generated) : Schedule.t :=
  match g with
  | Built schedule => schedule
  | _ => Schedule.mk [] (Stats.mk "" 0 0 ∅) (HomeAway.mk ∅ ∅) "" 0 0
  end.

(** The failure record of an attempt (empty when it succeeded). *)
Definition failed (r : Success.t + Failure.t) : Failure.t :=
  match r with
  | inr failure => failure
  | inl _ => Failure.mk (StillUnassigned 0 []) None []
  end.

(** Four teams, one game per pair, six evenings a week apart, no lock. *)
Definition freeRequest : Request.t :=
  Request.mk fourTeams ownDays evening (Some "t1") 1 20 ∅ false true.

(** The same season with team A locked to three slots, no side stated. *)
Definition sidelessRequest : Request.t :=
  Request.mk fourTeams ownDays evening (Some "t1") 1 20 locksWithoutSides false true.

(** The same season with the slots of team A in last year's schedule
    locked, last year's schedule being the one of [freeRequest]. *)
Definition lastYear : list Game.t :=
  Schedule.games (built (generateBalancedSchedule (H := Civil.host) 0 freeRequest)).

Definition relockedRequest : Request.t :=
  Request.mk fourTeams ownDays evening (Some "t1") 1 20
    (buildLockRequirements lastYear ownDays ["A"]) false true.

(** Explicit sides in a lock, two slots on one day, twenty attempts. *)
Definition patientRequest : Request.t :=
  Request.mk fourTeams sharedDay evening (Some "t1") 1 20 locksOfA false true.

(** Three slots for six games, two attempts. *)
Definition shortRequest : Request.t :=
  Request.mk fourTeams (take 3 ownDays) evening (Some "t1") 1 2 ∅ false false.

Definition noAttemptsRequest : Request.t :=
  Request.mk fourTeams ownDays evening (Some "t1") 1 0 ∅ false true.

(** Three slots on one day: four teams fill two of them. *)
Definition oneDay : list Slot.t := slotsOn ["05/06/2024"; "05/06/2024"; "05/06/2024"].

(** Team A away four times, its first game pinned by a lock. *)
Definition alwaysAway : list Game.t :=
  [Game.mk "05/06/2024" evening "A" "B"; Game.mk "05/13/2024" evening "A" "C";
   Game.mk "05/20/2024" evening "A" "D"; Game.mk "05/27/2024" evening "A" "E"].

Definition firstPinned : gmap Z Lock.t := {[0 := Lock.mk ["A"; "B"] (Some "A") (Some "B")]}.

(** A and B meet twice, A and C once, B and C never. *)
Definition uneven : list Game.t :=
  [Game.mk "05/06/2024" evening "A" "B"; Game.mk "05/13/2024" evening "B" "A";
   Game.mk "05/20/2024" evening "A" "C"].

(** The value of a call that completed normally. *)
Definition completed {A : Type} (fallback : A) (c : Completion A) : A :=
  match c with
  | Normal a => a
  | TypeError => fallback
  end.

(** Team A away three times, twice on the first day. *)
Definition awayTwiceADay : list Game.t :=
  [Game.mk "05/06/2024" evening "A" "B"; Game.mk "05/06/2024" evening "A" "C";
   Game.mk "05/13/2024" evening "A" "D"].

(** The game at a position (an empty one beyond the list). *)
Definition gameAt (games : list Game.t) (i : nat) : Game.t :=
  default (Game.mk "" "" "" "") (games !! i).

(** The failures a call threw with. *)
Definition failuresOf (g : Generated) : list FailedAttempt.t :=
  match g with
  | UnableToBuild _ failures => failures
  | _ => []
  end.

(** * Properties *)

(** ** Maps, sorting, counting *)

Lemma mapGet_mapSet_eq {V} (m : list (string * V)) k v : mapGet (mapSet m k v) k = Some v.
Proof.
  induction m as [|[k' v'] m IH]; simpl.
  - by rewrite decide_True.
  - destruct (decide (k' = k)) as [->|Hne]; simpl.
    + by rewrite decide_True.
    + by rewrite decide_False.
Qed.

Lemma mapGet_mapSet_ne {V} (m : list (string * V)) k k' v :
  k ≠ k' -> mapGet (mapSet m k v) k' = mapGet m k'.
Proof.
  intros Hne. induction m as [|[k0 v0] m IH]; simpl.
  - by rewrite decide_False.
  - destruct (decide (k0 = k)) as [->|Hne0]; simpl.
    + by rewrite !decide_False.
    + destruct (decide (k0 = k')); done.
Qed.

Lemma elem_of_mapSet {V} (m : list (string * V)) k v x :
  x ∈ mapSet m k v -> x ∈ m ∨ x = (k, v).
Proof.
  induction m as [|[k0 v0] m IH]; simpl.
  - intros ->%list_elem_of_singleton. by right.
  - destruct (decide (k0 = k)) as [->|Hne0].
    + intros [->|Hin]%elem_of_cons; [by right|left; by right].
    + intros [->|Hin]%elem_of_cons; [left; by left|].
      destruct (IH Hin) as [?|?]; [left; by right|by right].
Qed.

Lemma mapSet_nonempty {V} (m : list (string * V)) k v : mapSet m k v ≠ [].
Proof. destruct m as [|[k0 v0] m]; simpl; [done|]. by destruct (decide (k0 = k)). Qed.

Lemma sortInsert_Permutation {A} (cmp : A -> A -> Z) x l : sortInsert cmp x l ≡ₚ x :: l.
Proof.
  induction l as [|y l IH]; simpl; [done|].
  destruct (0 <? cmp y x); [done|]. rewrite IH. apply Permutation_swap.
Qed.

Lemma stableSort_Permutation {A} (cmp : A -> A -> Z) l : stableSort cmp l ≡ₚ l.
Proof.
  unfold stableSort.
  assert (forall acc, fold_left (fun acc x => sortInsert cmp x acc) l acc ≡ₚ (acc ++ l)%list) as Hgen.
  { induction l as [|x l IH]; intros acc; simpl.
    - by rewrite app_nil_r.
    - rewrite IH, sortInsert_Permutation. simpl. apply Permutation_middle. }
  by rewrite Hgen.
Qed.

Lemma minOf_le_maxOf counts : counts ≠ [] -> minOf counts <= maxOf counts.
Proof.
  unfold minOf, maxOf. destruct counts as [|c counts]; [done|intros _]. simpl.
  assert (forall l, fold_right Z.min c l <= c <= fold_right Z.max c l) as Hb.
  { induction l; simpl; lia. }
  specialize (Hb counts). lia.
Qed.

Section FairnessFacts.
Context `{Host}.

Lemma summarize_nonempty games slot game :
  game ∈ games -> Game.slot game = slot -> summarizeSlotDistribution games slot ≠ [].
Proof.
  intros Hin Hslot Hnil. unfold summarizeSlotDistribution in Hnil.
  apply (f_equal length) in Hnil. 
  rewrite (Permutation_length (stableSort_Permutation _ _)) in Hnil.
  apply nil_length_inv in Hnil. revert Hnil.
  set (step := fun (counts : list (string * Z)) (game : Game.t) => _).
  assert (forall gs acc, acc ≠ [] -> fold_left step gs acc ≠ []) as Hkeep.
  { induction gs as [|g gs IH]; intros acc Hacc; simpl; [done|]. apply IH.
    unfold step. destruct (negb _); [done|]. apply mapSet_nonempty. }
  assert (forall gs acc, game ∈ gs -> fold_left step gs acc ≠ []) as Hgen.
  { induction gs as [|g gs IH]; intros acc Hg; simpl.
    - by apply elem_of_nil in Hg.
    - apply elem_of_cons in Hg as [<-|Hg]; [|by apply IH].
      apply Hkeep. unfold step. rewrite Hslot, String.eqb_refl. simpl. apply mapSet_nonempty. }
  by apply Hgen.
Qed.

Lemma rateCounts_spec counts :
  counts ≠ [] ->
  let f := rateCounts counts in
  Fairness.range f = maxOf counts - minOf counts /\
  0 <= Fairness.range f /\
  (Fairness.rating f = "Perfect" <-> Fairness.range f = 0) /\
  (Fairness.rating f = "Excellent" <-> Fairness.range f = 1) /\
  (Fairness.rating f = "Good" <-> Fairness.range f = 2) /\
  (Fairness.rating f = "Fair" <-> Fairness.range f = 3) /\
  (Fairness.rating f = "Poor" <-> 4 <= Fairness.range f) /\
  (Fairness.fair f = true <-> Fairness.range f < 3).
Proof.
  intros Hne. pose proof (minOf_le_maxOf counts Hne) as Hle.
  unfold rateCounts. destruct counts as [|c counts]; [done|].
  set (range := maxOf (c :: counts) - minOf (c :: counts)) in *.
  destruct (range =? 0) eqn:E0; [apply Z.eqb_eq in E0|apply Z.eqb_neq in E0];
  [|destruct (range =? 1) eqn:E1; [apply Z.eqb_eq in E1|apply Z.eqb_neq in E1];
  [|destruct (range =? 2) eqn:E2; [apply Z.eqb_eq in E2|apply Z.eqb_neq in E2];
  [|destruct (range =? 3) eqn:E3; [apply Z.eqb_eq in E3|apply Z.eqb_neq in E3]]]];
  simpl; repeat split; intros; try done; try lia.
Qed.
End FairnessFacts.

Lemma mapIncr_get m k k' :
  default 0 (mapGet (mapIncr m k) k') = default 0 (mapGet m k') + (if String.eqb k k' then 1 else 0).
Proof.
  unfold mapIncr. destruct (String.eqb_spec k k') as [->|Hne].
  - by rewrite mapGet_mapSet_eq.
  - rewrite mapGet_mapSet_ne by done. lia.
Qed.

Lemma fold_mapIncr_get keys : forall m k,
  default 0 (mapGet (fold_left mapIncr keys m) k) =
  default 0 (mapGet m k) + Z.of_nat (length (List.filter (fun key => String.eqb key k) keys)).
Proof.
  induction keys as [|key keys IH]; intros m k; simpl; [lia|].
  rewrite IH, mapIncr_get. destruct (String.eqb key k); simpl; lia.
Qed.

Lemma tally_split games : forall homeCount awayCount,
  fold_left
    (fun '(homeCount, awayCount) game =>
       (mapIncr homeCount (Game.home game), mapIncr awayCount (Game.away game)))
    games (homeCount, awayCount) =
  (fold_left mapIncr (map Game.home games) homeCount,
   fold_left mapIncr (map Game.away games) awayCount).
Proof. induction games as [|g games IH]; intros h a; simpl; [done|]. by rewrite IH. Qed.

Lemma filter_map_length {A B} (f : A -> B) (p : B -> bool) l :
  length (List.filter p (map f l)) = length (List.filter (fun x => p (f x)) l).
Proof. induction l as [|x l IH]; simpl; [done|]. destruct (p (f x)); simpl; by rewrite IH. Qed.

Lemma balance_entry games team b :
  (team, b) ∈ computeHomeAwayBalance games ->
  b = Balance.mk (timesHome games team) (timesAway games team)
        (Z.abs (timesHome games team - timesAway games team)).
Proof.
  unfold computeHomeAwayBalance. rewrite tally_split.
  set (homeCount := fold_left mapIncr (map Game.home games) []).
  set (awayCount := fold_left mapIncr (map Game.away games) []).
  assert (forall t, default 0 (mapGet homeCount t) = timesHome games t) as Hh.
  { intros t. unfold homeCount, timesHome. rewrite fold_mapIncr_get, filter_map_length. simpl. lia. }
  assert (forall t, default 0 (mapGet awayCount t) = timesAway games t) as Ha.
  { intros t. unfold awayCount, timesAway. rewrite fold_mapIncr_get, filter_map_length. simpl. lia. }
  generalize (fold_left setAdd (map fst homeCount ++ map fst awayCount)%list []). intros teams.
  set (P := fun x : string * Balance.t => x.2 = Balance.mk (timesHome games x.1) (timesAway games x.1)
        (Z.abs (timesHome games x.1 - timesAway games x.1))).
  assert (forall acc, (forall x, x ∈ acc -> P x) ->
     forall x, x ∈ fold_left (fun balance team =>
       let home := default 0 (mapGet homeCount team) in
       let away := default 0 (mapGet awayCount team) in
       mapSet balance team (Balance.mk home away (Z.abs (home - away)))) teams acc -> P x) as Hgen.
  { induction teams as [|t teams IH]; intros acc Hacc x; simpl; [apply Hacc|].
    apply IH. intros y [Hy| ->]%elem_of_mapSet; [by apply Hacc|].
    unfold P. simpl. by rewrite Hh, Ha. }
  intros Hin. apply (Hgen [] ) in Hin; [exact Hin|]. intros x Hx. by apply elem_of_nil in Hx.
Qed.

Lemma totalImbalance_zero balance :
  (forall entry, entry ∈ balance -> Balance.diff entry.2 = 0) -> totalImbalance balance = 0.
Proof.
  unfold totalImbalance. generalize 0 at 2 3. 
  induction balance as [|e balance IH]; intros z Hz; simpl; [done|].
  rewrite IH.
  - rewrite (Hz e); [lia|by left].
  - intros x Hx. apply Hz. by right.
Qed.

Lemma placeByBalance_sides teamA teamB counts rng :
  (placeByBalance teamA teamB counts rng).1 = (teamA, teamB) \/
  (placeByBalance teamA teamB counts rng).1 = (teamB, teamA).
Proof.
  unfold placeByBalance.
  repeat match goal with
         | |- context [if ?c then _ else _] => destruct c
         | |- context [let '(_, _) := ?p in _] => destruct p
         end; simpl; auto.
Qed.


Lemma firstFlippable_skips locks balance games team b rest :
  flipCandidates locks balance games team (Balance.home b) (Balance.away b) = [] ->
  firstFlippable locks balance games ((team, b) :: rest) =
  firstFlippable locks balance games rest.
Proof. intros Hnone. simpl. by rewrite Hnone. Qed.


(** ** Fairness rating (C9) *)

(** C9, as stated, fails: a game list that is not empty but has no game in
    the given slot label is rated "N/A" with range 0, not "Perfect". *)
Lemma rating_of_unlabelled_games :
  ~ (forall (host : Host) (games : list Game.t) (slot : string),
       games <> [] ->
       (Fairness.rating (computeSlotFairness games slot) = "Perfect" <->
        Fairness.range (computeSlotFairness games slot) = 0)).
Proof.
  intros Hall.
  destruct (Hall Civil.host afternoonOnly evening ltac:(discriminate)) as [_ Hback].
  specialize (Hback eq_refl). discriminate Hback.
Qed.

(** C9 (amended): for every game list with at least one game in the given
    slot label, [computeSlotFairness] reports range = max - min of the
    per-team counts in that label, rates it "Perfect" exactly when the range
    is 0, "Excellent" when 1, "Good" when 2, "Fair" when 3, "Poor" when at
    least 4, and sets fair exactly when the range is below 3; the counts
    5,5,5,5 are rated "Perfect", 5,5,5,6 "Excellent", and 4,5,6,7 "Fair" and
    not fair. *)
Theorem computeSlotFairness_rating `{Host} (games : list Game.t) (slot : string) (game : Game.t) :
  game ∈ games -> Game.slot game = slot ->
  let f := computeSlotFairness games slot in
  let counts := map snd (summarizeSlotDistribution games slot) in
  (Fairness.range f = maxOf counts - minOf counts /\
   0 <= Fairness.range f /\
   (Fairness.rating f = "Perfect" <-> Fairness.range f = 0) /\
   (Fairness.rating f = "Excellent" <-> Fairness.range f = 1) /\
   (Fairness.rating f = "Good" <-> Fairness.range f = 2) /\
   (Fairness.rating f = "Fair" <-> Fairness.range f = 3) /\
   (Fairness.rating f = "Poor" <-> 4 <= Fairness.range f) /\
   (Fairness.fair f = true <-> Fairness.range f < 3)) /\
  Fairness.rating (rateCounts [5; 5; 5; 5]) = "Perfect" /\
  Fairness.rating (rateCounts [5; 5; 5; 6]) = "Excellent" /\
  (Fairness.rating (rateCounts [4; 5; 6; 7]) = "Fair" /\
   Fairness.fair (rateCounts [4; 5; 6; 7]) = false).
Proof.
  intros Hin Hslot f counts. split; [|by repeat split].
  apply rateCounts_spec. unfold counts. intros Hnil.
  apply (summarize_nonempty games slot game Hin Hslot).
  by destruct (summarizeSlotDistribution games slot).
Qed.

Lemma computeSlotFairness_rating_witness :
  Game.mk "05/06/2024" evening "A" "B" ∈ homeAndHome /\
  Fairness.rating (computeSlotFairness (H := Civil.host) homeAndHome evening) = "Perfect".
Proof.
  assert (Game.mk "05/06/2024" evening "A" "B" ∈ homeAndHome) as Hin by (by left).
  split; [exact Hin|].
  destruct (computeSlotFairness_rating (H := Civil.host) homeAndHome evening _ Hin eq_refl)
    as [(_ & _ & Hperfect & _) _].
  apply Hperfect. reflexivity.
Defined.

(** ** Optimizer (C8, C6) *)

(** C8: if in the input game list every team is at home as often as away,
    [optimizeHomeAwayBalance] returns the input game list, every game
    unchanged and in the same order, and flips = 0. *)
Theorem optimize_balanced_is_identity (games : list Game.t) (lockRequirements : gmap Z Lock.t)
    (seed : string) (maxFlips : Z) :
  (forall team, timesHome games team = timesAway games team) ->
  optimizeHomeAwayBalance games lockRequirements seed maxFlips = Normal (games, 0).
Proof.
  intros Hbal. unfold optimizeHomeAwayBalance.
  destruct (Z.to_nat maxFlips) as [|budget]; simpl; [done|].
  unfold optimizeStep. rewrite totalImbalance_zero; [done|].
  intros [team b] Hin. apply balance_entry in Hin. simpl. subst b. simpl.
  rewrite Hbal. lia.
Qed.

Lemma optimize_balanced_is_identity_witness :
  (forall team, timesHome homeAndHome team = timesAway homeAndHome team) /\
  optimizeHomeAwayBalance homeAndHome ∅ "s" 100 = Normal (homeAndHome, 0).
Proof.
  assert (forall team, timesHome homeAndHome team = timesAway homeAndHome team) as Hbal.
  { intros team. unfold timesHome, timesAway, homeAndHome.
    cbn [List.filter Game.home Game.away].
    destruct (String.eqb "A" team), (String.eqb "B" team); reflexivity. }
  split; [exact Hbal|]. exact (optimize_balanced_is_identity homeAndHome ∅ "s" 100 Hbal).
Defined.




(** ** Slot assigner (C5, C10) *)

(** C5, as stated, fails: outside the target slot the would-exceed-max
    filter still rejects a non-forced pair one of whose teams already
    stands above the maximum. *)
Lemma would_exceed_outside_target_slot :
  ~ (forall (a : Select.t) (entry : Pair.t),
       isForced (Select.requiredTeams a) = false ->
       Select.isTargetSlot a = false ->
       screenPair a entry <> WouldExceed).
Proof.
  intros Hall. apply (Hall crowded (Pair.mk ("A", "B") 1 0)); reflexivity.
Qed.

(** C5 (amended): in a slot that is not the target slot, the
    would-exceed-max filter rejects a pair only if the pair is not forced
    and one of its teams has a target count already above the maximum; a
    pair whose two teams stand at or below the maximum is never rejected by
    it. *)
Theorem would_exceed_only_above_max (a : Select.t) (entry : Pair.t) :
  Select.isTargetSlot a = false ->
  (screenPair a entry = WouldExceed ->
     isForced (Select.requiredTeams a) = false /\
     (Select.maxTarget a < default 0 (Select.teamTargetCounts a !! (Pair.teams entry).1) \/
      Select.maxTarget a < default 0 (Select.teamTargetCounts a !! (Pair.teams entry).2))) /\
  (default 0 (Select.teamTargetCounts a !! (Pair.teams entry).1) <= Select.maxTarget a ->
   default 0 (Select.teamTargetCounts a !! (Pair.teams entry).2) <= Select.maxTarget a ->
   screenPair a entry <> WouldExceed).
Proof.
  intros Htarget.
  assert (screenPair a entry = WouldExceed ->
          isForced (Select.requiredTeams a) = false /\
          (Select.maxTarget a < default 0 (Select.teamTargetCounts a !! (Pair.teams entry).1) \/
           Select.maxTarget a < default 0 (Select.teamTargetCounts a !! (Pair.teams entry).2)))
    as Hwhy.
  { unfold screenPair, projectedExcess. rewrite Htarget.
    destruct (Pair.teams entry) as [teamA teamB]. simpl.
    repeat match goal with
           | |- context [if ?c then _ else _] =>
               lazymatch c with
               | (negb _ && ((_ <? _) || (_ <? _)))%bool => fail
               | _ => destruct c; [discriminate|]
               end
           end.
    destruct (negb _ && _)%bool eqn:Hex; [intros _|discriminate].
    apply andb_true_iff in Hex as [Hf Hex]. apply negb_true_iff in Hf.
    apply orb_true_iff in Hex. rewrite !Z.ltb_lt in Hex. split; [done|lia]. }
  split; [exact Hwhy|].
  intros HA HB Hrej. destruct (Hwhy Hrej) as [_ [?|?]]; lia.
Qed.

Lemma would_exceed_only_above_max_witness :
  screenPair
    (Select.mk [Pair.mk ("A", "B") 1 0] false {["A" := 2]} 1 2
       {["A" := Js.Int 1; "B" := Js.Int 1]} (createSeededRng "s") None false
       (Some ∅) None (Some ∅) "05/06/2024")
    (Pair.mk ("A", "B") 1 0) <> WouldExceed.
Proof.
  apply would_exceed_only_above_max; [reflexivity|vm_compute; discriminate|vm_compute; discriminate].
Defined.

(** C10: for a lock that names exactly one required team and gives no
    explicit home or away side, and a pair that contains that team,
    [assignGame] returns a game in which the required team is the away
    team. *)
Theorem assignGame_single_required_plays_away
    (slot : Slot.t) (entry : Pair.t) (rng : Rng) (lock : Lock.t) (counts : HomeAway.t)
    (req : string) :
  toTeamArray (Lock.requiredTeams lock) = [req] ->
  Js.truthy (Lock.away lock) = false ->
  Js.truthy (Lock.home lock) = false ->
  includes entry req = true ->
  Game.away (assignGame slot entry rng (Some lock) counts).1 = req.
Proof.
  intros Hreq Haway Hhome Hin. unfold assignGame, includes in *.
  destruct (Pair.teams entry) as [teamA teamB]. simpl in Hin.
  rewrite Hreq, Haway, Hhome. simpl.
  pose proof (placeByBalance_sides teamA teamB counts rng) as Hsides.
  destruct (placeByBalance teamA teamB counts rng) as [[away home] rng']. simpl in Hsides.
  apply orb_true_iff in Hin.
  destruct (String.eqb_spec away req) as [->|Hne]; simpl; [done|].
  destruct (String.eqb_spec home req) as [->|Hne']; simpl; [done|].
  exfalso. destruct Hsides as [[= -> ->]|[= -> ->]], Hin as [Heq|Heq];
    apply String.eqb_eq in Heq; congruence.
Qed.

Lemma assignGame_single_required_plays_away_witness :
  Game.away
    (assignGame (Slot.mk "05/06/2024" evening (Some 0)) (Pair.mk ("A", "B") 1 0)
       (createSeededRng "s") (Some (Lock.mk ["B"] None None))
       (HomeAway.mk ∅ ∅)).1 = "B".
Proof.
  apply assignGame_single_required_plays_away; reflexivity.
Defined.

(** ** Doubleheader check *)

Lemma mapSet_keys {V} (m : list (string * V)) k v x :
  x ∈ map fst (mapSet m k v) <-> x ∈ map fst m \/ x = k.
Proof.
  induction m as [|[k0 v0] m IH]; simpl.
  - rewrite list_elem_of_singleton. split; [by right|]. intros [H|H]; [by apply elem_of_nil in H|done].
  - destruct (decide (k0 = k)) as [->|Hne]; simpl; rewrite !elem_of_cons.
    + tauto.
    + rewrite IH. tauto.
Qed.

Lemma mapSet_uniqueKeys {V} (m : list (string * V)) k v :
  uniqueKeys m -> uniqueKeys (mapSet m k v).
Proof.
  unfold uniqueKeys. induction m as [|[k0 v0] m IH]; simpl; intros Hnd.
  - apply NoDup_singleton.
  - apply NoDup_cons in Hnd as [Hnin Hnd].
    destruct (decide (k0 = k)) as [->|Hne]; simpl; apply NoDup_cons.
    + done.
    + split; [|by apply IH]. rewrite mapSet_keys. intros [?|?]; done.
Qed.

Lemma mapGet_elem_of {V} (m : list (string * V)) k v : mapGet m k = Some v -> (k, v) ∈ m.
Proof.
  induction m as [|[k0 v0] m IH]; simpl; [done|].
  destruct (decide (k0 = k)) as [->|Hne]; [intros [= ->]; by left|]. intros. right. by apply IH.
Qed.

Lemma elem_of_mapGet {V} (m : list (string * V)) k v :
  uniqueKeys m -> (k, v) ∈ m -> mapGet m k = Some v.
Proof.
  unfold uniqueKeys. induction m as [|[k0 v0] m IH]; simpl; intros Hnd Hin.
  - by apply elem_of_nil in Hin.
  - apply NoDup_cons in Hnd as [Hnin Hnd].
    apply elem_of_cons in Hin as [[= -> ->]|Hin]; [by rewrite decide_True|].
    destruct (decide (k0 = k)) as [->|Hne]; [|by apply IH].
    exfalso. apply Hnin. apply list_elem_of_fmap. by exists (k, v).
Qed.

Lemma ensureTeam_get dateMap team t :
  default [] (mapGet (ensureTeam dateMap team) t) = default [] (mapGet dateMap t).
Proof.
  unfold ensureTeam. destruct (mapGet dateMap team) eqn:E; [done|].
  destruct (decide (team = t)) as [->|Hne].
  - by rewrite mapGet_mapSet_eq, E.
  - by rewrite mapGet_mapSet_ne.
Qed.

Lemma pushIndex_length dateMap team idx t :
  length (default [] (mapGet (pushIndex dateMap team idx) t)) =
  (length (default [] (mapGet dateMap t)) + (if String.eqb team t then 1 else 0))%nat.
Proof.
  unfold pushIndex. destruct (String.eqb_spec team t) as [->|Hne].
  - rewrite mapGet_mapSet_eq. simpl. by rewrite length_app.
  - rewrite mapGet_mapSet_ne by done. lia.
Qed.

Lemma ensureTeam_uniqueKeys dateMap team : uniqueKeys dateMap -> uniqueKeys (ensureTeam dateMap team).
Proof. unfold ensureTeam. destruct (mapGet dateMap team); [done|]. apply mapSet_uniqueKeys. Qed.

Lemma recordGame_length tbd idx game date team :
  length (indicesOf (recordGame tbd (idx, game)) date team) =
  (length (indicesOf tbd date team) + appearances [game] date team)%nat.
Proof.
  unfold indicesOf, recordGame. simpl.
  destruct (String.eqb_spec (Game.date game) date) as [<-|Hne].
  - rewrite mapGet_mapSet_eq. simpl.
    rewrite !pushIndex_length, !ensureTeam_get. lia.
  - rewrite mapGet_mapSet_ne by done. lia.
Qed.

Lemma recordGame_wellKeyed tbd item : wellKeyed tbd -> wellKeyed (recordGame tbd item).
Proof.
  intros [Hu Hin]. destruct item as [idx game]. unfold recordGame. split.
  - by apply mapSet_uniqueKeys.
  - intros date dateMap [Hold| [= -> ->]]%elem_of_mapSet; [by eapply Hin|].
    unfold pushIndex. do 2 apply mapSet_uniqueKeys. do 2 apply ensureTeam_uniqueKeys.
    destruct (mapGet tbd (Game.date game)) as [dm|] eqn:E; simpl.
    + apply (Hin (Game.date game)). by apply mapGet_elem_of.
    + apply NoDup_nil_2.
Qed.

Lemma recordGames_spec items : forall tbd,
  wellKeyed tbd ->
  wellKeyed (fold_left recordGame items tbd) /\
  forall date team,
    length (indicesOf (fold_left recordGame items tbd) date team) =
    (length (indicesOf tbd date team) + appearances (map snd items) date team)%nat.
Proof.
  induction items as [|[idx game] items IH]; intros tbd Hwk; simpl.
  - split; [done|]. intros. lia.
  - destruct (IH (recordGame tbd (idx, game)) (recordGame_wellKeyed _ _ Hwk)) as [Hwk' Hlen].
    split; [done|]. intros date team. rewrite Hlen, recordGame_length. simpl. lia.
Qed.

Lemma findViolations_nil tbd :
  findViolations tbd = [] <->
  forall date dateMap team indices,
    (date, dateMap) ∈ tbd -> (team, indices) ∈ dateMap -> (length indices <= 1)%nat.
Proof.
  unfold findViolations. split.
  - intros Hnil date dateMap team indices Hd Ht.
    destruct (decide (length indices <= 1)%nat) as [|Hbig]; [done|exfalso].
    assert (Violation.mk date team (length indices) indices ∈ ([] : list Violation.t)) as Hin;
      [|by apply elem_of_nil in Hin].
    rewrite <- Hnil. apply list_elem_of_In, in_flat_map. exists (date, dateMap).
    split; [by apply list_elem_of_In|]. apply in_flat_map. exists (team, indices).
    split; [by apply list_elem_of_In|].
    destruct (Nat.ltb_spec 1 (length indices)); [by left|lia].
  - intros Hall. 
    destruct (flat_map _ tbd) as [|v vs] eqn:E; [done|exfalso].
    assert (In v (v :: vs)) as Hv by (by left). rewrite <- E in Hv.
    apply in_flat_map in Hv as [[date dateMap] [Hd Hv]].
    apply in_flat_map in Hv as [[team indices] [Ht Hv]].
    apply list_elem_of_In in Hd, Ht. specialize (Hall _ _ _ _ Hd Ht).
    destruct (Nat.ltb_spec 1 (length indices)); [lia|]. by destruct Hv.
Qed.

Lemma imap_snd games : map snd (imap (fun idx (game : Game.t) => (idx, game)) games) = games.
Proof.
  change (map snd) with (fmap (M:=list) (@snd nat Game.t)).
  rewrite fmap_imap. unfold compose. simpl. induction games as [|g games IH] using rev_ind; [done|].
  rewrite imap_app. simpl. by rewrite IH.
Qed.

Lemma verifyNoDoubleheaders_valid games :
  (verifyNoDoubleheaders games).1 = true <->
  forall date team, (appearances games date team <= 1)%nat.
Proof.
  unfold verifyNoDoubleheaders. simpl.
  set (tbd := fold_left recordGame _ []).
  assert (wellKeyed ([] : list (string * list (string * list nat)))) as Hwk0.
  { split; [apply NoDup_nil_2|]. intros ? ? Hin. by apply elem_of_nil in Hin. }
  destruct (recordGames_spec (imap (fun idx game => (idx, game)) games) [] Hwk0) as [[Hu Hin] Hlen].
  fold tbd in Hu, Hin, Hlen. rewrite imap_snd in Hlen.
  assert (findViolations tbd = [] <-> forall date team, (appearances games date team <= 1)%nat) as Hiff.
  { rewrite findViolations_nil. split.
    - intros Hall date team. specialize (Hlen date team). simpl in Hlen. rewrite <- Hlen.
      unfold indicesOf. destruct (mapGet tbd date) as [dateMap|] eqn:Ed; simpl; [|lia].
      destruct (mapGet dateMap team) as [indices|] eqn:Et; simpl; [|lia].
      eapply Hall; by apply mapGet_elem_of.
    - intros Hall date dateMap team indices Hd Ht.
      specialize (Hlen date team). specialize (Hall date team).
      unfold indicesOf in Hlen. rewrite (elem_of_mapGet tbd date dateMap Hu Hd) in Hlen. simpl in Hlen.
      rewrite (elem_of_mapGet dateMap team indices (Hin _ _ Hd) Ht) in Hlen. simpl in Hlen. lia. }
  destruct (findViolations tbd) eqn:E.
  - split; [intros _; by apply Hiff|done].
  - split; [done|]. intros Hall. by apply Hiff in Hall.
Qed.

(** ** Optimizer flips and the doubleheader check; retry loop (C7) *)

Lemma flipCandidates_sound locks balance games team home away c :
  c ∈ flipCandidates locks balance games team home away ->
  games !! Candidate.idx c = Some (Candidate.game c).
Proof.
  unfold flipCandidates. intros Hin. apply list_elem_of_In, in_flat_map in Hin as [[i g] [Hig Hc]].
  apply list_elem_of_In, elem_of_lookup_imap in Hig as (i' & g' & [= -> ->] & Hlook).
  repeat match type of Hc with
         | context [match ?x with _ => _ end] => destruct x
         end; simpl in Hc; try done; destruct Hc as [<-|[]]; done.
Qed.

Lemma firstFlippable_sound locks balance games imbalanced candidates c :
  firstFlippable locks balance games imbalanced = Some candidates ->
  c ∈ candidates -> games !! Candidate.idx c = Some (Candidate.game c).
Proof.
  induction imbalanced as [|[team b] rest IH]; simpl; [done|].
  destruct (flipCandidates locks balance games team (Balance.home b) (Balance.away b)) eqn:E.
  - apply IH.
  - intros [= <-] Hin. eapply flipCandidates_sound. by rewrite E.
Qed.

Lemma index_elem_of {A} (l : list A) x y : Js.index l x = Some y -> y ∈ l.
Proof.
  unfold Js.index. destruct x as [z|]; [|done]. destruct (0 <=? z); [|done].
  apply list_elem_of_lookup_2.
Qed.

Lemma appearances_flip games : forall i g date team,
  games !! i = Some g ->
  appearances (<[i := flipGame g]> games) date team = appearances games date team.
Proof.
  induction games as [|g0 games IH]; intros [|i] g date team Hlook; simpl in *; try done.
  - injection Hlook as ->. destruct (String.eqb (Game.date g) date); lia.
  - by rewrite (IH i g).
Qed.

Lemma optimizeStep_appearances locks games rng games' rng' date team :
  optimizeStep locks games rng = Flip games' rng' ->
  appearances games' date team = appearances games date team.
Proof.
  unfold optimizeStep. destruct (_ =? 0); [done|].
  destruct (imbalancedTeams _) as [|e rest] eqn:Eimb; [done|].
  destruct (firstFlippable _ _ _ _) as [candidates|] eqn:Efirst; [|done].
  destruct (rngNext rng) as [u rng1].
  destruct (Js.index candidates _) as [choice|] eqn:Echoice; [|done].
  intros [= <- <-]. apply appearances_flip.
  eapply firstFlippable_sound; [exact Efirst|]. by eapply index_elem_of.
Qed.

Lemma optimizeLoop_appearances locks budget : forall games rng flips games' flips' date team,
  optimizeLoop locks budget games rng flips = Normal (games', flips') ->
  appearances games' date team = appearances games date team.
Proof.
  induction budget as [|budget IH]; intros games rng flips games' flips' date team; simpl.
  - by intros [= <- <-].
  - destruct (optimizeStep locks games rng) as [|games1 rng1|] eqn:Estep; [by intros [= <- <-]| |done].
    intros Hloop. rewrite (IH _ _ _ _ _ _ _ Hloop). by eapply optimizeStep_appearances.
Qed.

(** Flips never change who plays on which date: the optimizer keeps a
    doubleheader-free game list doubleheader-free. *)
Lemma optimize_keeps_validity games lockRequirements seed maxFlips games' flips :
  optimizeHomeAwayBalance games lockRequirements seed maxFlips = Normal (games', flips) ->
  (verifyNoDoubleheaders games').1 = (verifyNoDoubleheaders games).1.
Proof.
  intros Hopt. 
  assert (forall date team, appearances games' date team = appearances games date team) as Happ.
  { intros. by eapply optimizeLoop_appearances. }
  destruct (verifyNoDoubleheaders games).1 eqn:E.
  - apply verifyNoDoubleheaders_valid. intros. rewrite Happ. by apply verifyNoDoubleheaders_valid.
  - destruct (verifyNoDoubleheaders games').1 eqn:E'; [|done].
    rewrite <- E. symmetry. apply verifyNoDoubleheaders_valid. intros. rewrite <- Happ.
    by apply verifyNoDoubleheaders_valid.
Qed.

Section RetryFacts.
Context `{Host}.

Lemma attemptsFrom_S rq teams seed budget attempt failures :
  attemptsFrom rq teams seed (S budget) attempt failures =
  let attemptSeed := attemptSeed seed attempt in
  match tryGenerateSchedule teams (Request.slots rq) (Request.targetSlot rq) attemptSeed
          (Request.gamesPerPair rq) (Request.lockRequirements rq) (Request.verbose rq) with
  | inl result =>
      let dhCheck := verifyNoDoubleheaders (Success.games result) in
      if negb dhCheck.1 then
        attemptsFrom rq teams seed budget (S attempt)
          (failures ++ [FailedAttempt.mk (attempt + 1) (HasDoubleheaders (take 3 dhCheck.2))
                          None (Success.games result) attemptSeed])%list
      else
        let build finalGames flips :=
          Built (Schedule.mk finalGames (Success.stats result) (Success.homeAwayCounts result)
                   attemptSeed (attempt + 1) flips) in
        if Request.optimizeHomeAway rq then
          match optimizeHomeAwayBalance (Success.games result) (Request.lockRequirements rq)
                  (attemptSeed ++ "-optimize") 100 with
          | TypeError => RaisedTypeError
          | Normal (optimizedGames, optimizedFlips) =>
              if negb (verifyNoDoubleheaders optimizedGames).1
              then build (Success.games result) 0
              else build optimizedGames optimizedFlips
          end
        else build (Success.games result) 0
  | inr failure =>
      attemptsFrom rq teams seed budget (S attempt)
        (failures ++ [FailedAttempt.mk (attempt + 1) (Failure.reason failure)
                        (Failure.slotIndex failure) (Failure.partialGames failure)
                        attemptSeed])%list
  end.
Proof. reflexivity. Qed.

Lemma attemptsFrom_built_valid rq teams seed budget : forall attempt failures schedule,
  attemptsFrom rq teams seed budget attempt failures = Built schedule ->
  (verifyNoDoubleheaders (Schedule.games schedule)).1 = true.
Proof.
  induction budget as [|budget IH]; intros attempt failures schedule.
  - simpl. by destruct failures.
  - rewrite attemptsFrom_S. cbv zeta.
    destruct (tryGenerateSchedule _ _ _ _ _ _ _) as [result|failure]; [|apply IH].
    destruct (verifyNoDoubleheaders (Success.games result)).1 eqn:Evalid;
      cbn [negb]; [|apply IH].
    destruct (Request.optimizeHomeAway rq).
    + destruct (optimizeHomeAwayBalance _ _ _ _) as [[optimized flips]|]; [|done].
      destruct (verifyNoDoubleheaders optimized).1 eqn:Eopt; cbn [negb]; by intros [= <-].
    + by intros [= <-].
Qed.

Lemma generated_schedule_has_no_doubleheaders now rq schedule :
  generateBalancedSchedule now rq = Built schedule ->
  (verifyNoDoubleheaders (Schedule.games schedule)).1 = true.
Proof.
  unfold generateBalancedSchedule. destruct (toTeamArray _); [done|].
  destruct (Request.slots rq) eqn:E; [done|]. apply attemptsFrom_built_valid.
Qed.

(** C7: when an attempt succeeds, a doubleheader found before optimization
    fails that attempt (it is appended to the failures with the doubleheader
    reason) and the next attempt runs; otherwise, with optimization on, the
    loop ends with what [afterOptimizer] makes of the optimizer's value, and
    for every value [(optimized, flips)] the optimizer may hand over: if
    [optimized] contains a doubleheader it is discarded and the schedule
    returned is the pre-optimization game list with homeAwayFlips = 0, else
    the schedule returned is [optimized] with the flip count [flips]. *)
Theorem doubleheader_checks_around_optimizer (rq : Request.t) (teams : list string)
    (seed : string) (budget attempt : nat) (failures : list FailedAttempt.t)
    (result : Success.t) :
  tryGenerateSchedule teams (Request.slots rq) (Request.targetSlot rq) (attemptSeed seed attempt)
    (Request.gamesPerPair rq) (Request.lockRequirements rq) (Request.verbose rq) = inl result ->
  let games := Success.games result in
  let check := verifyNoDoubleheaders games in
  (check.1 = false ->
     attemptsFrom rq teams seed (S budget) attempt failures =
     attemptsFrom rq teams seed budget (S attempt)
       (failures ++ [FailedAttempt.mk (attempt + 1) (HasDoubleheaders (take 3 check.2)) None
                       games (attemptSeed seed attempt)])%list) /\
  (check.1 = true -> Request.optimizeHomeAway rq = true ->
     attemptsFrom rq teams seed (S budget) attempt failures =
     afterOptimizer result (attemptSeed seed attempt) attempt
       (optimizeHomeAwayBalance games (Request.lockRequirements rq)
          (attemptSeed seed attempt ++ "-optimize") 100)) /\
  (forall optimized flips,
     exists schedule,
       afterOptimizer result (attemptSeed seed attempt) attempt (Normal (optimized, flips)) =
         Built schedule /\
       Schedule.attempts schedule = (attempt + 1)%nat /\
       if (verifyNoDoubleheaders optimized).1
       then Schedule.games schedule = optimized /\ Schedule.homeAwayFlips schedule = flips
       else Schedule.games schedule = games /\ Schedule.homeAwayFlips schedule = 0).
Proof.
  intros Htry games check. rewrite attemptsFrom_S. cbv zeta. rewrite Htry.
  fold games. fold check. split; [|split].
  - intros ->. reflexivity.
  - intros -> ->. reflexivity.
  - intros optimized flips. unfold afterOptimizer, returned.
    destruct (verifyNoDoubleheaders optimized).1; cbn [negb]; eexists; repeat split.
Qed.
End RetryFacts.

Lemma doubleheader_checks_around_optimizer_witness :
  let result :=
    succeeded (tryGenerateSchedule (H := Civil.host) fourTeams sharedDay evening
                 (attemptSeed "t1" 0) 1 locksOfA false) in
  tryGenerateSchedule (H := Civil.host) fourTeams sharedDay evening (attemptSeed "t1" 0) 1
    locksOfA false = inl result /\
  (verifyNoDoubleheaders (Success.games result)).1 = false /\
  attemptsFrom (H := Civil.host) sharedDayRequest fourTeams "t1" 2 0 [] =
  attemptsFrom (H := Civil.host) sharedDayRequest fourTeams "t1" 1 1
    [FailedAttempt.mk 1
       (HasDoubleheaders (take 3 (verifyNoDoubleheaders (Success.games result)).2))
       None (Success.games result) (attemptSeed "t1" 0)] /\
  (verifyNoDoubleheaders twiceOnOneDay).1 = false /\
  (exists schedule,
     afterOptimizer result (attemptSeed "t1" 0) 0 (Normal (twiceOnOneDay, 7)) = Built schedule /\
     Schedule.attempts schedule = 1%nat /\
     Schedule.games schedule = Success.games result /\ Schedule.homeAwayFlips schedule = 0) /\
  let played :=
    succeeded (tryGenerateSchedule (H := Civil.host) fourTeams ownDays evening
                 (attemptSeed "t1" 0) 1 ∅ false) in
  (verifyNoDoubleheaders (Success.games played)).1 = true /\
  attemptsFrom (H := Civil.host) freeRequest fourTeams "t1" 1 0 [] =
  afterOptimizer played (attemptSeed "t1" 0) 0
    (optimizeHomeAwayBalance (Success.games played) (Request.lockRequirements freeRequest)
       (attemptSeed "t1" 0 ++ "-optimize") 100).
Proof.
  intros result.
  assert (tryGenerateSchedule (H := Civil.host) fourTeams sharedDay evening (attemptSeed "t1" 0) 1
            locksOfA false = inl result) as Htry by (vm_compute; reflexivity).
  assert ((verifyNoDoubleheaders (Success.games result)).1 = false) as Hclash
    by (vm_compute; reflexivity).
  assert ((verifyNoDoubleheaders twiceOnOneDay).1 = false) as Htwice
    by (vm_compute; reflexivity).
  split; [exact Htry|]. split; [exact Hclash|].
  destruct (doubleheader_checks_around_optimizer (H := Civil.host) sharedDayRequest fourTeams
              "t1" 1 0 [] result Htry) as (Hretry & _ & Hdiscard).
  split; [exact (Hretry Hclash)|]. split; [exact Htwice|].
  destruct (Hdiscard twiceOnOneDay 7) as (schedule & Hreturned & Hattempts & Hkept).
  rewrite Htwice in Hkept. split.
  { exists schedule. split; [exact Hreturned|]. split; [exact Hattempts|]. exact Hkept. }
  intros played.
  assert (tryGenerateSchedule (H := Civil.host) fourTeams (Request.slots freeRequest)
            (Request.targetSlot freeRequest) (attemptSeed "t1" 0)
            (Request.gamesPerPair freeRequest) (Request.lockRequirements freeRequest)
            (Request.verbose freeRequest) = inl played) as Hplayed by (vm_compute; reflexivity).
  assert ((verifyNoDoubleheaders (Success.games played)).1 = true) as Hvalid
    by (vm_compute; reflexivity).
  split; [exact Hvalid|].
  destruct (doubleheader_checks_around_optimizer (H := Civil.host) freeRequest fourTeams
              "t1" 0 0 [] played Hplayed) as (_ & Hhand & _).
  exact (Hhand Hvalid eq_refl).
Defined.


(** ** Determinism (C3) *)

Section Diagnostics.
Variables (pairs : list Pair.t) (isTargetSlot : bool) (teamTargetCounts : gmap string Z)
  (minTarget maxTarget : Z) (teamGamesRemaining : gmap string Js.counter)
  (requiredTeams : option (list string)) (teamsPlayedToday : option (gset string))
  (allLockedTeams : option (gset string)) (teamsThisWeek : option (gmap string Z))
  (currentDate : string).

Let args (rng : Rng) (diagnostics : bool) : Select.t :=
  Select.mk pairs isTargetSlot teamTargetCounts minTarget maxTarget teamGamesRemaining rng
    requiredTeams diagnostics teamsPlayedToday allLockedTeams teamsThisWeek currentDate.

Lemma scanPair_diagnostics rng d1 d2 s1 s2 item :
  sameScan s1 s2 -> sameScan (scanPair (args rng d1) s1 item) (scanPair (args rng d2) s2 item).
Proof.
  intros (Hscore & Hbest & Hrng). destruct item as [i entry]. unfold scanPair.
  change (screenPair (args rng d1) entry) with (screenPair (args rng d2) entry).
  change (pairScore (args rng d1) entry) with (pairScore (args rng d2) entry).
  destruct (screenPair (args rng d2) entry); try (by repeat split).
  rewrite Hrng. destruct (rngNext (Scan.rng s2)) as [u rng'].
  rewrite Hscore, Hbest.
  destruct (Js.gt _ _); [by repeat split|]. destruct (Js.strictEq _ _); by repeat split.
Qed.

Lemma scanPairs_diagnostics rng d1 d2 :
  sameScan (scanPairs (args rng d1)) (scanPairs (args rng d2)).
Proof.
  unfold scanPairs. cbn [Select.pairs Select.rng Select.diagnostics args].
  generalize (imap (fun i (entry : Pair.t) => (i, entry)) pairs). intros items.
  assert (sameScan (Scan.mk Js.negInfinity [] (if d1 then Some Rejected.zero else None) rng)
                   (Scan.mk Js.negInfinity [] (if d2 then Some Rejected.zero else None) rng)) as H0
    by (by repeat split).
  revert H0. generalize (Scan.mk Js.negInfinity [] (if d1 then Some Rejected.zero else None) rng).
  generalize (Scan.mk Js.negInfinity [] (if d2 then Some Rejected.zero else None) rng).
  induction items as [|item items IH]; intros s2 s1 Hsame; simpl; [done|].
  apply IH. by apply scanPair_diagnostics.
Qed.

Lemma selectPair_diagnostics rng d1 d2 :
  Selected.chosen (selectPair (args rng d1)) = Selected.chosen (selectPair (args rng d2)) /\
  Selected.rng (selectPair (args rng d1)) = Selected.rng (selectPair (args rng d2)).
Proof.
  unfold selectPair. destruct (scanPairs_diagnostics rng d1 d2) as (_ & Hbest & Hrng).
  rewrite Hbest, Hrng. destruct (Scan.best (scanPairs (args rng d2))); [done|].
  by destruct (rngNext _).
Qed.
End Diagnostics.

Section Verbose.
Context `{Host}.

Lemma fillSlot_verbose targetSlot minTarget maxTarget locks locked v1 v2 i slot st :
  sameAttempt (fillSlot (Plan.mk targetSlot minTarget maxTarget locks locked v1) i slot st)
              (fillSlot (Plan.mk targetSlot minTarget maxTarget locks locked v2) i slot st).
Proof.
  unfold fillSlot. cbn [Plan.lockRequirements Plan.targetSlot Plan.minTarget Plan.maxTarget
                        Plan.verbose Plan.allLockedTeams].
  match goal with
  | |- context [selectPair (Select.mk ?p ?t ?c ?mi ?ma ?g ?r ?rt v1 ?td ?al ?tw ?cd)] =>
      destruct (selectPair_diagnostics p t c mi ma g rt td al tw cd r v1 v2) as [Hc Hr]
  end.
  rewrite Hc, Hr.
  match goal with |- context [Selected.chosen ?s ≫= ?f] => destruct (Selected.chosen s ≫= f) as [[k candidate]|] end;
    [|done].
  destruct (assignGame _ _ _ _ _). done.
Qed.

Lemma fillSlots_verbose targetSlot minTarget maxTarget locks locked v1 v2 slots : forall i st,
  sameAttempt (fillSlots (Plan.mk targetSlot minTarget maxTarget locks locked v1) i slots st)
              (fillSlots (Plan.mk targetSlot minTarget maxTarget locks locked v2) i slots st).
Proof.
  induction slots as [|slot slots IH]; intros i st; simpl; [done|].
  pose proof (fillSlot_verbose targetSlot minTarget maxTarget locks locked v1 v2 i slot st) as Hstep.
  destruct (fillSlot (Plan.mk _ _ _ _ _ v1) i slot st), (fillSlot (Plan.mk _ _ _ _ _ v2) i slot st);
    simpl in Hstep; try done. subst. apply IH.
Qed.

Lemma tryGenerateSchedule_verbose teams slots targetSlot seed gamesPerPair locks v1 v2 :
  match tryGenerateSchedule teams slots targetSlot seed gamesPerPair locks v1,
        tryGenerateSchedule teams slots targetSlot seed gamesPerPair locks v2 with
  | inl r1, inl r2 => r1 = r2
  | inr _, inr _ => True
  | _, _ => False
  end.
Proof.
  unfold tryGenerateSchedule, planAttempt.
  destruct (computeTargetRange _ _) as [[minTarget maxTarget] ideal].
  pose proof (fillSlots_verbose targetSlot minTarget maxTarget locks (collectLockedTeams locks)
                v1 v2 slots 0%nat (initialAttempt teams seed gamesPerPair)) as Hrun.
  destruct (fillSlots (Plan.mk _ _ _ _ _ v1) _ _ _), (fillSlots (Plan.mk _ _ _ _ _ v2) _ _ _);
    simpl in Hrun; try done. subst.
  destruct (List.filter _ _); done.
Qed.
Lemma attemptsFrom_verbose teams0 slots targetSlot seed0 gamesPerPair maxAttempts locks v1 v2
    optimize teams seed budget : forall attempt failures1 failures2,
  gamesAndFlips
    (attemptsFrom (Request.mk teams0 slots targetSlot seed0 gamesPerPair maxAttempts locks v1 optimize)
       teams seed budget attempt failures1) =
  gamesAndFlips
    (attemptsFrom (Request.mk teams0 slots targetSlot seed0 gamesPerPair maxAttempts locks v2 optimize)
       teams seed budget attempt failures2).
Proof.
  induction budget as [|budget IH]; intros attempt failures1 failures2.
  - simpl. by destruct failures1, failures2.
  - rewrite !attemptsFrom_S. cbv zeta.
    cbn [Request.slots Request.targetSlot Request.gamesPerPair Request.lockRequirements
         Request.verbose Request.optimizeHomeAway].
    pose proof (tryGenerateSchedule_verbose teams slots targetSlot (attemptSeed seed attempt)
                  gamesPerPair locks v1 v2) as Htry.
    destruct (tryGenerateSchedule _ _ _ _ _ _ v1) as [r1|f1],
             (tryGenerateSchedule _ _ _ _ _ _ v2) as [r2|f2]; try done.
    subst r2. destruct (verifyNoDoubleheaders (Success.games r1)).1; cbn [negb]; [|apply IH].
    destruct optimize; [|done].
    destruct (optimizeHomeAwayBalance _ _ _ _) as [[optimized flips]|]; [|done].
    by destruct (verifyNoDoubleheaders optimized).1.
Qed.

(** C3: for fixed teams, slots, target slot, seed, games per pair, maximal
    attempts and locks, any two runs of [generateBalancedSchedule] return
    the same game list (same games, order and roles) and the same
    homeAwayFlips, or both return none: the outcome depends neither on the
    clock nor on the verbosity of the run. *)
Theorem generateBalancedSchedule_deterministic (now1 now2 : Z) (verbose1 verbose2 : bool)
    (teams : list string) (slots : list Slot.t) (targetSlot seed : string)
    (gamesPerPair maxAttempts : Z) (lockRequirements : gmap Z Lock.t) (optimizeHomeAway : bool) :
  gamesAndFlips
    (generateBalancedSchedule now1
       (Request.mk teams slots targetSlot (Some seed) gamesPerPair maxAttempts lockRequirements
          verbose1 optimizeHomeAway)) =
  gamesAndFlips
    (generateBalancedSchedule now2
       (Request.mk teams slots targetSlot (Some seed) gamesPerPair maxAttempts lockRequirements
          verbose2 optimizeHomeAway)).
Proof.
  unfold generateBalancedSchedule.
  cbn [Request.seed Request.teams Request.slots Request.maxAttempts].
  destruct (toTeamArray teams); [done|]. destruct slots; [done|].
  apply attemptsFrom_verbose.
Qed.
End Verbose.

(** ** Scores and selection (C4) *)

Ltac order_cases :=
  repeat match goal with
         | H : context [Z.compare ?a ?b] |- _ => destruct (Z.compare_spec a b); subst
         | |- context [Z.compare ?a ?b] => destruct (Z.compare_spec a b); subst
         | H : context [Pos.compare_cont Eq ?a ?b] |- _ =>
             change (Pos.compare_cont Eq a b) with (Pos.compare a b) in H
         | |- context [Pos.compare_cont Eq ?a ?b] =>
             change (Pos.compare_cont Eq a b) with (Pos.compare a b)
         | H : context [Pos.compare ?a ?b] |- _ => destruct (Pos.compare_spec a b); subst
         | |- context [Pos.compare ?a ?b] => destruct (Pos.compare_spec a b); subst
         end.

Lemma SFltb_trans x y z : SFltb x y = true -> SFltb y z = true -> SFltb x z = true.
Proof.
  unfold SFltb.
  destruct x as [[]|[]| |[] mx ex], y as [[]|[]| |[] my ey], z as [[]|[]| |[] mz ez];
    simpl; try discriminate; try reflexivity;
    order_cases; simpl; try discriminate; try reflexivity; intros; lia.
Qed.

Lemma SFltb_eqb x y z : SFltb x y = true -> SFeqb z y = true -> SFltb x z = true.
Proof.
  unfold SFltb, SFeqb.
  destruct x as [[]|[]| |[] mx ex], y as [[]|[]| |[] my ey], z as [[]|[]| |[] mz ez];
    simpl; try discriminate; try reflexivity;
    order_cases; simpl; try discriminate; try reflexivity; intros; lia.
Qed.

Lemma SFltb_eqb_refl x y : SFltb x y = true -> SFeqb y y = true.
Proof.
  unfold SFltb, SFeqb.
  destruct x as [[]|[]| |[] mx ex], y as [[]|[]| |[] my ey];
    simpl; try discriminate; try reflexivity;
    order_cases; simpl; try discriminate; try reflexivity; intros; lia.
Qed.

Lemma SFltb_irrefl_eq x y : SFeqb x y = true -> SFltb y x = false.
Proof.
  unfold SFltb, SFeqb.
  destruct x as [[]|[]| |[] mx ex], y as [[]|[]| |[] my ey];
    simpl; try discriminate; try reflexivity;
    order_cases; simpl; try discriminate; try reflexivity; intros; lia.
Qed.

Module JsFacts.
Lemma mul_comm x y : Js.mul x y = Js.mul y x.
Proof.
  unfold Js.mul, SFmul.
  destruct x as [sx|sx| |sx mx ex], y as [sy|sy| |sy my ey]; try reflexivity;
    rewrite ?(xorb_comm sx sy); try reflexivity.
  by rewrite (Pos.mul_comm mx my), (Z.add_comm ex ey).
Qed.

Lemma round_aux_opp s m e l :
  binary_round_aux 53 1024 (negb s) m e l = SFopp (binary_round_aux 53 1024 s m e l).
Proof.
  unfold binary_round_aux.
  destruct (shr_fexp 53 1024 m e l) as [mrs e'].
  destruct (shr_fexp 53 1024 _ e' loc_Exact) as [mrs' e''].
  destruct (shr_m mrs'); try reflexivity. by destruct (e'' <=? 1024 - 53).
Qed.

Lemma mul_neg_r x y : Js.mul x (Js.neg y) = Js.neg (Js.mul x y).
Proof.
  unfold Js.mul, Js.neg, SFmul.
  destruct x as [sx|sx| |sx mx ex], y as [sy|sy| |sy my ey]; simpl; try reflexivity;
    rewrite ?xorb_negb_r; try reflexivity; try (by rewrite negb_xorb_r).
  all: try (rewrite <- negb_xorb_r; try reflexivity; apply round_aux_opp).
Qed.

Lemma add_neg x y : Js.add x (Js.neg y) = Js.sub x y.
Proof.
  unfold Js.add, Js.neg, Js.sub, SFadd, SFsub.
  destruct x as [[]|[]| |sx mx ex], y as [[]|[]| |sy my ey]; simpl; try reflexivity.
  f_equal. destruct sx, sy; simpl; lia.
Qed.
End JsFacts.

Ltac float_order :=
  simpl; try discriminate; try reflexivity;
  order_cases; simpl; try discriminate; try reflexivity; intros; lia.

Lemma SFeqb_compare_l s b x : SFeqb s b = true -> SFcompare s x = SFcompare b x.
Proof.
  unfold SFeqb.
  destruct s as [[]|[]| |[] ms es], b as [[]|[]| |[] mb eb], x as [[]|[]| |[] mx ex];
    simpl; try discriminate; try reflexivity;
    order_cases; simpl; try discriminate; try reflexivity; intros; try lia;
    order_cases; try reflexivity; lia.
Qed.

Lemma SFeqb_compare_r s b x : SFeqb s b = true -> SFcompare x s = SFcompare x b.
Proof.
  unfold SFeqb.
  destruct s as [[]|[]| |[] ms es], b as [[]|[]| |[] mb eb], x as [[]|[]| |[] mx ex];
    simpl; try discriminate; try reflexivity;
    order_cases; simpl; try discriminate; try reflexivity; intros; try lia;
    order_cases; try reflexivity; lia.
Qed.

(** The score computed by the code is the described one, operation for
    operation in binary64. *)
Lemma pairScore_is_claimedScore a entry u : pairScore a entry u = claimedScore a entry u.
Proof.
  unfold pairScore, claimedScore, deficit, needScore.
  destruct (Pair.teams entry) as [teamA teamB].
  rewrite (JsFacts.mul_neg_r _ (Js.ofZ 2)), JsFacts.add_neg.
  rewrite (JsFacts.mul_comm (Js.ofZ 2)), (JsFacts.mul_comm Js.lit_0_02).
  destruct (Select.isTargetSlot a).
  - by rewrite (JsFacts.mul_comm (Js.ofZ 3)).
  - by rewrite (JsFacts.mul_comm (Js.neg Js.lit_0_2)).
Qed.

Section Scan.
Variable a : Select.t.
Variable rng0 : Rng.

Lemma tiedWith_app score l1 l2 :
  tiedWith score (l1 ++ l2) = (tiedWith score l1 ++ tiedWith score l2)%list.
Proof. unfold tiedWith. by rewrite List.filter_app, map_app. Qed.

Lemma tiedWith_one score i s :
  tiedWith score [(i, s)] = if Js.strictEq s score then [i] else [].
Proof. unfold tiedWith. cbn [List.filter snd]. by destruct (Js.strictEq s score). Qed.

Lemma tiedWith_none score processed :
  (forall j s, (j, s) ∈ processed -> Js.strictEq s score = false) ->
  tiedWith score processed = [].
Proof.
  unfold tiedWith. induction processed as [|[j s] rest IH]; intros Hnone; [done|].
  cbn [List.filter snd]. rewrite (Hnone j s) by (by left).
  apply IH. intros j' s' Hin. apply (Hnone j' s'). by right.
Qed.

Lemma scanPair_rejected st processed k item :
  isEligible a item = false ->
  scanInvariant rng0 st processed k -> scanInvariant rng0 (scanPair a st item) processed k.
Proof.
  unfold isEligible, scanPair. destruct item as [i entry]. cbn [snd].
  by destruct (screenPair a entry).
Qed.

Lemma scanPair_survivor st processed k i entry :
  isEligible a (i, entry) = true ->
  scanInvariant rng0 st processed k ->
  scanInvariant rng0 (scanPair a st (i, entry))
    (processed ++ [(i, claimedScore a entry (nthDraw rng0 k))]) (S k).
Proof.
  unfold isEligible, scanPair. cbn [snd].
  destruct (screenPair a entry); try discriminate. intros _.
  intros (Hrng & Hmax & Hbest & Hrefl).
  unfold nthDraw. rewrite <- Hrng.
  assert (Nat.iter (S k) (fun t => (rngNext t).2) rng0 = (rngNext (Scan.rng st)).2) as Hnext.
  { by rewrite Nat.iter_succ, <- Hrng. }
  destruct (rngNext (Scan.rng st)) as [u rng'] eqn:Edraw. cbn [fst snd] in *. cbv zeta.
  rewrite pairScore_is_claimedScore.
  generalize dependent (claimedScore a entry u). intros score.
  unfold scanInvariant, Js.gt, Js.strictEq in *.
  destruct (SFltb (Scan.bestScore st) score) eqn:Egt;
    [|destruct (SFeqb score (Scan.bestScore st)) eqn:Eeq];
    cbn [Scan.rng Scan.best Scan.bestScore].
  - split; [done|]. split; [|split].
    + intros j s [Hold|Hnew%list_elem_of_singleton]%elem_of_app.
      * destruct (SFltb score s) eqn:E; [|done].
        rewrite <- (Hmax j s Hold). symmetry. by eapply SFltb_trans.
      * injection Hnew as -> ->. apply SFltb_irrefl_eq. by eapply SFltb_eqb_refl.
    + rewrite tiedWith_app, tiedWith_one. unfold Js.strictEq.
      rewrite (SFltb_eqb_refl _ _ Egt).
      rewrite tiedWith_none; [done|].
      intros j s Hin. unfold Js.strictEq. destruct (SFeqb s score) eqn:E; [|done].
      pose proof (SFltb_eqb _ _ _ Egt E) as Hlt. by rewrite (Hmax j s Hin) in Hlt.
    + by eapply SFltb_eqb_refl.
  - split; [done|]. split; [|split; [|done]].
    + intros j s [Hold|Hnew%list_elem_of_singleton]%elem_of_app; [by eapply Hmax|].
      by injection Hnew as -> ->.
    + rewrite tiedWith_app, tiedWith_one, Hbest. unfold Js.strictEq. by rewrite Eeq.
  - split; [done|]. split; [|split; [|done]].
    + intros j s [Hold|Hnew%list_elem_of_singleton]%elem_of_app; [by eapply Hmax|].
      by injection Hnew as -> ->.
    + rewrite tiedWith_app, tiedWith_one, Hbest. unfold Js.strictEq. rewrite Eeq.
      by rewrite app_nil_r.
Qed.

Lemma scan_fold items : forall st processed k,
  scanInvariant rng0 st processed k ->
  scanInvariant rng0 (fold_left (scanPair a) items st)
    (processed ++ scoresFrom a rng0 k (List.filter (isEligible a) items))
    (k + length (List.filter (isEligible a) items)).
Proof.
  induction items as [|[i entry] items IH]; intros st processed k Hinv.
  - cbn [fold_left List.filter scoresFrom length]. by rewrite app_nil_r, Nat.add_0_r.
  - cbn [fold_left List.filter]. destruct (isEligible a (i, entry)) eqn:E.
    + cbn [scoresFrom length]. rewrite Nat.add_succ_r, <- Nat.add_succ_l.
      rewrite (cons_middle _ processed), app_assoc.
      apply IH. by apply scanPair_survivor.
    + apply IH. by apply scanPair_rejected.
Qed.
End Scan.

Lemma selectPair_chosen_scored (a : Select.t) (i : nat) :
  Selected.chosen (selectPair a) = Some i ->
  exists score,
    (i, score) ∈ claimedScores a /\
    (forall j s, (j, s) ∈ claimedScores a -> Js.gt s score = false) /\
    Js.index (tiedWith score (claimedScores a))
      (Js.floor
         (Js.mul (nthDraw (Select.rng a) (length (survivors a)))
            (Js.ofZ (Z.of_nat (length (tiedWith score (claimedScores a))))))) = Some i.
Proof.
  unfold selectPair.
  assert (scanInvariant (Select.rng a) (scanPairs a) (claimedScores a) (length (survivors a)))
    as (Hrng & Hmax & Hbest & Hrefl).
  { unfold scanPairs. apply (scan_fold a (Select.rng a) _ _ [] 0%nat).
    repeat split; try done. intros j s Hin. by apply elem_of_nil in Hin. }
  destruct (Scan.best (scanPairs a)) as [|b0 best] eqn:Ebest; [done|].
  destruct (rngNext (Scan.rng (scanPairs a))) as [u rng'] eqn:Edraw.
  cbn [Selected.chosen]. intros Hchosen.
  assert (i ∈ tiedWith (Scan.bestScore (scanPairs a)) (claimedScores a)) as Hin.
  { rewrite <- Hbest. by eapply index_elem_of. }
  unfold tiedWith in Hin. apply list_elem_of_fmap in Hin as ([i' score] & -> & Hin).
  apply list_elem_of_In, filter_In in Hin as [Hin Htie]. apply list_elem_of_In in Hin.
  cbn [fst snd] in *. unfold Js.strictEq, Js.gt in *.
  assert (tiedWith score (claimedScores a) =
          tiedWith (Scan.bestScore (scanPairs a)) (claimedScores a)) as Hsame.
  { unfold tiedWith. f_equal. apply filter_ext. intros [j s]. cbn [snd].
    unfold Js.strictEq, SFeqb. by rewrite (SFeqb_compare_r _ _ s Htie). }
  exists score. split; [done|]. split.
  - intros j s Hjs. unfold SFltb. rewrite (SFeqb_compare_l _ _ s Htie). by apply (Hmax j s).
  - rewrite Hsame, <- Hbest. unfold nthDraw. rewrite <- Hrng, Edraw. exact Hchosen.
Qed.



(** ** Locks with explicit sides (C1, C2) *)

(** C1 fails on the code: with team A locked to three slots, the first of
    them carrying the historical sides A at B, the attempt seeded "t1-0"
    succeeds with A and B meeting twice and A and C never, for one game per
    pair; [generateBalancedSchedule] returns that schedule. *)
Theorem explicit_sides_upset_pair_ledger :
  let attempt :=
    tryGenerateSchedule (H := Civil.host) fourTeams ownDays evening "t1-0" 1 locksOfA false in
  attempt = inl (succeeded attempt) /\
  meetings (Success.games (succeeded attempt)) "A" "B" = 2 /\
  meetings (Success.games (succeeded attempt)) "A" "C" = 0 /\
  let returned := generateBalancedSchedule (H := Civil.host) 0 ownDaysRequest in
  gamesAndFlips returned <> None /\
  meetings (scheduleOf returned) "A" "B" = 2 /\
  meetings (scheduleOf returned) "A" "C" = 0.
Proof. vm_compute. repeat split; discriminate. Qed.

(** C2 fails on the code: with the same locks and the first two slots on
    one date, the attempt seeded "t1-0" succeeds with team B in both games
    of 05/06/2024, and [verifyNoDoubleheaders] rejects its game list. *)
Theorem explicit_sides_allow_doubleheader :
  let attempt :=
    tryGenerateSchedule (H := Civil.host) fourTeams sharedDay evening "t1-0" 1 locksOfA false in
  attempt = inl (succeeded attempt) /\
  appearances (Success.games (succeeded attempt)) "05/06/2024" "B" = 2%nat /\
  (verifyNoDoubleheaders (Success.games (succeeded attempt))).1 = false.
Proof. vm_compute. repeat split. Qed.

(** ** Attempts on locks without explicit sides *)

Lemma scoresFrom_positions a rng items : forall k i s,
  (i, s) ∈ scoresFrom a rng k items -> exists entry, (i, entry) ∈ items.
Proof.
  induction items as [|[i0 e0] items IH]; intros k i s; cbn [scoresFrom].
  - intros Hin. by apply elem_of_nil in Hin.
  - intros [[= -> _]|Hin]%elem_of_cons.
    + exists e0. by left.
    + destruct (IH _ _ _ Hin) as [entry Hentry]. exists entry. by right.
Qed.

Lemma selectPair_chosen_eligible a i :
  Selected.chosen (selectPair a) = Some i ->
  exists entry, Select.pairs a !! i = Some entry /\ screenPair a entry = Eligible.
Proof.
  intros Hchosen. destruct (selectPair_chosen_scored a i Hchosen) as (score & Hin & _).
  unfold claimedScores in Hin. apply scoresFrom_positions in Hin as [entry Hin].
  unfold survivors in Hin. apply list_elem_of_In, filter_In in Hin as [Hin Helig].
  apply list_elem_of_In, elem_of_lookup_imap in Hin as (i' & e' & [= -> ->] & Hlook).
  exists e'. split; [done|]. unfold isEligible in Helig. cbn [snd] in Helig.
  by destruct (screenPair a e').
Qed.

Lemma screenPair_eligible a entry :
  screenPair a entry = Eligible ->
  0 < Pair.remaining entry /\
  (isForced (Select.requiredTeams a) = true ->
     forall team, team ∈ default [] (Select.requiredTeams a) -> includes entry team = true) /\
  (forall today, Select.teamsPlayedToday a = Some today ->
     ((Pair.teams entry).1 ∉ today) /\ ((Pair.teams entry).2 ∉ today)).
Proof.
  unfold screenPair. destruct (Pair.teams entry) as [teamA teamB]. cbn [fst snd].
  destruct (Pair.remaining entry <=? 0) eqn:Erem; [discriminate|].
  destruct (isForced _ && negb _)%bool eqn:Eforced; [discriminate|].
  destruct (match Select.teamsPlayedToday a with Some _ => _ | None => _ end) eqn:Etoday;
    [discriminate|].
  intros _. split; [by apply Z.leb_gt in Erem|]. split.
  - intros Hf team Hin. rewrite Hf in Eforced. cbn [andb] in Eforced.
    apply negb_false_iff in Eforced. rewrite forallb_forall in Eforced.
    apply Eforced. by apply list_elem_of_In.
  - intros today Ht. rewrite Ht in Etoday. apply orb_false_iff in Etoday as [HA HB].
    unfold has in *. rewrite bool_decide_eq_false in HA, HB. done.
Qed.

Lemma assignGame_sides slot entry rng lock counts :
  (forall l, lock = Some l -> Js.truthy (Lock.away l) = false /\ Js.truthy (Lock.home l) = false) ->
  let game := (assignGame slot entry rng lock counts).1 in
  Game.date game = Slot.date slot /\ Game.slot game = Slot.slot slot /\
  ((Game.away game, Game.home game) = Pair.teams entry \/
   (Game.home game, Game.away game) = Pair.teams entry).
Proof.
  intros Hlock. unfold assignGame. destruct (Pair.teams entry) as [teamA teamB].
  pose proof (placeByBalance_sides teamA teamB counts rng) as Hsides.
  destruct lock as [l|].
  - destruct (Hlock l eq_refl) as [-> ->]. cbn [andb].
    destruct (placeByBalance teamA teamB counts rng) as [[away home] rng'].
    cbn [fst] in Hsides.
    destruct (toTeamArray (Lock.requiredTeams l)) as [|req [|]]; cbn [fst Game.date Game.slot Game.away Game.home];
      try (destruct (negb _ && _)%bool); cbn [fst Game.date Game.slot Game.away Game.home];
      (split; [done|split; [done|]]); destruct Hsides as [[= -> ->]|[= -> ->]]; auto.
  - destruct (placeByBalance teamA teamB counts rng) as [[away home] rng'].
    cbn [fst] in *. split; [done|split; [done|]]. destruct Hsides as [[= -> ->]|[= -> ->]]; auto.
Qed.

Section Filling.
Context `{Host}.

Lemma fillSlot_inl plan i slot st st' :
  sideless (Plan.lockRequirements plan) ->
  fillSlot plan i slot st = inl st' ->
  exists k entry game,
    Attempt.pairs st !! k = Some entry /\ 0 < Pair.remaining entry /\
    ((Pair.teams entry).1 ∉ default ∅ (Attempt.teamsByDate st !! Slot.date slot)) /\
    ((Pair.teams entry).2 ∉ default ∅ (Attempt.teamsByDate st !! Slot.date slot)) /\
    Game.date game = Slot.date slot /\ Game.slot game = Slot.slot slot /\
    ((Game.away game, Game.home game) = Pair.teams entry \/
     (Game.home game, Game.away game) = Pair.teams entry) /\
    (forall lock team,
       Plan.lockRequirements plan !! default (Z.of_nat i) (Slot.index slot) = Some lock ->
       team ∈ Lock.requiredTeams lock -> includes entry team = true) /\
    Attempt.pairs st' = <[k := playPair entry]> (Attempt.pairs st) /\
    Attempt.assignments st' = (Attempt.assignments st ++ [game])%list /\
    Attempt.teamsByDate st' =
      <[Slot.date slot :=
          default ∅ (Attempt.teamsByDate st !! Slot.date slot) ∪ {[Game.away game]}
            ∪ {[Game.home game]}]> (Attempt.teamsByDate st).
Proof.
  intros Hsideless. unfold fillSlot.
  set (slotLock := Plan.lockRequirements plan !! default (Z.of_nat i) (Slot.index slot)).
  set (today := default ∅ (Attempt.teamsByDate st !! Slot.date slot)).
  match goal with |- context [selectPair ?args] => set (a := args) end.
  destruct (Selected.chosen (selectPair a)) as [k|] eqn:Echosen; [|discriminate].
  cbn [mbind option_bind].
  destruct (selectPair_chosen_eligible a k Echosen) as (entry & Hlook & Helig).
  change (Select.pairs a) with (Attempt.pairs st) in Hlook.
  rewrite Hlook. cbn [fmap option_fmap option_map].
  destruct (screenPair_eligible a entry Helig) as (Hrem & Hreq & Htoday).
  destruct (Htoday today eq_refl) as [HA HB].
  pose proof (assignGame_sides slot entry (Selected.rng (selectPair a)) slotLock
                (Attempt.homeAwayCounts st)) as Hgame.
  destruct (assignGame slot entry (Selected.rng (selectPair a)) slotLock
              (Attempt.homeAwayCounts st)) as [game rng'].
  cbn [fst] in Hgame. destruct Hgame as (Hdate & Hslot & Hsides).
  { intros l Hl. by eapply Hsideless. }
  intros [= <-]. exists k, entry, game. cbn [Attempt.pairs Attempt.assignments Attempt.teamsByDate].
  repeat split; try done.
  intros lock team Hlock Hin. fold slotLock in Hlock.
  change (Select.requiredTeams a) with ((fun lock => Lock.requiredTeams lock) <$> slotLock) in Hreq.
  rewrite Hlock in Hreq. cbn [fmap option_fmap option_map default] in Hreq.
  apply Hreq; [|done]. unfold isForced. destruct (Lock.requiredTeams lock); [|done].
  by apply elem_of_nil in Hin.
Qed.
End Filling.

Lemma assignGame_labels slot entry rng lock counts :
  labelOfGame (assignGame slot entry rng lock counts).1 = labelOfSlot slot.
Proof.
  unfold assignGame. destruct (Pair.teams entry) as [teamA teamB].
  match goal with |- context [let '(_, _) := ?x in _] => destruct x as [[away home] rng'] end.
  reflexivity.
Qed.

Section Labels.
Context `{Host}.

Lemma fillSlot_appends plan i slot st st' :
  fillSlot plan i slot st = inl st' ->
  exists game, Attempt.assignments st' = (Attempt.assignments st ++ [game])%list /\
               labelOfGame game = labelOfSlot slot.
Proof.
  unfold fillSlot.
  match goal with |- context [selectPair ?args] => set (a := args) end.
  destruct (Selected.chosen (selectPair a) ≫= _) as [[k candidate]|]; [|discriminate].
  pose proof (assignGame_labels slot candidate (Selected.rng (selectPair a))
                (Plan.lockRequirements plan !! default (Z.of_nat i) (Slot.index slot))
                (Attempt.homeAwayCounts st)) as Hlabel.
  destruct (assignGame _ _ _ _ _) as [game rng']. intros [= <-]. by exists game.
Qed.

Lemma fillSlot_inr plan i slot st failure :
  fillSlot plan i slot st = inr failure ->
  Failure.slotIndex failure = Some i /\ Failure.partialGames failure = Attempt.assignments st.
Proof.
  unfold fillSlot.
  match goal with |- context [selectPair ?args] => set (a := args) end.
  destruct (Selected.chosen (selectPair a) ≫= _) as [[k candidate]|].
  - by destruct (assignGame _ _ _ _ _).
  - by intros [= <-].
Qed.

Lemma fillSlots_labels plan slots : forall i st,
  match fillSlots plan i slots st with
  | inl st' =>
      map labelOfGame (Attempt.assignments st') =
      (map labelOfGame (Attempt.assignments st) ++ map labelOfSlot slots)%list
  | inr failure =>
      exists done, Failure.slotIndex failure = Some (i + done)%nat /\ (done < length slots)%nat /\
        map labelOfGame (Failure.partialGames failure) =
        (map labelOfGame (Attempt.assignments st) ++ map labelOfSlot (take done slots))%list
  end.
Proof.
  induction slots as [|slot slots IH]; intros i st; cbn [fillSlots].
  - by rewrite app_nil_r.
  - destruct (fillSlot plan i slot st) as [st1|failure] eqn:Estep.
    + destruct (fillSlot_appends _ _ _ _ _ Estep) as (game & Happ & Hlabel).
      specialize (IH (S i) st1). destruct (fillSlots plan (S i) slots st1) as [st'|failure].
      * rewrite IH, Happ, map_app. cbn [map]. rewrite Hlabel. by rewrite <- app_assoc.
      * destruct IH as (done & Hidx & Hlt & Hmap). exists (S done). split; [|split].
        -- rewrite Hidx. f_equal. lia.
        -- cbn [length]. lia.
        -- rewrite Hmap, Happ, map_app. cbn [map take]. rewrite Hlabel. by rewrite <- app_assoc.
    + destruct (fillSlot_inr _ _ _ _ _ Estep) as [Hidx Hpartial]. exists 0%nat.
      split; [|split].
      * rewrite Hidx. f_equal. lia.
      * cbn [length]. lia.
      * rewrite Hpartial. cbn [take map]. by rewrite app_nil_r.
Qed.

Lemma attempt_labels_success teams slots targetSlot seed gamesPerPair locks verbose
    result :
  tryGenerateSchedule teams slots targetSlot seed gamesPerPair locks verbose = inl result ->
  map labelOfGame (Success.games result) = map labelOfSlot slots.
Proof.
  unfold tryGenerateSchedule.
  pose proof (fillSlots_labels (planAttempt teams slots targetSlot locks verbose) slots 0%nat
                (initialAttempt teams seed gamesPerPair)) as Hrun.
  destruct (fillSlots _ _ _ _) as [st|failure]; [|discriminate].
  destruct (List.filter _ _); [|discriminate]. intros [= <-]. exact Hrun.
Qed.

Lemma attempt_labels_failure teams slots targetSlot seed gamesPerPair locks verbose
    failure :
  tryGenerateSchedule teams slots targetSlot seed gamesPerPair locks verbose = inr failure ->
  match Failure.slotIndex failure with
  | Some i =>
      (i < length slots)%nat /\
      map labelOfGame (Failure.partialGames failure) = map labelOfSlot (take i slots)
  | None => map labelOfGame (Failure.partialGames failure) = map labelOfSlot slots
  end.
Proof.
  unfold tryGenerateSchedule.
  pose proof (fillSlots_labels (planAttempt teams slots targetSlot locks verbose) slots 0%nat
                (initialAttempt teams seed gamesPerPair)) as Hrun.
  destruct (fillSlots _ _ _ _) as [st|failure'].
  - destruct (List.filter _ _); [discriminate|]. intros [= <-]. exact Hrun.
  - intros [= <-]. destruct Hrun as (done & -> & Hlt & Hmap). done.
Qed.
End Labels.

Lemma appearances_app l1 l2 date team :
  appearances (l1 ++ l2) date team = (appearances l1 date team + appearances l2 date team)%nat.
Proof. induction l1 as [|g l1 IH]; cbn [appearances app]; [done|]. rewrite IH. lia. Qed.

Lemma meetings_app l1 l2 a b : meetings (l1 ++ l2) a b = meetings l1 a b + meetings l2 a b.
Proof. unfold meetings. rewrite List.filter_app, length_app. lia. Qed.

Lemma opposes_sym a b game : opposes a b game = opposes b a game.
Proof. unfold opposes. apply orb_comm. Qed.

Section Invariants.
Context `{Host}.

Lemma fillSlots_invariant (P : Attempt.t -> Prop) plan :
  (forall i slot st st', P st -> fillSlot plan i slot st = inl st' -> P st') ->
  forall slots i st st', P st -> fillSlots plan i slots st = inl st' -> P st'.
Proof.
  intros Hstep. induction slots as [|slot slots IH]; intros i st st' HP; cbn [fillSlots].
  - by intros [= <-].
  - destruct (fillSlot plan i slot st) as [st1|] eqn:E; [|discriminate].
    apply (IH (S i)). by eapply Hstep.
Qed.

Lemma fillSlot_clean plan i slot st st' :
  sideless (Plan.lockRequirements plan) ->
  clean st -> fillSlot plan i slot st = inl st' -> clean st'.
Proof.
  intros Hsideless [Hpairs Hday] Hfill.
  destruct (fillSlot_inl _ _ _ _ _ Hsideless Hfill)
    as (k & entry & game & Hlook & Hrem & HA & HB & Hdate & Hslot & Hsides & _ & Hp' & Ha' & Ht').
  pose proof (Hpairs k entry Hlook) as Hdiff.
  unfold clean. rewrite Hp', Ha', Ht'. split.
  - intros j p Hj. apply list_lookup_insert_Some in Hj as [(-> & <- & _)|[_ Hj]]; [done|].
    by eapply Hpairs.
  - intros date team. rewrite appearances_app. cbn [appearances]. rewrite Hdate.
    destruct (Hday date team) as [Hle Hin].
    destruct (String.eqb_spec (Slot.date slot) date) as [<-|Hne].
    + rewrite lookup_insert_eq. cbn [default from_option id].
      set (today := default ∅ (Attempt.teamsByDate st !! Slot.date slot)) in *.
      assert ((Game.away game ∉ today) /\ (Game.home game ∉ today) /\ Game.away game <> Game.home game)
        as (Haway & Hhome & Hne).
      { destruct Hsides as [Hs|Hs]; rewrite <- Hs in *; cbn [fst snd] in *; done. }
      destruct (String.eqb_spec (Game.away game) team) as [Heqa|Hna];
        destruct (String.eqb_spec (Game.home game) team) as [Heqh|Hnh].
      * congruence.
      * subst team.
        assert (appearances (Attempt.assignments st) (Slot.date slot) (Game.away game) = 0)%nat
          as -> by (destruct (appearances _ _ _); [done|exfalso; apply Haway, Hin; lia]).
        split; [lia|]. intros _. rewrite !elem_of_union, !elem_of_singleton. tauto.
      * subst team.
        assert (appearances (Attempt.assignments st) (Slot.date slot) (Game.home game) = 0)%nat
          as -> by (destruct (appearances _ _ _); [done|exfalso; apply Hhome, Hin; lia]).
        split; [lia|]. intros _. rewrite !elem_of_union, !elem_of_singleton. tauto.
      * split; [lia|]. intros Hpos. assert (team ∈ today) by (apply Hin; lia).
        rewrite !elem_of_union, !elem_of_singleton. tauto.
    + rewrite lookup_insert_ne by done. split; [lia|]. intros Hpos. apply Hin. lia.
Qed.
End Invariants.

Lemma pairUp_teams sorted g :
  map Pair.teams (pairUp sorted g) =
  match sorted with
  | [] => []
  | a :: rest => (map (fun b => (a, b)) rest ++ map Pair.teams (pairUp rest g))%list
  end.
Proof.
  destruct sorted as [|a rest]; [done|]. cbn [pairUp]. rewrite map_app, map_map. done.
Qed.

Lemma pairUp_members sorted g : forall x y,
  (x, y) ∈ map Pair.teams (pairUp sorted g) -> x ∈ sorted /\ y ∈ sorted.
Proof.
  induction sorted as [|a rest IH]; intros x y; rewrite pairUp_teams.
  - intros Hin. by apply elem_of_nil in Hin.
  - intros [Hin|Hin]%elem_of_app.
    + apply list_elem_of_fmap in Hin as (b & [= -> ->] & Hb). split; [by left|by right].
    + destruct (IH _ _ Hin). split; by right.
Qed.

Lemma pairUp_apart sorted g :
  NoDup sorted ->
  NoDup (map Pair.teams (pairUp sorted g)) /\
  forall x y, (x, y) ∈ map Pair.teams (pairUp sorted g) ->
    x <> y /\ ((y, x) ∉ map Pair.teams (pairUp sorted g)).
Proof.
  induction sorted as [|a rest IH]; intros Hnd; rewrite pairUp_teams.
  - split; [apply NoDup_nil_2|]. intros x y Hin. by apply elem_of_nil in Hin.
  - apply NoDup_cons in Hnd as [Ha Hnd]. destruct (IH Hnd) as [IHnd IHapart]. split.
    + apply NoDup_app. split; [|split; [|done]].
      * apply NoDup_fmap_2; [|done]. by intros b b' [= ->].
      * intros [x y] Hin1 Hin2. apply list_elem_of_fmap in Hin1 as (b & [= -> ->] & Hb).
        apply pairUp_members in Hin2 as [? _]. done.
    + intros x y [Hin|Hin]%elem_of_app.
      * apply list_elem_of_fmap in Hin as (b & [= -> ->] & Hb). split; [by intros ->|].
        intros [Hin|Hin]%elem_of_app.
        -- apply list_elem_of_fmap in Hin as (b' & [= -> ->] & Hb'). done.
        -- apply pairUp_members in Hin as [_ ?]. done.
      * destruct (IHapart _ _ Hin) as [Hne Hnot]. split; [done|].
        intros [Hin'|Hin']%elem_of_app; [|done].
        apply list_elem_of_fmap in Hin' as (b' & [= -> ->] & Hb').
        apply pairUp_members in Hin as [_ ?]. done.
Qed.

Lemma pairUp_cover sorted g : forall x y,
  x ∈ sorted -> y ∈ sorted -> x <> y ->
  (x, y) ∈ map Pair.teams (pairUp sorted g) \/ (y, x) ∈ map Pair.teams (pairUp sorted g).
Proof.
  induction sorted as [|a rest IH]; intros x y Hx Hy Hne; rewrite pairUp_teams.
  - by apply elem_of_nil in Hx.
  - apply elem_of_cons in Hx as [->|Hx]; apply elem_of_cons in Hy as [->|Hy]; try done.
    + left. apply elem_of_app. left. apply list_elem_of_fmap. by exists y.
    + right. apply elem_of_app. left. apply list_elem_of_fmap. by exists x.
    + destruct (IH x y Hx Hy Hne); [left|right]; apply elem_of_app; by right.
Qed.

Lemma pairUp_remaining sorted g : forall p, p ∈ pairUp sorted g -> Pair.remaining p = g.
Proof.
  induction sorted as [|a rest IH]; intros p; cbn [pairUp].
  - intros Hin. by apply elem_of_nil in Hin.
  - intros [Hin|Hin]%elem_of_app; [|by apply IH].
    by apply list_elem_of_fmap in Hin as (b & -> & Hb).
Qed.

Lemma stableSort_NoDup {A} (cmp : A -> A -> Z) l : NoDup l -> NoDup (stableSort cmp l).
Proof. intros Hnd. by rewrite stableSort_Permutation. Qed.

Lemma stableSort_elem_of {A} (cmp : A -> A -> Z) l x : x ∈ stableSort cmp l <-> x ∈ l.
Proof. by rewrite stableSort_Permutation. Qed.

Section BothTeams.
Context `{Host}.

Lemma initialAttempt_clean teams seed g : NoDup teams -> clean (initialAttempt teams seed g).
Proof.
  intros Hnd. unfold clean, initialAttempt. cbn [Attempt.pairs Attempt.assignments Attempt.teamsByDate].
  split.
  - intros j p Hj. unfold createPairState in Hj.
    destruct (pairUp_apart (stableSort localeCompare teams) g (stableSort_NoDup _ _ Hnd)) as [_ Hapart].
    apply (Hapart (Pair.teams p).1 (Pair.teams p).2).
    rewrite <- surjective_pairing. apply list_elem_of_fmap. exists p. split; [done|].
    by eapply list_elem_of_lookup_2.
  - intros date team. cbn [appearances]. split; lia.
Qed.

Lemma sideless_attempt_is_clean teams slots targetSlot seed gamesPerPair locks
    verbose result :
  NoDup teams -> sideless locks ->
  tryGenerateSchedule teams slots targetSlot seed gamesPerPair locks verbose = inl result ->
  (verifyNoDoubleheaders (Success.games result)).1 = true.
Proof.
  intros Hnd Hsideless. unfold tryGenerateSchedule.
  set (plan := planAttempt teams slots targetSlot locks verbose).
  assert (Plan.lockRequirements plan = locks) as Hlocks.
  { unfold plan, planAttempt. by destruct (computeTargetRange _ _) as [[? ?] ?]. }
  destruct (fillSlots plan 0 slots (initialAttempt teams seed gamesPerPair)) as [st|] eqn:Erun;
    [|discriminate].
  destruct (List.filter _ _); [|discriminate]. intros [= <-]. cbn [Success.games].
  apply verifyNoDoubleheaders_valid. intros date team.
  assert (clean st) as [_ Hday].
  { eapply (fillSlots_invariant clean plan); [|by apply initialAttempt_clean|exact Erun].
    intros i slot st0 st1 Hclean Hfill. eapply fillSlot_clean; [|done..]. by rewrite Hlocks. }
  apply Hday.
Qed.
End BothTeams.

Lemma includes_sides entry team game :
  includes entry team = true ->
  ((Game.away game, Game.home game) = Pair.teams entry \/
   (Game.home game, Game.away game) = Pair.teams entry) ->
  team = Game.away game \/ team = Game.home game.
Proof.
  unfold includes. intros [Hin|Hin]%orb_true_iff Hsides; apply String.eqb_eq in Hin;
    destruct Hsides as [Hs|Hs]; rewrite <- Hs in Hin; cbn [fst snd] in Hin; auto.
Qed.

Section Ledger.
Context `{Host}.

Lemma fillSlot_ledger plan g pairings i slot st st' :
  sideless (Plan.lockRequirements plan) ->
  NoDup pairings ->
  (forall x y, (x, y) ∈ pairings -> x <> y /\ ((y, x) ∉ pairings)) ->
  ledger g pairings st -> fillSlot plan i slot st = inl st' -> ledger g pairings st'.
Proof.
  intros Hsideless Hnd Hapart [Hteams Hsum] Hfill.
  destruct (fillSlot_inl _ _ _ _ _ Hsideless Hfill)
    as (k & entry & game & Hlook & Hrem & _ & _ & _ & _ & Hsides & _ & Hp' & Ha' & _).
  unfold ledger. rewrite Hp', Ha'.
  assert (pairings !! k = Some (Pair.teams entry)) as Hk.
  { rewrite <- Hteams. change (map Pair.teams) with (fmap (M:=list) Pair.teams).
    by rewrite list_lookup_fmap, Hlook. }
  split.
  - change (map Pair.teams) with (fmap (M:=list) Pair.teams).
    rewrite list_fmap_insert. cbn [playPair Pair.teams].
    change (fmap (M:=list) Pair.teams) with (map Pair.teams). rewrite Hteams.
    by apply list_insert_id.
  - intros j p Hj. rewrite meetings_app.
    apply list_lookup_insert_Some in Hj as [(<- & <- & _)|[Hne Hj]].
    + destruct (Hsum k entry Hlook) as [Hnonneg Heq]. cbn [playPair Pair.teams Pair.remaining].
      split; [lia|].
      assert (meetings [game] (Pair.teams entry).1 (Pair.teams entry).2 = 1) as ->; [|lia].
      unfold meetings, opposes. cbn [List.filter].
      destruct Hsides as [Hs|Hs]; rewrite <- Hs; cbn [fst snd]; rewrite !String.eqb_refl;
        cbn [andb orb]; rewrite ?orb_true_r; reflexivity.
    + destruct (Hsum j p Hj) as [Hnonneg Heq]. split; [done|].
      assert (meetings [game] (Pair.teams p).1 (Pair.teams p).2 = 0) as ->; [|lia].
      assert (pairings !! j = Some (Pair.teams p)) as Hjp.
      { rewrite <- Hteams. change (map Pair.teams) with (fmap (M:=list) Pair.teams).
        by rewrite list_lookup_fmap, Hj. }
      assert (Pair.teams p <> Pair.teams entry) as Hdiff.
      { intros Heq'. rewrite Heq' in Hjp. apply Hne. by eapply NoDup_lookup. }
      assert (Pair.teams p <> ((Pair.teams entry).2, (Pair.teams entry).1)) as Hswap.
      { intros Heq'. destruct (Hapart (Pair.teams entry).1 (Pair.teams entry).2) as [_ Hnot].
        - rewrite <- surjective_pairing. by eapply list_elem_of_lookup_2.
        - apply Hnot. rewrite <- Heq'. by eapply list_elem_of_lookup_2. }
      unfold meetings, opposes. cbn [List.filter].
      destruct (Pair.teams p) as [x y], (Pair.teams entry) as [teamA teamB]. cbn [fst snd] in *.
      destruct (String.eqb_spec (Game.away game) x), (String.eqb_spec (Game.home game) y),
        (String.eqb_spec (Game.away game) y), (String.eqb_spec (Game.home game) x);
        cbn [andb orb length]; try reflexivity; exfalso; subst;
        destruct Hsides as [[= <- <-]|[= <- <-]]; congruence.
Qed.

Lemma sideless_attempt_settles_ledger teams slots targetSlot seed gamesPerPair locks
    verbose result :
  NoDup teams -> 0 <= gamesPerPair -> sideless locks ->
  tryGenerateSchedule teams slots targetSlot seed gamesPerPair locks verbose = inl result ->
  forall a b, a ∈ teams -> b ∈ teams -> a <> b ->
    meetings (Success.games result) a b = gamesPerPair.
Proof.
  intros Hnd Hg Hsideless. unfold tryGenerateSchedule.
  set (plan := planAttempt teams slots targetSlot locks verbose).
  assert (Plan.lockRequirements plan = locks) as Hlocks.
  { unfold plan, planAttempt. by destruct (computeTargetRange _ _) as [[? ?] ?]. }
  destruct (fillSlots plan 0 slots (initialAttempt teams seed gamesPerPair)) as [st|] eqn:Erun;
    [|discriminate].
  destruct (List.filter _ _) eqn:Eleft; [|discriminate]. intros [= <-]. cbn [Success.games].
  set (sorted := stableSort localeCompare teams).
  set (pairings := map Pair.teams (pairUp sorted gamesPerPair)).
  destruct (pairUp_apart sorted gamesPerPair (stableSort_NoDup _ _ Hnd)) as [Hpnd Hapart].
  assert (ledger gamesPerPair pairings st) as [Hteams Hsum].
  { eapply (fillSlots_invariant (ledger gamesPerPair pairings) plan); [| |exact Erun].
    - intros i slot st0 st1 Hl Hfill. eapply fillSlot_ledger; try done. by rewrite Hlocks.
    - unfold ledger, initialAttempt. cbn [Attempt.pairs Attempt.assignments]. split; [done|].
      intros j p Hj. rewrite (pairUp_remaining sorted gamesPerPair p).
      + unfold meetings. cbn [List.filter length]. lia.
      + by eapply list_elem_of_lookup_2. }
  assert (forall x y, (x, y) ∈ pairings -> meetings (Attempt.assignments st) x y = gamesPerPair)
    as Hdone.
  { intros x y Hin. rewrite <- Hteams in Hin.
    apply list_elem_of_fmap in Hin as (p & Hp & Hin).
    apply list_elem_of_lookup in Hin as [j Hj]. destruct (Hsum j p Hj) as [Hnonneg Heq].
    rewrite <- Hp in Heq. cbn [fst snd] in Heq.
    assert (Pair.remaining p <= 0); [|lia].
    destruct (Z.leb_spec (Pair.remaining p) 0) as [|Hpos]; [done|exfalso].
    assert (In p (List.filter (fun entry => 0 <? Pair.remaining entry) (Attempt.pairs st))) as Hf.
    { apply filter_In. split; [by eapply list_elem_of_In, list_elem_of_lookup_2|].
      by apply Z.ltb_lt. }
    by rewrite Eleft in Hf. }
  intros a b Ha Hb Hne.
  destruct (pairUp_cover sorted gamesPerPair a b) as [Hin|Hin]; try done;
    try (by apply stableSort_elem_of).
  - by apply Hdone.
  - rewrite <- (Hdone b a Hin). unfold meetings. f_equal. f_equal.
    apply filter_ext. intros game. apply opposes_sym.
Qed.

Lemma fillSlots_honours plan slots : forall i st st',
  sideless (Plan.lockRequirements plan) ->
  fillSlots plan i slots st = inl st' ->
  exists games,
    Attempt.assignments st' = (Attempt.assignments st ++ games)%list /\
    forall j slot game lock team,
      slots !! j = Some slot -> games !! j = Some game ->
      Plan.lockRequirements plan !! default (Z.of_nat (i + j)) (Slot.index slot) = Some lock ->
      team ∈ Lock.requiredTeams lock ->
      team = Game.away game \/ team = Game.home game.
Proof.
  induction slots as [|slot slots IH]; intros i st st' Hsideless; cbn [fillSlots].
  - intros [= <-]. exists []. split; [by rewrite app_nil_r|]. intros j ? ? ? ? Hj. done.
  - destruct (fillSlot plan i slot st) as [st1|] eqn:Estep; [|discriminate]. intros Hrest.
    destruct (fillSlot_inl _ _ _ _ _ Hsideless Estep)
      as (k & entry & game & _ & _ & _ & _ & _ & _ & Hsides & Hreq & _ & Ha' & _).
    destruct (IH (S i) st1 st' Hsideless Hrest) as (games & Happ & Hall).
    exists (game :: games). split.
    + rewrite Happ, Ha'. by rewrite <- app_assoc.
    + intros [|j] slot' game' lock team Hslot Hgame Hlock Hin.
      * injection Hslot as <-. injection Hgame as <-. rewrite Nat.add_0_r in Hlock.
        eapply includes_sides; [|exact Hsides]. by eapply Hreq.
      * cbn [lookup list_lookup] in Hslot, Hgame. eapply (Hall j); try done.
        by replace (S i + j)%nat with (i + S j)%nat by lia.
Qed.

Lemma sideless_attempt_honours_locks teams slots targetSlot seed gamesPerPair locks verbose
    result :
  sideless locks ->
  tryGenerateSchedule teams slots targetSlot seed gamesPerPair locks verbose = inl result ->
  forall i slot game lock team,
    slots !! i = Some slot -> Success.games result !! i = Some game ->
    locks !! default (Z.of_nat i) (Slot.index slot) = Some lock ->
    team ∈ Lock.requiredTeams lock ->
    team = Game.away game \/ team = Game.home game.
Proof.
  intros Hsideless. unfold tryGenerateSchedule.
  set (plan := planAttempt teams slots targetSlot locks verbose).
  assert (Plan.lockRequirements plan = locks) as Hlocks.
  { unfold plan, planAttempt. by destruct (computeTargetRange _ _) as [[? ?] ?]. }
  destruct (fillSlots plan 0 slots (initialAttempt teams seed gamesPerPair)) as [st|] eqn:Erun;
    [|discriminate].
  destruct (List.filter _ _); [|discriminate]. intros [= <-]. cbn [Success.games].
  rewrite <- Hlocks in Hsideless.
  destruct (fillSlots_honours plan slots 0 _ _ Hsideless Erun) as (games & Happ & Hall).
  unfold initialAttempt in Happ. cbn [Attempt.assignments app] in Happ. rewrite Happ.
  intros i slot game lock team Hslot Hgame Hlock Hin. rewrite <- Hlocks in Hlock.
  by eapply (Hall i).
Qed.
End Ledger.

(** ** What the optimizer may change; outcomes of the retry loop *)

Lemma flipGame_involutive g : flipGame (flipGame g) = g.
Proof. by destruct g. Qed.

Lemma sameFixture_refl games : Forall2 sameFixture games games.
Proof. apply Forall2_same_length_lookup_2; [done|]. intros i x y Hx Hy. left. congruence. Qed.

Lemma sameFixture_trans l1 l2 l3 :
  Forall2 sameFixture l1 l2 -> Forall2 sameFixture l2 l3 -> Forall2 sameFixture l1 l3.
Proof.
  intros H12 H23. eapply Forall2_trans; [|exact H12|exact H23].
  intros x y z [-> | ->] [-> | ->]; unfold sameFixture; rewrite ?flipGame_involutive; auto.
Qed.

Lemma sameFixture_insert games i g :
  games !! i = Some g -> Forall2 sameFixture games (<[i := flipGame g]> games).
Proof.
  intros Hi. apply Forall2_same_length_lookup_2; [by rewrite length_insert|].
  intros j x y Hx Hy. destruct (decide (i = j)) as [<-|Hne].
  - rewrite list_lookup_insert_eq in Hy by (by eapply lookup_lt_Some).
    right. congruence.
  - rewrite list_lookup_insert_ne in Hy by done. left. congruence.
Qed.

Lemma flipCandidates_unpinned locks balance games team home away c :
  c ∈ flipCandidates locks balance games team home away ->
  fullyPinned (locks !! Z.of_nat (Candidate.idx c)) = false.
Proof.
  unfold flipCandidates. intros Hin. apply list_elem_of_In, in_flat_map in Hin as [[i g] [Hig Hc]].
  destruct (fullyPinned (locks !! Z.of_nat i)) eqn:Epin; [done|].
  repeat match type of Hc with
         | context [match ?x with _ => _ end] => destruct x
         end; cbn [In] in Hc; try done; destruct Hc as [<-|[]]; done.
Qed.

Lemma firstFlippable_unpinned locks balance games imbalanced candidates c :
  firstFlippable locks balance games imbalanced = Some candidates ->
  c ∈ candidates -> fullyPinned (locks !! Z.of_nat (Candidate.idx c)) = false.
Proof.
  induction imbalanced as [|[team b] rest IH]; cbn [firstFlippable]; [done|].
  destruct (flipCandidates locks balance games team (Balance.home b) (Balance.away b)) eqn:E.
  - apply IH.
  - intros [= <-] Hin. eapply flipCandidates_unpinned. by rewrite E.
Qed.

Lemma optimizeStep_flip locks games rng games' rng' :
  optimizeStep locks games rng = Flip games' rng' ->
  exists i g, games !! i = Some g /\ games' = <[i := flipGame g]> games /\
              fullyPinned (locks !! Z.of_nat i) = false.
Proof.
  unfold optimizeStep. destruct (_ =? 0); [done|].
  destruct (imbalancedTeams _) as [|e rest] eqn:Eimb; [done|].
  destruct (firstFlippable _ _ _ _) as [candidates|] eqn:Efirst; [|done].
  destruct (rngNext rng) as [u rng1].
  destruct (Js.index candidates _) as [choice|] eqn:Echoice; [|done].
  intros [= <- <-]. apply index_elem_of in Echoice.
  exists (Candidate.idx choice), (Candidate.game choice). split; [|split; [done|]].
  - by eapply firstFlippable_sound.
  - by eapply firstFlippable_unpinned.
Qed.

Lemma optimizeLoop_fixtures locks budget : forall games rng flips games' flips',
  optimizeLoop locks budget games rng flips = Normal (games', flips') ->
  Forall2 sameFixture games games' /\
  flips <= flips' <= flips + Z.of_nat budget /\
  forall i, fullyPinned (locks !! Z.of_nat i) = true -> games' !! i = games !! i.
Proof.
  induction budget as [|budget IH]; intros games rng flips games' flips'; cbn [optimizeLoop].
  - intros [= <- <-]. split; [apply sameFixture_refl|]. split; [lia|done].
  - destruct (optimizeStep locks games rng) as [|games1 rng1|] eqn:Estep; [| |done].
    + intros [= <- <-]. split; [apply sameFixture_refl|]. split; [lia|done].
    + intros Hloop. destruct (IH _ _ _ _ _ Hloop) as (Hfix & Hflips & Hpin).
      destruct (optimizeStep_flip _ _ _ _ _ Estep) as (i & g & Hi & -> & Hfree).
      split; [|split; [lia|]].
      * eapply sameFixture_trans; [by apply sameFixture_insert|done].
      * intros j Hj. rewrite (Hpin j Hj). apply list_lookup_insert_ne. intros ->. congruence.
Qed.

Lemma gameLocks_lookup locks count i :
  (i < count)%nat -> gameLocks locks count !! Z.of_nat i = locks !! Z.of_nat i.
Proof.
  intros Hlt. unfold gameLocks. destruct (locks !! Z.of_nat i) as [lock|] eqn:E.
  - apply map_lookup_filter_Some. split; [done|]. cbn [fst]. lia.
  - apply map_lookup_filter_None. left. done.
Qed.

Lemma optimizer_swaps_sides_only games lockRequirements seed maxFlips games' flips :
  optimizeHomeAwayBalance games lockRequirements seed maxFlips = Normal (games', flips) ->
  Forall2 sameFixture games games' /\
  0 <= flips <= Z.max 0 maxFlips /\
  forall i, fullyPinned (lockRequirements !! Z.of_nat i) = true -> games' !! i = games !! i.
Proof.
  unfold optimizeHomeAwayBalance. intros Hloop.
  destruct (optimizeLoop_fixtures _ _ _ _ _ _ _ Hloop) as (Hfix & Hflips & Hpin).
  split; [done|]. split; [lia|]. intros i Hi.
  destruct (decide (i < length games)%nat) as [Hlt|Hge].
  - apply Hpin. by rewrite gameLocks_lookup.
  - rewrite (lookup_ge_None_2 games) by lia. apply lookup_ge_None_2.
    rewrite <- (Forall2_length _ _ _ Hfix). lia.
Qed.

Lemma sameFixture_labels games games' :
  Forall2 sameFixture games games' -> map labelOfGame games' = map labelOfGame games.
Proof.
  induction 1 as [|g g' games games' Hg _ IH]; [done|]. cbn [map]. rewrite IH. f_equal.
  by destruct Hg as [-> | ->].
Qed.

Lemma opposes_flip a b g : opposes a b (flipGame g) = opposes a b g.
Proof.
  unfold opposes, flipGame. cbn [Game.away Game.home].
  destruct (String.eqb (Game.away g) a), (String.eqb (Game.home g) b),
    (String.eqb (Game.away g) b), (String.eqb (Game.home g) a); reflexivity.
Qed.

Lemma sameFixture_meetings games games' a b :
  Forall2 sameFixture games games' -> meetings games' a b = meetings games a b.
Proof.
  unfold meetings. intros Hfix. f_equal.
  induction Hfix as [|g g' games games' Hg _ IH]; [done|]. cbn [List.filter].
  assert (opposes a b g' = opposes a b g) as ->.
  { destruct Hg as [-> | ->]; [done|]. apply opposes_flip. }
  destruct (opposes a b g); cbn [length]; by rewrite IH.
Qed.

Lemma fold_setAdd l : forall acc,
  NoDup acc ->
  NoDup (fold_left setAdd l acc) /\
  forall x, x ∈ fold_left setAdd l acc <-> x ∈ acc \/ x ∈ l.
Proof.
  induction l as [|y l IH]; intros acc Hnd; cbn [fold_left].
  - split; [done|]. intros x. rewrite elem_of_nil. tauto.
  - assert (NoDup (setAdd acc y) /\ forall x, x ∈ setAdd acc y <-> x ∈ acc \/ x = y) as [Hnd' Hin].
    { unfold setAdd. destruct (decide (y ∈ acc)) as [Hy|Hy].
      - split; [done|]. intros x. split; [tauto|]. intros [?| ->]; done.
      - split.
        + apply NoDup_app. split; [done|]. split; [|apply NoDup_singleton].
          intros x Hx ->%list_elem_of_singleton. done.
        + intros x. by rewrite elem_of_app, list_elem_of_singleton. }
    destruct (IH _ Hnd') as [Hnd'' Hin'']. split; [done|].
    intros x. rewrite Hin'', Hin, elem_of_cons. tauto.
Qed.

Lemma toTeamArray_NoDup teams : NoDup (toTeamArray teams).
Proof. apply fold_setAdd, NoDup_nil_2. Qed.

Lemma toTeamArray_elem_of teams x : x ∈ toTeamArray teams <-> x ∈ teams.
Proof.
  unfold toTeamArray. destruct (fold_setAdd teams [] (NoDup_nil_2)) as [_ Hin].
  rewrite Hin, elem_of_nil. tauto.
Qed.

Lemma setAdd_fresh acc y : y ∉ acc -> setAdd acc y = (acc ++ [y])%list.
Proof. intros Hy. unfold setAdd. by rewrite decide_False. Qed.

Lemma toTeamArray_fixes_NoDup teams : NoDup teams -> toTeamArray teams = teams.
Proof.
  unfold toTeamArray. 
  assert (forall l acc, NoDup (acc ++ l) -> fold_left setAdd l acc = (acc ++ l)%list) as Hgen.
  { induction l as [|y l IH]; intros acc Hnd; cbn [fold_left]; [by rewrite app_nil_r|].
    rewrite setAdd_fresh.
    - rewrite IH; rewrite <- app_assoc; done.
    - apply NoDup_app in Hnd as (_ & Hdisj & _). intros Hy. apply (Hdisj y Hy). by left. }
  intros Hnd. by apply (Hgen teams []).
Qed.

Section RetryLoop.
Context `{Host}.

Lemma attemptsFrom_built rq teams seed budget : forall attempt failures schedule,
  attemptsFrom rq teams seed budget attempt failures = Built schedule ->
  exists k result,
    (attempt <= k < attempt + budget)%nat /\
    attemptOf rq teams seed k = inl result /\
    (verifyNoDoubleheaders (Success.games result)).1 = true /\
    (forall j, (attempt <= j < k)%nat -> attemptRejected (attemptOf rq teams seed j)) /\
    Schedule.attempts schedule = S k /\
    Schedule.seed schedule = attemptSeed seed k /\
    Schedule.stats schedule = Success.stats result /\
    Schedule.homeAwayCounts schedule = Success.homeAwayCounts result /\
    ((Schedule.games schedule = Success.games result /\ Schedule.homeAwayFlips schedule = 0) \/
     (Request.optimizeHomeAway rq = true /\
      optimizeHomeAwayBalance (Success.games result) (Request.lockRequirements rq)
        (attemptSeed seed k ++ "-optimize") 100 =
      Normal (Schedule.games schedule, Schedule.homeAwayFlips schedule))).
Proof.
  induction budget as [|budget IH]; intros attempt failures schedule.
  - cbn [attemptsFrom]. by destruct failures.
  - rewrite attemptsFrom_S. cbv zeta. fold (attemptOf rq teams seed attempt).
    assert (forall fs, attemptRejected (attemptOf rq teams seed attempt) ->
              attemptsFrom rq teams seed budget (S attempt) fs = Built schedule ->
              exists k result,
                (attempt <= k < attempt + S budget)%nat /\
                attemptOf rq teams seed k = inl result /\
                (verifyNoDoubleheaders (Success.games result)).1 = true /\
                (forall j, (attempt <= j < k)%nat -> attemptRejected (attemptOf rq teams seed j)) /\
                Schedule.attempts schedule = S k /\
                Schedule.seed schedule = attemptSeed seed k /\
                Schedule.stats schedule = Success.stats result /\
                Schedule.homeAwayCounts schedule = Success.homeAwayCounts result /\
                ((Schedule.games schedule = Success.games result /\
                  Schedule.homeAwayFlips schedule = 0) \/
                 (Request.optimizeHomeAway rq = true /\
                  optimizeHomeAwayBalance (Success.games result) (Request.lockRequirements rq)
                    (attemptSeed seed k ++ "-optimize") 100 =
                  Normal (Schedule.games schedule, Schedule.homeAwayFlips schedule)))) as Hnext.
    { intros fs Hrej Hrest.
      destruct (IH _ _ _ Hrest) as (k & result & Hk & Htry & Hvalid & Hearlier & Hrestk).
      exists k, result. split; [lia|]. split; [done|]. split; [done|]. split; [|done].
      intros j Hj. destruct (decide (j = attempt)) as [->|Hne]; [done|]. apply Hearlier. lia. }
    destruct (attemptOf rq teams seed attempt) as [result|failure] eqn:Etry; [|by apply Hnext].
    destruct (verifyNoDoubleheaders (Success.games result)).1 eqn:Evalid; cbn [negb];
      [|by apply Hnext].
    assert (forall games flips,
              (games = Success.games result /\ flips = 0) \/
              (Request.optimizeHomeAway rq = true /\
               optimizeHomeAwayBalance (Success.games result) (Request.lockRequirements rq)
                 (attemptSeed seed attempt ++ "-optimize") 100 = Normal (games, flips)) ->
              Built (Schedule.mk games (Success.stats result) (Success.homeAwayCounts result)
                       (attemptSeed seed attempt) (attempt + 1) flips) = Built schedule ->
              exists k result0,
                (attempt <= k < attempt + S budget)%nat /\
                attemptOf rq teams seed k = inl result0 /\
                (verifyNoDoubleheaders (Success.games result0)).1 = true /\
                (forall j, (attempt <= j < k)%nat -> attemptRejected (attemptOf rq teams seed j)) /\
                Schedule.attempts schedule = S k /\
                Schedule.seed schedule = attemptSeed seed k /\
                Schedule.stats schedule = Success.stats result0 /\
                Schedule.homeAwayCounts schedule = Success.homeAwayCounts result0 /\
                ((Schedule.games schedule = Success.games result0 /\
                  Schedule.homeAwayFlips schedule = 0) \/
                 (Request.optimizeHomeAway rq = true /\
                  optimizeHomeAwayBalance (Success.games result0) (Request.lockRequirements rq)
                    (attemptSeed seed k ++ "-optimize") 100 =
                  Normal (Schedule.games schedule, Schedule.homeAwayFlips schedule)))) as Hhere.
    { intros games flips Hhow [= <-]. exists attempt, result.
      cbn [Schedule.attempts Schedule.seed Schedule.stats Schedule.homeAwayCounts Schedule.games
           Schedule.homeAwayFlips].
      split; [lia|]. split; [done|]. split; [done|]. split; [intros j Hj; lia|].
      split; [lia|]. repeat split; try done. }
    destruct (Request.optimizeHomeAway rq) eqn:Eopt.
    + destruct (optimizeHomeAwayBalance _ _ _ _) as [[optimized flips]|] eqn:Erun; [|done].
      destruct (verifyNoDoubleheaders optimized).1; cbn [negb]; apply Hhere; auto.
    + apply Hhere. auto.
Qed.
End RetryLoop.

Section RetryOutcomes.
Context `{Host}.

Lemma attemptsFrom_unable rq teams seed budget : forall attempt failures m fs,
  attemptsFrom rq teams seed budget attempt failures = UnableToBuild m fs ->
  m = Request.maxAttempts rq /\
  exists new,
    fs = (failures ++ new)%list /\ length new = budget /\
    forall j f, new !! j = Some f ->
      FailedAttempt.attempt f = S (attempt + j) /\
      FailedAttempt.seed f = attemptSeed seed (attempt + j) /\
      attemptRejected (attemptOf rq teams seed (attempt + j)).
Proof.
  induction budget as [|budget IH]; intros attempt failures m fs.
  - cbn [attemptsFrom]. destruct failures as [|f0 rest]; [done|].
    intros [= <- <-]. split; [done|]. exists []. split; [by rewrite app_nil_r|]. split; [done|].
    intros j f Hj. done.
  - rewrite attemptsFrom_S. cbv zeta. fold (attemptOf rq teams seed attempt).
    assert (forall f, FailedAttempt.attempt f = (attempt + 1)%nat ->
              FailedAttempt.seed f = attemptSeed seed attempt ->
              attemptRejected (attemptOf rq teams seed attempt) ->
              attemptsFrom rq teams seed budget (S attempt) (failures ++ [f]) = UnableToBuild m fs ->
              m = Request.maxAttempts rq /\
              exists new,
                fs = (failures ++ new)%list /\ length new = S budget /\
                forall j f, new !! j = Some f ->
                  FailedAttempt.attempt f = S (attempt + j) /\
                  FailedAttempt.seed f = attemptSeed seed (attempt + j) /\
                  attemptRejected (attemptOf rq teams seed (attempt + j))) as Hnext.
    { intros f Hnum Hseed Hrej Hrest.
      destruct (IH _ _ _ _ Hrest) as (Hm & new & -> & Hlen & Hall). split; [done|].
      exists (f :: new). split; [by rewrite <- app_assoc|]. split; [cbn [length]; lia|].
      intros [|j] f' Hj.
      - injection Hj as <-. rewrite Nat.add_0_r. split; [lia|done].
      - cbn [lookup list_lookup] in Hj. destruct (Hall j f' Hj) as (? & ? & ?).
        replace (attempt + S j)%nat with (S attempt + j)%nat by lia. done. }
    destruct (attemptOf rq teams seed attempt) as [result|failure] eqn:Etry.
    + destruct (verifyNoDoubleheaders (Success.games result)).1 eqn:Evalid; cbn [negb].
      * destruct (Request.optimizeHomeAway rq); [|done].
        destruct (optimizeHomeAwayBalance _ _ _ _) as [[optimized flips]|]; [|done].
        by destruct (verifyNoDoubleheaders optimized).1.
      * by apply Hnext.
    + by apply Hnext.
Qed.

(** The schedule returned is the work of the first attempt that succeeds
    without a doubleheader. *)
Lemma generate_built now rq schedule :
  generateBalancedSchedule now rq = Built schedule ->
  exists seed k result,
    seed = match Request.seed rq with Some seed => seed | None => pretty now end /\
    (k < Z.to_nat (Request.maxAttempts rq))%nat /\
    attemptOf rq (toTeamArray (Request.teams rq)) seed k = inl result /\
    (verifyNoDoubleheaders (Success.games result)).1 = true /\
    (forall j, (j < k)%nat ->
       attemptRejected (attemptOf rq (toTeamArray (Request.teams rq)) seed j)) /\
    Schedule.attempts schedule = S k /\
    Schedule.seed schedule = attemptSeed seed k /\
    ((Schedule.games schedule = Success.games result /\ Schedule.homeAwayFlips schedule = 0) \/
     (Request.optimizeHomeAway rq = true /\
      optimizeHomeAwayBalance (Success.games result) (Request.lockRequirements rq)
        (attemptSeed seed k ++ "-optimize") 100 =
      Normal (Schedule.games schedule, Schedule.homeAwayFlips schedule))).
Proof.
  unfold generateBalancedSchedule. destruct (toTeamArray (Request.teams rq)) eqn:Eteams; [done|].
  destruct (Request.slots rq) eqn:Eslots; [done|]. intros Hloop.
  destruct (attemptsFrom_built _ _ _ _ _ _ _ Hloop)
    as (k & result & Hk & Htry & Hvalid & Hearlier & Hatt & Hseed & _ & _ & Hhow).
  eexists _, k, result. split; [reflexivity|]. split; [lia|]. split; [done|].
  split; [done|]. split; [intros j Hj; apply Hearlier; lia|]. done.
Qed.

Lemma generate_fixtures now rq schedule :
  generateBalancedSchedule now rq = Built schedule ->
  exists seed k result,
    attemptOf rq (toTeamArray (Request.teams rq)) seed k = inl result /\
    Forall2 sameFixture (Success.games result) (Schedule.games schedule) /\
    0 <= Schedule.homeAwayFlips schedule <= 100.
Proof.
  intros Hgen. destruct (generate_built _ _ _ Hgen)
    as (seed & k & result & _ & _ & Htry & _ & _ & _ & _ & Hhow).
  exists seed, k, result. split; [done|].
  destruct Hhow as [[-> ->]|[_ Hopt]].
  - split; [apply sameFixture_refl|lia].
  - destruct (optimizer_swaps_sides_only _ _ _ _ _ _ Hopt) as (Hfix & Hflips & _).
    split; [done|lia].
Qed.

Lemma generate_labels now rq schedule :
  generateBalancedSchedule now rq = Built schedule ->
  map labelOfGame (Schedule.games schedule) = map labelOfSlot (Request.slots rq).
Proof.
  intros Hgen. destruct (generate_fixtures _ _ _ Hgen) as (seed & k & result & Htry & Hfix & _).
  rewrite (sameFixture_labels _ _ Hfix). by eapply attempt_labels_success.
Qed.

Lemma generate_ledger now rq schedule :
  sideless (Request.lockRequirements rq) -> 0 <= Request.gamesPerPair rq ->
  generateBalancedSchedule now rq = Built schedule ->
  forall a b, a ∈ Request.teams rq -> b ∈ Request.teams rq -> a <> b ->
    meetings (Schedule.games schedule) a b = Request.gamesPerPair rq.
Proof.
  intros Hsideless Hg Hgen a b Ha Hb Hne.
  destruct (generate_fixtures _ _ _ Hgen) as (seed & k & result & Htry & Hfix & _).
  rewrite (sameFixture_meetings _ _ a b Hfix).
  eapply sideless_attempt_settles_ledger; try exact Htry; try done.
  - apply toTeamArray_NoDup.
  - by apply toTeamArray_elem_of.
  - by apply toTeamArray_elem_of.
Qed.

Lemma generate_honours_locks now rq schedule :
  sideless (Request.lockRequirements rq) ->
  generateBalancedSchedule now rq = Built schedule ->
  forall i slot game lock team,
    Request.slots rq !! i = Some slot -> Schedule.games schedule !! i = Some game ->
    Request.lockRequirements rq !! default (Z.of_nat i) (Slot.index slot) = Some lock ->
    team ∈ Lock.requiredTeams lock ->
    team = Game.away game \/ team = Game.home game.
Proof.
  intros Hsideless Hgen i slot game lock team Hslot Hgame Hlock Hin.
  destruct (generate_fixtures _ _ _ Hgen) as (seed & k & result & Htry & Hfix & _).
  destruct (Forall2_lookup_r _ _ _ _ _ Hfix Hgame) as (game0 & Hgame0 & Hsame).
  assert (team = Game.away game0 \/ team = Game.home game0) as Hold.
  { eapply sideless_attempt_honours_locks; try exact Htry; done. }
  destruct Hsame as [-> | ->]; [done|]. cbn [flipGame Game.away Game.home]. tauto.
Qed.

Lemma generate_exhausted now rq m failures :
  generateBalancedSchedule now rq = UnableToBuild m failures ->
  m = Request.maxAttempts rq /\ 0 < m /\
  length failures = Z.to_nat m /\
  forall j f, failures !! j = Some f ->
    FailedAttempt.attempt f = S j /\
    FailedAttempt.seed f =
      attemptSeed (match Request.seed rq with Some seed => seed | None => pretty now end) j /\
    attemptRejected
      (attemptOf rq (toTeamArray (Request.teams rq))
         (match Request.seed rq with Some seed => seed | None => pretty now end) j).
Proof.
  unfold generateBalancedSchedule. destruct (toTeamArray (Request.teams rq)) eqn:Eteams; [done|].
  destruct (Request.slots rq) eqn:Eslots; [done|]. intros Hloop.
  destruct (Z.to_nat (Request.maxAttempts rq)) as [|n] eqn:En; [done|].
  destruct (attemptsFrom_unable _ _ _ _ _ _ _ _ Hloop) as (-> & new & -> & Hlen & Hall).
  rewrite <- En in *. cbn [app]. split; [done|]. split; [lia|]. split; [done|].
  intros j f Hj. by apply (Hall j f Hj).
Qed.

Lemma generate_without_attempts now rq :
  Request.teams rq <> [] -> Request.slots rq <> [] -> Request.maxAttempts rq <= 0 ->
  generateBalancedSchedule now rq = RaisedTypeError.
Proof.
  intros Hteams Hslots Hmax. unfold generateBalancedSchedule.
  destruct (toTeamArray (Request.teams rq)) eqn:Eteams.
  - exfalso. destruct (Request.teams rq) as [|t ts]; [done|].
    assert (t ∈ toTeamArray (t :: ts)) as Hin by (apply toTeamArray_elem_of; by left).
    rewrite Eteams in Hin. by apply elem_of_nil in Hin.
  - destruct (Request.slots rq); [done|]. by rewrite Z2Nat.nonpos.
Qed.
End RetryOutcomes.

(** * The command line: lock requirements and slot adherence *)

Lemma setAdd_elem_of acc y x : x ∈ setAdd acc y <-> x ∈ acc \/ x = y.
Proof.
  unfold setAdd. destruct (decide (y ∈ acc)) as [Hy|Hy].
  - split; [tauto|]. intros [?| ->]; done.
  - by rewrite elem_of_app, list_elem_of_singleton.
Qed.

Lemma setAdd_NoDup acc y : NoDup acc -> NoDup (setAdd acc y).
Proof.
  intros Hnd. unfold setAdd. destruct (decide (y ∈ acc)) as [Hy|Hy]; [done|].
  apply NoDup_app. split; [done|]. split; [|apply NoDup_singleton].
  intros x Hx ->%list_elem_of_singleton. done.
Qed.

Section Building.
Variables (games : list Game.t) (slots : list Slot.t) (lockedTeams : list string).

Let lockedSet : gset string := list_to_set lockedTeams.
Let byKey := slotIndexByKey slots.

Lemma has_locked team : has lockedSet team = true <-> team ∈ lockedTeams.
Proof. unfold has, lockedSet. rewrite bool_decide_eq_true. apply elem_of_list_to_set. Qed.

Lemma lockGame_sound requirements game :
  game ∈ games ->
  (forall k lock, requirements !! k = Some lock -> builtFrom games slots lockedTeams k lock) ->
  forall k lock, lockGame lockedSet byKey requirements game !! k = Some lock ->
                 builtFrom games slots lockedTeams k lock.
Proof.
  intros Hgame Hold k lock. unfold lockGame.
  destruct (byKey !! slotKey (Game.date game) (Game.slot game)) as [slotIndex|] eqn:Ekey;
    [|apply Hold].
  destruct (has lockedSet (Game.away game) || has lockedSet (Game.home game)) eqn:Ematched;
    [|apply Hold].
  destruct (decide (slotIndex = k)) as [->|Hne]; [|rewrite lookup_insert_ne by done; apply Hold].
  rewrite lookup_insert_eq. intros [= <-]. cbn [Lock.away Lock.home Lock.requiredTeams].
  set (entry0 := default [] (Lock.requiredTeams <$> requirements !! k)).
  assert (NoDup entry0 /\
          forall team, team ∈ entry0 ->
            team ∈ lockedTeams /\
            exists game, game ∈ games /\
              slotIndexByKey slots !! slotKey (Game.date game) (Game.slot game) = Some k /\
              (team = Game.away game \/ team = Game.home game)) as [Hnd0 Hin0].
  { unfold entry0. destruct (requirements !! k) as [old|] eqn:Eold; cbn [fmap option_fmap option_map default].
    - destruct (Hold k old Eold) as (_ & _ & Hnd & _ & Hin). done.
    - split; [apply NoDup_nil_2|]. intros team Hin. by apply elem_of_nil in Hin. }
  split; [done|]. split; [done|].
  set (entry1 := if has lockedSet (Game.away game) then setAdd entry0 (Game.away game) else entry0).
  set (entry2 := if has lockedSet (Game.home game) then setAdd entry1 (Game.home game) else entry1).
  assert (NoDup entry2) as Hnd2.
  { unfold entry2, entry1. destruct (has lockedSet (Game.home game)), (has lockedSet (Game.away game));
      repeat apply setAdd_NoDup; done. }
  assert (forall team, team ∈ entry2 ->
            team ∈ entry0 \/
            (team = Game.away game /\ has lockedSet (Game.away game) = true) \/
            (team = Game.home game /\ has lockedSet (Game.home game) = true)) as Hin2.
  { intros team. unfold entry2, entry1.
    destruct (has lockedSet (Game.home game)), (has lockedSet (Game.away game));
      rewrite ?setAdd_elem_of; tauto. }
  split; [done|]. split.
  - intros Hnil. change (entry2 = []) in Hnil. apply orb_true_iff in Ematched.
    assert (Game.away game ∈ entry2 \/ Game.home game ∈ entry2) as [Hin|Hin].
    { unfold entry2, entry1. destruct Ematched as [-> | ->].
      - left. destruct (has lockedSet (Game.home game)); rewrite ?setAdd_elem_of; tauto.
      - right. rewrite setAdd_elem_of. tauto. }
    all: rewrite Hnil in Hin; by apply elem_of_nil in Hin.
  - intros team Hin. change (team ∈ entry2) in Hin.
    destruct (Hin2 team Hin) as [Hold0|[[-> Hl]|[-> Hl]]].
    + by apply Hin0.
    + split; [by apply has_locked|]. exists game. auto.
    + split; [by apply has_locked|]. exists game. auto.
Qed.

Lemma lockGame_grows requirements game k lock team :
  requirements !! k = Some lock -> team ∈ Lock.requiredTeams lock ->
  exists lock', lockGame lockedSet byKey requirements game !! k = Some lock' /\
                team ∈ Lock.requiredTeams lock'.
Proof.
  intros Hk Hin. unfold lockGame.
  destruct (byKey !! slotKey (Game.date game) (Game.slot game)) as [slotIndex|] eqn:Ekey;
    [|by exists lock].
  destruct (has lockedSet (Game.away game) || has lockedSet (Game.home game)) eqn:Ematched;
    [|by exists lock].
  destruct (decide (slotIndex = k)) as [->|Hne];
    [|exists lock; by rewrite lookup_insert_ne].
  rewrite lookup_insert_eq. eexists. split; [done|]. cbn [Lock.requiredTeams].
  rewrite Hk. cbn [fmap option_fmap option_map default].
  destruct (has lockedSet (Game.home game)), (has lockedSet (Game.away game));
    rewrite ?setAdd_elem_of; tauto.
Qed.

Lemma lockGame_records requirements game k team :
  byKey !! slotKey (Game.date game) (Game.slot game) = Some k ->
  team ∈ lockedTeams -> team = Game.away game \/ team = Game.home game ->
  exists lock, lockGame lockedSet byKey requirements game !! k = Some lock /\
               team ∈ Lock.requiredTeams lock.
Proof.
  intros Hkey Hlocked Hplays. apply has_locked in Hlocked. unfold lockGame. rewrite Hkey.
  assert (has lockedSet (Game.away game) || has lockedSet (Game.home game) = true) as ->.
  { destruct Hplays as [<- | <-]; rewrite Hlocked; [done|apply orb_true_r]. }
  rewrite lookup_insert_eq. eexists. split; [done|]. cbn [Lock.requiredTeams].
  destruct Hplays as [<- | <-]; rewrite Hlocked.
  - destruct (has lockedSet (Game.home game)); rewrite ?setAdd_elem_of; tauto.
  - rewrite setAdd_elem_of. tauto.
Qed.

Lemma lockGames_complete gs : forall requirements,
  (forall k lock team, requirements !! k = Some lock -> team ∈ Lock.requiredTeams lock ->
     exists lock', fold_left (lockGame lockedSet byKey) gs requirements !! k = Some lock' /\
                   team ∈ Lock.requiredTeams lock') /\
  (forall game k team, game ∈ gs ->
     byKey !! slotKey (Game.date game) (Game.slot game) = Some k ->
     team ∈ lockedTeams -> team = Game.away game \/ team = Game.home game ->
     exists lock, fold_left (lockGame lockedSet byKey) gs requirements !! k = Some lock /\
                  team ∈ Lock.requiredTeams lock).
Proof.
  induction gs as [|g gs IH]; intros requirements; cbn [fold_left].
  - split; [intros k lock team Hk Hin; by exists lock|]. intros game k team Hin.
    by apply elem_of_nil in Hin.
  - destruct (IH (lockGame lockedSet byKey requirements g)) as [Hkeep Hnew]. split.
    + intros k lock team Hk Hin.
      destruct (lockGame_grows requirements g k lock team Hk Hin) as (lock' & Hk' & Hin').
      by eapply Hkeep.
    + intros game k team [-> | Hin]%elem_of_cons Hkey Hlocked Hplays.
      * destruct (lockGame_records requirements g k team Hkey Hlocked Hplays) as (lock & Hk & Hin).
        by eapply Hkeep.
      * by eapply Hnew.
Qed.

Lemma lockGames_sound gs : forall requirements,
  (forall game, game ∈ gs -> game ∈ games) ->
  (forall k lock, requirements !! k = Some lock -> builtFrom games slots lockedTeams k lock) ->
  forall k lock, fold_left (lockGame lockedSet byKey) gs requirements !! k = Some lock ->
                 builtFrom games slots lockedTeams k lock.
Proof.
  induction gs as [|g gs IH]; intros requirements Hsub Hold; cbn [fold_left]; [done|].
  apply IH.
  - intros game Hin. apply Hsub. by right.
  - apply lockGame_sound; [|done]. apply Hsub. by left.
Qed.
End Building.

Lemma buildLockRequirements_sound games slots lockedTeams k lock :
  buildLockRequirements games slots lockedTeams !! k = Some lock ->
  builtFrom games slots lockedTeams k lock.
Proof.
  unfold buildLockRequirements. destruct lockedTeams as [|t ts] eqn:E; [by rewrite lookup_empty|].
  rewrite <- E. apply lockGames_sound; [done|]. intros k' lock'. by rewrite lookup_empty.
Qed.

Lemma buildLockRequirements_sideless games slots lockedTeams :
  sideless (buildLockRequirements games slots lockedTeams).
Proof.
  intros k lock Hk. destruct (buildLockRequirements_sound _ _ _ _ _ Hk) as (-> & -> & _).
  done.
Qed.

Lemma buildLockRequirements_complete games slots lockedTeams game k team :
  game ∈ games ->
  slotIndexByKey slots !! slotKey (Game.date game) (Game.slot game) = Some k ->
  team ∈ lockedTeams -> team = Game.away game \/ team = Game.home game ->
  exists lock, buildLockRequirements games slots lockedTeams !! k = Some lock /\
               team ∈ Lock.requiredTeams lock.
Proof.
  intros Hgame Hkey Hlocked Hplays. unfold buildLockRequirements.
  destruct lockedTeams as [|t ts] eqn:E; [by apply elem_of_nil in Hlocked|]. rewrite <- E in *.
  destruct (lockGames_complete slots lockedTeams games ∅) as [_ Hnew]. by eapply Hnew.
Qed.

Lemma slotMismatches_nil games : forall i slotPairs,
  length games = length slotPairs ->
  (slotMismatches i games slotPairs = [] <->
   map labelOfGame games = map labelOfSlot slotPairs).
Proof.
  induction games as [|g games IH]; intros i [|s slotPairs] Hlen; cbn [length] in Hlen;
    try discriminate; cbn [slotMismatches map]; [done|].
  unfold labelOfGame at 1, labelOfSlot at 1.
  destruct (String.eqb_spec (Game.date g) (Slot.date s)) as [Hd|Hd],
           (String.eqb_spec (Game.slot g) (Slot.slot s)) as [Hs|Hs]; cbn [negb orb].
  - rewrite (IH (S i) slotPairs) by lia. rewrite Hd, Hs. split; [by intros ->|by intros [= ->]].
  - split; [done|]. intros [= _ ? _]. done.
  - split; [done|]. intros [= ? _ _]. done.
  - split; [done|]. intros [= ? _ _]. done.
Qed.

Lemma verifyTimeSlots_exact games slotPairs :
  Adherence.isExact (verifyTimeSlots games slotPairs) = true <->
  map labelOfGame games = map labelOfSlot slotPairs.
Proof.
  unfold verifyTimeSlots. cbn [Adherence.isExact]. rewrite andb_true_iff, Nat.eqb_eq. split.
  - intros [Hlen Hmis]. apply (slotMismatches_nil games 0%nat slotPairs Hlen).
    by destruct (slotMismatches 0 games slotPairs).
  - intros Hmap. assert (length games = length slotPairs) as Hlen.
    { apply (f_equal length) in Hmap. by rewrite !length_map in Hmap. }
    split; [done|]. apply (slotMismatches_nil games 0%nat slotPairs Hlen) in Hmap. by rewrite Hmap.
Qed.

(** ** Team statistics and the opponent check *)

Lemma mapGet_None {V} (m : list (string * V)) k : mapGet m k = None <-> k ∉ map fst m.
Proof.
  induction m as [|[k0 v0] m IH]; cbn [mapGet map fst].
  - split; [intros _ Hin; by apply elem_of_nil in Hin|done].
  - rewrite not_elem_of_cons. destruct (decide (k0 = k)) as [->|Hne].
    + split; [done|]. intros [? _]. done.
    + rewrite IH. split; [intros ?; split; [congruence|done]|tauto].
Qed.

Lemma mapSet_keys_same {V} (m : list (string * V)) k v :
  k ∈ map fst m -> map fst (mapSet m k v) = map fst m.
Proof.
  induction m as [|[k0 v0] m IH]; cbn [mapSet map fst]; intros Hin.
  - by apply elem_of_nil in Hin.
  - destruct (decide (k0 = k)) as [->|Hne]; cbn [map fst]; [done|].
    apply elem_of_cons in Hin as [->|Hin]; [done|]. by rewrite IH.
Qed.

Lemma mapSet_keys_new {V} (m : list (string * V)) k v :
  k ∉ map fst m -> map fst (mapSet m k v) = (map fst m ++ [k])%list.
Proof.
  induction m as [|[k0 v0] m IH]; cbn [mapSet map fst app]; intros Hin; [done|].
  apply not_elem_of_cons in Hin as [Hne Hin].
  destruct (decide (k0 = k)) as [->|_]; [done|]. cbn [map fst]. by rewrite IH.
Qed.

(** ** Opponent counts *)

Lemma ensureStats_keys stats team :
  map fst (ensureStats stats team).1 =
  if String.eqb team "" then map fst stats
  else if decide (team ∈ map fst stats) then map fst stats else (map fst stats ++ [team])%list.
Proof.
  unfold ensureStats. destruct (String.eqb team ""); [done|].
  destruct (mapGet stats team) as [entry|] eqn:E; cbn [fst].
  - rewrite decide_True; [done|]. apply mapGet_elem_of in E.
    apply list_elem_of_fmap. by exists (team, entry).
  - apply mapGet_None in E. rewrite decide_False by done. by apply mapSet_keys_new.
Qed.

Lemma ensureStats_flag stats team : (ensureStats stats team).2 = negb (String.eqb team "").
Proof. unfold ensureStats. destruct (String.eqb team ""); [done|]. by destruct (mapGet stats team). Qed.

Lemma ensureStats_count stats team a b :
  opponentCount (ensureStats stats team).1 a b = opponentCount stats a b.
Proof.
  unfold ensureStats. destruct (String.eqb team ""); [done|].
  destruct (mapGet stats team) as [entry|] eqn:E; cbn [fst]; [done|].
  unfold opponentCount. destruct (decide (team = a)) as [->|Hne].
  - by rewrite mapGet_mapSet_eq, E.
  - by rewrite mapGet_mapSet_ne.
Qed.

Lemma countGame_keys stats team : map fst (countGame stats team) = map fst stats.
Proof.
  unfold countGame. destruct (mapGet stats team) as [entry|] eqn:E; [|done].
  apply mapSet_keys_same. apply mapGet_elem_of in E. apply list_elem_of_fmap. by exists (team, entry).
Qed.

Lemma countGame_count stats team a b :
  opponentCount (countGame stats team) a b = opponentCount stats a b.
Proof.
  unfold countGame. destruct (mapGet stats team) as [entry|] eqn:E; [|done].
  unfold opponentCount. destruct (decide (team = a)) as [->|Hne].
  - by rewrite mapGet_mapSet_eq, E.
  - by rewrite mapGet_mapSet_ne.
Qed.

Lemma countOpponent_keys stats team opponent :
  map fst (countOpponent stats team opponent) = map fst stats.
Proof.
  unfold countOpponent. destruct (mapGet stats team) as [entry|] eqn:E; [|done].
  apply mapSet_keys_same. apply mapGet_elem_of in E. apply list_elem_of_fmap. by exists (team, entry).
Qed.

Lemma countOpponent_count stats team opponent a b :
  team ∈ map fst stats ->
  opponentCount (countOpponent stats team opponent) a b =
  opponentCount stats a b + (if String.eqb team a && String.eqb opponent b then 1 else 0).
Proof.
  intros Hin. unfold countOpponent. destruct (mapGet stats team) as [entry|] eqn:E.
  - unfold opponentCount. destruct (String.eqb_spec team a) as [->|Hne]; cbn [andb].
    + rewrite mapGet_mapSet_eq, E. cbn [mbind option_bind TeamStats.opponents].
      rewrite mapIncr_get. done.
    + rewrite mapGet_mapSet_ne by done. lia.
  - apply mapGet_None in E. done.
Qed.

Lemma ensureStats_elem_of stats t team :
  team ∈ map fst (ensureStats stats t).1 <-> team ∈ map fst stats \/ (team <> "" /\ team = t).
Proof.
  rewrite ensureStats_keys. destruct (String.eqb_spec t "") as [E|E].
  - split; [tauto|]. intros [?|[? ?]]; [done|congruence].
  - case_decide as Hin.
    + split; [tauto|]. intros [?|[? ->]]; done.
    + rewrite elem_of_app, list_elem_of_singleton. split; [|tauto].
      intros [?| ->]; [tauto|right; done].
Qed.

Lemma recordMeeting_keys stats game team :
  team ∈ map fst (recordMeeting stats game) <->
  team ∈ map fst stats \/ (team <> "" /\ (team = Game.away game \/ team = Game.home game)).
Proof.
  unfold recordMeeting.
  pose proof (ensureStats_elem_of stats (Game.away game) team) as K1.
  destruct (ensureStats stats (Game.away game)) as [stats1 away]. cbn [fst] in K1.
  pose proof (ensureStats_elem_of stats1 (Game.home game) team) as K2.
  destruct (ensureStats stats1 (Game.home game)) as [stats2 home]. cbn [fst] in K2.
  assert (team ∈ map fst stats2 <->
          team ∈ map fst stats \/ (team <> "" /\ (team = Game.away game \/ team = Game.home game)))
    as Hkeys by tauto.
  destruct (negb away || negb home); [done|].
  by rewrite countOpponent_keys, countOpponent_keys, countGame_keys, countGame_keys.
Qed.

Lemma recordMeeting_NoDup stats game :
  NoDup (map fst stats) -> NoDup (map fst (recordMeeting stats game)).
Proof.
  intros Hnd. unfold recordMeeting.
  pose proof (ensureStats_keys stats (Game.away game)) as K1.
  destruct (ensureStats stats (Game.away game)) as [stats1 away]. cbn [fst] in K1.
  assert (NoDup (map fst stats1)) as Hnd1.
  { rewrite K1. destruct (String.eqb _ _); [done|]. case_decide as Hin; [done|].
    apply NoDup_app. split; [done|]. split; [|apply NoDup_singleton].
    intros x Hx ->%list_elem_of_singleton. done. }
  pose proof (ensureStats_keys stats1 (Game.home game)) as K2.
  destruct (ensureStats stats1 (Game.home game)) as [stats2 home]. cbn [fst] in K2.
  assert (NoDup (map fst stats2)) as Hnd2.
  { rewrite K2. clear K1. destruct (String.eqb (Game.home game) ""); [done|].
    case_decide as Hin; [done|].
    apply NoDup_app. split; [done|]. split; [|apply NoDup_singleton].
    intros x Hx ->%list_elem_of_singleton. done. }
  destruct (negb away || negb home); [done|].
  by rewrite countOpponent_keys, countOpponent_keys, countGame_keys, countGame_keys.
Qed.

Lemma recordMeeting_count stats game a b :
  a <> "" -> b <> "" -> a <> b ->
  opponentCount (recordMeeting stats game) a b =
  opponentCount stats a b + (if opposes a b game then 1 else 0).
Proof.
  intros Ha Hb Hne. unfold recordMeeting.
  pose proof (ensureStats_count stats (Game.away game) a b) as C1.
  pose proof (ensureStats_flag stats (Game.away game)) as F1.
  pose proof (ensureStats_elem_of stats (Game.away game) (Game.away game)) as K1.
  destruct (ensureStats stats (Game.away game)) as [stats1 away]. cbn [fst snd] in C1, F1, K1.
  pose proof (ensureStats_count stats1 (Game.home game) a b) as C2.
  pose proof (ensureStats_flag stats1 (Game.home game)) as F2.
  pose proof (ensureStats_elem_of stats1 (Game.home game) (Game.home game)) as K2.
  pose proof (ensureStats_elem_of stats1 (Game.home game) (Game.away game)) as K2'.
  destruct (ensureStats stats1 (Game.home game)) as [stats2 home]. cbn [fst snd] in C2, F2, K2, K2'.
  subst away home. rewrite !negb_involutive. unfold opposes.
  destruct (String.eqb_spec (Game.away game) "") as [Ea|Ea]; cbn [orb].
  { rewrite C2, C1.
    destruct (String.eqb_spec (Game.away game) a), (String.eqb_spec (Game.away game) b);
      cbn [andb orb]; try congruence; lia. }
  destruct (String.eqb_spec (Game.home game) "") as [Eh|Eh].
  { rewrite C2, C1.
    destruct (String.eqb_spec (Game.home game) a), (String.eqb_spec (Game.home game) b);
      rewrite ?andb_false_r; cbn [andb orb]; try congruence; lia. }
  assert (Game.away game ∈ map fst stats2) as Hina by tauto.
  assert (Game.home game ∈ map fst stats2) as Hinh by tauto.
  rewrite countOpponent_count
    by (by rewrite countOpponent_keys, countGame_keys, countGame_keys).
  rewrite countOpponent_count by (by rewrite countGame_keys, countGame_keys).
  rewrite !countGame_count, C2, C1.
  destruct (String.eqb_spec (Game.away game) a), (String.eqb_spec (Game.home game) b),
           (String.eqb_spec (Game.home game) a), (String.eqb_spec (Game.away game) b);
    cbn [andb orb]; try congruence; lia.
Qed.

Lemma buildTeamStats_facts games : forall stats,
  NoDup (map fst stats) ->
  NoDup (map fst (fold_left recordMeeting games stats)) /\
  (forall team, team ∈ map fst (fold_left recordMeeting games stats) <->
                team ∈ map fst stats \/ (team <> "" /\ fields games team)) /\
  (forall a b, a <> "" -> b <> "" -> a <> b ->
     opponentCount (fold_left recordMeeting games stats) a b =
     opponentCount stats a b + meetings games a b).
Proof.
  induction games as [|g games IH]; intros stats Hnd; cbn [fold_left].
  - split; [done|]. split.
    + intros team. split; [tauto|]. intros [?|[_ (game & Hin & _)]]; [done|].
      by apply elem_of_nil in Hin.
    + intros. unfold meetings. cbn. lia.
  - destruct (IH (recordMeeting stats g) (recordMeeting_NoDup _ _ Hnd)) as (Hnd' & Hkeys & Hcount).
    split; [done|]. split.
    + intros team. rewrite Hkeys, recordMeeting_keys. unfold fields. split.
      * intros [[?|[Hne Hg]]|[Hne (game & Hin & Hg)]]; [by left| |].
        -- right. split; [done|]. exists g. split; [by left|done].
        -- right. split; [done|]. exists game. split; [by right|done].
      * intros [?|[Hne (game & [-> | Hin]%elem_of_cons & Hg)]]; [tauto|tauto|].
        right. split; [done|]. by exists game.
    + intros a b Ha Hb Hne. rewrite Hcount, recordMeeting_count by done.
      unfold meetings. cbn [List.filter]. destruct (opposes a b g); cbn [length]; lia.
Qed.

Lemma buildTeamStats_keys games :
  NoDup (map fst (buildTeamStats games)) /\
  forall team, team ∈ map fst (buildTeamStats games) <-> team <> "" /\ fields games team.
Proof.
  destruct (buildTeamStats_facts games [] (NoDup_nil_2 (A:=string))) as (Hnd & Hkeys & _).
  split; [done|]. intros team. unfold buildTeamStats. rewrite Hkeys. split; [|tauto].
  intros [Hin|?]; [|done]. by apply elem_of_nil in Hin.
Qed.

Lemma buildTeamStats_count games a b :
  a <> "" -> b <> "" -> a <> b -> opponentCount (buildTeamStats games) a b = meetings games a b.
Proof.
  intros Ha Hb Hne.
  destruct (buildTeamStats_facts games [] (NoDup_nil_2 (A:=string))) as (_ & _ & Hcount).
  unfold buildTeamStats. by rewrite Hcount.
Qed.

Lemma meetings_sym games a b : meetings games a b = meetings games b a.
Proof.
  unfold meetings. f_equal. f_equal. apply filter_ext. intros g. apply opposes_sym.
Qed.

Lemma opponentIssues_nil stats e teams :
  NoDup teams ->
  (opponentIssues stats e teams = [] <->
   forall a b, a ∈ teams -> b ∈ teams -> a <> b ->
     opponentCount stats a b = e /\ opponentCount stats b a = e).
Proof.
  induction teams as [|x rest IH]; intros Hnd; cbn [opponentIssues].
  - split; [|done]. intros _ a b Ha. by apply elem_of_nil in Ha.
  - apply NoDup_cons in Hnd as [Hx Hnd]. rewrite app_nil, (IH Hnd).
    match goal with |- context [omap ?f rest] =>
      assert (omap f rest = [] <->
              forall b, b ∈ rest -> opponentCount stats x b = e /\ opponentCount stats b x = e)
        as Hscan
    end.
    { clear. induction rest as [|y rest IH]; cbn [omap list_omap].
      - split; [|done]. intros _ b Hb. by apply elem_of_nil in Hb.
      - cbv zeta. destruct (Z.eqb_spec (opponentCount stats x y) (opponentCount stats y x)) as [E1|E1];
          destruct (Z.eqb_spec (opponentCount stats x y) e) as [E2|E2]; cbn [negb orb].
        + split.
          * intros Hall b [-> | Hb]%elem_of_cons; [split; congruence|].
            by apply (proj1 IH Hall).
          * intros Hall. apply (proj2 IH). intros b Hb. apply Hall. by right.
        + split; [done|]. intros Hall. destruct (Hall y) as [? _]; [by left|done].
        + split; [done|]. intros Hall. destruct (Hall y) as [? ?]; [by left|congruence].
        + split; [done|]. intros Hall. destruct (Hall y) as [? ?]; [by left|congruence]. }
    split.
    + intros [Hhead Hrest]. pose proof (proj1 Hscan Hhead) as Hfirst. clear Hhead.
      rename Hfirst into Hhead.
      intros a b [-> | Ha]%elem_of_cons [-> | Hb]%elem_of_cons Hne.
      * done.
      * by apply Hhead.
      * destruct (Hhead a Ha). done.
      * by apply Hrest.
    + intros Hall. split.
      * apply (proj2 Hscan). intros b Hb. apply Hall; [by left|by right|]. intros ->. done.
      * intros a b Ha Hb. apply Hall; by right.
Qed.

Section OpponentCheck.
Context `{Host}.

Lemma verifyOpponentCounts_passes games e :
  Opponents.issues (verifyOpponentCounts (buildTeamStats games) e) = [] <->
  forall a b, a <> "" -> b <> "" -> fields games a -> fields games b -> a <> b ->
    meetings games a b = e.
Proof.
  unfold verifyOpponentCounts. cbn [Opponents.issues].
  destruct (buildTeamStats_keys games) as [Hnd Hkeys].
  rewrite opponentIssues_nil by (by apply stableSort_NoDup).
  split.
  - intros Hall a b Ha Hb Hfa Hfb Hne.
    rewrite <- (buildTeamStats_count games a b) by done.
    apply Hall; [| |done]; apply stableSort_elem_of, Hkeys; done.
  - intros Hall a b Ha Hb Hne.
    apply stableSort_elem_of, Hkeys in Ha as [Ha Hfa].
    apply stableSort_elem_of, Hkeys in Hb as [Hb Hfb].
    rewrite !buildTeamStats_count by done. split; [by apply Hall|].
    rewrite meetings_sym. by apply Hall.
Qed.

Lemma opponentIssues_counts stats e teams issue :
  issue ∈ opponentIssues stats e teams ->
  Issue.teamA issue ∈ teams /\ Issue.teamB issue ∈ teams /\
  Issue.countA issue = opponentCount stats (Issue.teamA issue) (Issue.teamB issue) /\
  Issue.countB issue = opponentCount stats (Issue.teamB issue) (Issue.teamA issue) /\
  (Issue.countA issue <> Issue.countB issue \/ Issue.countA issue <> e) /\
  exists i j, (i < j)%nat /\ teams !! i = Some (Issue.teamA issue) /\
              teams !! j = Some (Issue.teamB issue).
Proof.
  induction teams as [|x rest IH]; cbn [opponentIssues]; [intros Hin; by apply elem_of_nil in Hin|].
  intros [Hin|Hin]%elem_of_app.
  - apply list_elem_of_omap in Hin as (y & Hy & Hsome). cbv zeta in Hsome.
    destruct (negb (_ =? _) || negb (_ =? _)) eqn:E; [|discriminate].
    injection Hsome as <-. cbn [Issue.teamA Issue.teamB Issue.countA Issue.countB].
    split; [by left|]. split; [by right|]. split; [done|]. split; [done|]. split.
    + apply orb_true_iff in E as [E|E]; apply negb_true_iff, Z.eqb_neq in E; tauto.
    + apply list_elem_of_lookup in Hy as [j Hj]. exists 0%nat, (S j). split; [lia|]. done.
  - destruct (IH Hin) as (Ha & Hb & Hca & Hcb & Hwhy & i & j & Hij & Hi & Hj).
    split; [by right|]. split; [by right|]. split; [done|]. split; [done|]. split; [done|].
    exists (S i), (S j). split; [lia|]. done.
Qed.

Lemma verifyOpponentCounts_issue games e issue :
  issue ∈ Opponents.issues (verifyOpponentCounts (buildTeamStats games) e) ->
  Issue.teamA issue <> Issue.teamB issue /\
  Issue.countA issue = meetings games (Issue.teamA issue) (Issue.teamB issue) /\
  Issue.countB issue = Issue.countA issue /\
  Issue.countA issue <> e.
Proof.
  unfold verifyOpponentCounts. cbn [Opponents.issues]. intros Hin.
  destruct (buildTeamStats_keys games) as [Hnd Hkeys].
  destruct (opponentIssues_counts _ _ _ _ Hin) as (Ha & Hb & Hca & Hcb & Hwhy & i & j & Hij & Hi & Hj).
  assert (Issue.teamA issue <> Issue.teamB issue) as Hne.
  { intros Heq. rewrite Heq in Hi.
    pose proof (stableSort_NoDup localeCompare _ Hnd) as Hnd'.
    pose proof (NoDup_lookup _ _ _ _ Hnd' Hi Hj). lia. }
  apply stableSort_elem_of, Hkeys in Ha as [Ha _].
  apply stableSort_elem_of, Hkeys in Hb as [Hb _].
  rewrite buildTeamStats_count in Hca by done.
  rewrite buildTeamStats_count, meetings_sym in Hcb by done.
  split; [done|]. split; [done|]. split; [congruence|]. destruct Hwhy; congruence.
Qed.
End OpponentCheck.

(** ** Counters, weekly limit and target ceiling of an attempt *)

Section Steps.
Context `{Host}.

Lemma fillSlot_fields plan i slot st st' :
  fillSlot plan i slot st = inl st' ->
  exists game,
    labelOfGame game = labelOfSlot slot /\
    Attempt.assignments st' = (Attempt.assignments st ++ [game])%list /\
    Attempt.teamTargetCounts st' =
      (if String.eqb (Slot.slot slot) (Plan.targetSlot plan)
       then countUp (countUp (Attempt.teamTargetCounts st) (Game.away game)) (Game.home game)
       else Attempt.teamTargetCounts st) /\
    Attempt.homeAwayCounts st' =
      HomeAway.mk (shift (HomeAway.home (Attempt.homeAwayCounts st)) (Game.home game) 1)
                  (shift (HomeAway.away (Attempt.homeAwayCounts st)) (Game.away game) 1) /\
    Attempt.teamsByWeek st' =
      <[getWeekKey (Slot.date slot) :=
          countUp (countUp (default ∅ (Attempt.teamsByWeek st !! getWeekKey (Slot.date slot)))
                     (Game.away game)) (Game.home game)]> (Attempt.teamsByWeek st).
Proof.
  unfold fillSlot.
  match goal with |- context [selectPair ?args] => set (a := args) end.
  destruct (Selected.chosen (selectPair a) ≫= _) as [[k candidate]|]; [|discriminate].
  pose proof (assignGame_labels slot candidate (Selected.rng (selectPair a))
                (Plan.lockRequirements plan !! default (Z.of_nat i) (Slot.index slot))
                (Attempt.homeAwayCounts st)) as Hlabel.
  destruct (assignGame _ _ _ _ _) as [game rng']. intros [= <-]. exists game.
  cbn [Attempt.assignments Attempt.teamTargetCounts Attempt.homeAwayCounts Attempt.teamsByWeek].
  done.
Qed.

Lemma screenPair_unforced a entry :
  screenPair a entry = Eligible -> isForced (Select.requiredTeams a) = false ->
  (weeklyCount (Select.teamsThisWeek a) (Pair.teams entry).1 < 2) /\
  (weeklyCount (Select.teamsThisWeek a) (Pair.teams entry).2 < 2) /\
  (default 0 (Select.teamTargetCounts a !! (Pair.teams entry).1) +
     (if Select.isTargetSlot a then 1 else 0) <= Select.maxTarget a) /\
  (default 0 (Select.teamTargetCounts a !! (Pair.teams entry).2) +
     (if Select.isTargetSlot a then 1 else 0) <= Select.maxTarget a).
Proof.
  unfold screenPair. destruct (Pair.teams entry) as [teamA teamB]. cbn [fst snd].
  intros Hscreen Hforced. rewrite Hforced in Hscreen. cbn [andb negb] in Hscreen.
  destruct (Pair.remaining entry <=? 0); [discriminate|].
  destruct (match Select.teamsPlayedToday a with Some _ => _ | None => _ end); [discriminate|].
  destruct (match Select.allLockedTeams a with Some _ => _ | None => _ end); [discriminate|].
  destruct (_ || _)%bool eqn:Eweek in Hscreen; [discriminate|].
  destruct (_ || _)%bool eqn:Eproj in Hscreen; [discriminate|].
  apply orb_false_iff in Eweek as [EA EB]. apply Z.leb_gt in EA, EB.
  apply orb_false_iff in Eproj as [PA PB]. apply Z.ltb_ge in PA, PB.
  unfold projectedExcess in PA, PB. repeat split; lia.
Qed.
End Steps.

Section Free.
Context `{Host}.

(** A slot of a plan without locks: the pair chosen is within the weekly
    limit and under the target ceiling. *)
Lemma fillSlot_free plan i slot st st' :
  Plan.lockRequirements plan = ∅ -> Plan.allLockedTeams plan = ∅ ->
  fillSlot plan i slot st = inl st' ->
  exists k entry game,
    Attempt.pairs st !! k = Some entry /\
    Attempt.assignments st' = (Attempt.assignments st ++ [game])%list /\
    ((Game.away game, Game.home game) = Pair.teams entry \/
     (Game.home game, Game.away game) = Pair.teams entry) /\
    (forall team, team = Game.away game \/ team = Game.home game ->
       default 0 (default ∅ (Attempt.teamsByWeek st !! getWeekKey (Slot.date slot)) !! team) < 2 /\
       default 0 (Attempt.teamTargetCounts st !! team) +
         (if String.eqb (Slot.slot slot) (Plan.targetSlot plan) then 1 else 0)
       <= Plan.maxTarget plan).
Proof.
  intros Hlocks Hall. unfold fillSlot. rewrite Hlocks, lookup_empty, Hall.
  rewrite decide_True by done. cbn [fmap option_fmap option_map].
  match goal with |- context [selectPair ?args] => set (a := args) end.
  destruct (Selected.chosen (selectPair a)) as [k|] eqn:Echosen; [|discriminate].
  cbn [mbind option_bind].
  destruct (selectPair_chosen_eligible a k Echosen) as (entry & Hlook & Helig).
  change (Select.pairs a) with (Attempt.pairs st) in Hlook.
  rewrite Hlook. cbn [fmap option_fmap option_map].
  destruct (screenPair_unforced a entry Helig eq_refl) as (WA & WB & TA & TB).
  pose proof (assignGame_sides slot entry (Selected.rng (selectPair a)) None
                (Attempt.homeAwayCounts st)) as Hgame.
  destruct (assignGame slot entry (Selected.rng (selectPair a)) None
              (Attempt.homeAwayCounts st)) as [game rng'].
  cbn [fst] in Hgame. destruct Hgame as (Hdate & Hslot & Hsides); [done|].
  intros [= <-]. exists k, entry, game. cbn [Attempt.assignments].
  split; [done|]. split; [done|]. split; [done|].
  cbn [weeklyCount Select.teamsThisWeek Select.teamTargetCounts Select.isTargetSlot
       Select.maxTarget a] in WA, WB, TA, TB.
  intros team Hteam.
  destruct Hsides as [Hs|Hs]; rewrite <- Hs in *; cbn [fst snd] in *;
    destruct Hteam as [-> | ->]; done.
Qed.
End Free.

Lemma countUp_lookup m k team :
  default 0 (countUp m k !! team) = default 0 (m !! team) + (if String.eqb k team then 1 else 0).
Proof.
  unfold countUp. destruct (String.eqb_spec k team) as [->|Hne].
  - by rewrite lookup_insert_eq.
  - rewrite lookup_insert_ne by done. lia.
Qed.

Lemma shift_lookup m k d team :
  shift m k d !! team = if String.eqb k team then Some (Js.bump (m !! team) d) else m !! team.
Proof.
  unfold shift. destruct (String.eqb_spec k team) as [->|Hne].
  - by rewrite lookup_insert_eq.
  - by rewrite lookup_insert_ne.
Qed.

Lemma slotAppearances_app games game slot team :
  slotAppearances (games ++ [game]) slot team =
  slotAppearances games slot team +
  (if String.eqb (Game.slot game) slot
   then (if String.eqb (Game.away game) team then 1 else 0) +
        (if String.eqb (Game.home game) team then 1 else 0)
   else 0).
Proof.
  unfold slotAppearances. rewrite !List.filter_app, !length_app. cbn [List.filter].
  destruct (String.eqb (Game.slot game) slot), (String.eqb (Game.away game) team),
           (String.eqb (Game.home game) team); cbn [andb length]; lia.
Qed.

Lemma timesHome_app games game team :
  timesHome (games ++ [game]) team =
  timesHome games team + (if String.eqb (Game.home game) team then 1 else 0).
Proof.
  unfold timesHome. rewrite List.filter_app, length_app. cbn [List.filter].
  destruct (String.eqb (Game.home game) team); cbn [length]; lia.
Qed.

Lemma timesAway_app games game team :
  timesAway (games ++ [game]) team =
  timesAway games team + (if String.eqb (Game.away game) team then 1 else 0).
Proof.
  unfold timesAway. rewrite List.filter_app, length_app. cbn [List.filter].
  destruct (String.eqb (Game.away game) team); cbn [length]; lia.
Qed.

Lemma lookup_constant_map {V} (teams : list string) (v : V) team :
  (list_to_map (map (fun team => (team, v)) teams) : gmap string V) !! team =
  if decide (team ∈ teams) then Some v else None.
Proof.
  induction teams as [|t teams IH]; cbn [map list_to_map foldr].
  - rewrite lookup_empty. by rewrite decide_False by apply not_elem_of_nil.
  - destruct (decide (t = team)) as [->|Hne].
    + rewrite lookup_insert_eq. by rewrite decide_True by (by left).
    + rewrite lookup_insert_ne by done. rewrite IH.
      destruct (decide (team ∈ teams)) as [Hin|Hin].
      * by rewrite decide_True by (by right).
      * rewrite decide_False; [done|]. by intros [?|?]%elem_of_cons.
Qed.

Section Tally.
Context `{Host}.

Lemma fillSlot_tallied teams plan i slot st st' :
  tallied teams (Plan.targetSlot plan) st -> fillSlot plan i slot st = inl st' ->
  tallied teams (Plan.targetSlot plan) st'.
Proof.
  intros [Htarget Hsides] Hfill.
  destruct (fillSlot_fields _ _ _ _ _ Hfill) as (game & Hlabel & Ha' & Ht' & Hc' & _).
  injection Hlabel as Hdate Hslot.
  unfold tallied. rewrite Ha', Ht', Hc'. cbn [HomeAway.home HomeAway.away]. split.
  - intros team. rewrite slotAppearances_app, Hslot.
    destruct (String.eqb (Slot.slot slot) (Plan.targetSlot plan)).
    + rewrite !countUp_lookup, Htarget. lia.
    + rewrite Htarget. lia.
  - intros team Hin. destruct (Hsides team Hin) as [Hh Ha].
    rewrite !shift_lookup, timesHome_app, timesAway_app, Hh, Ha.
    split; [destruct (String.eqb (Game.home game) team)|destruct (String.eqb (Game.away game) team)];
      cbn [Js.bump]; repeat f_equal; lia.
Qed.

Lemma planAttempt_fields teams slots targetSlot locks verbose :
  Plan.targetSlot (planAttempt teams slots targetSlot locks verbose) = targetSlot /\
  Plan.lockRequirements (planAttempt teams slots targetSlot locks verbose) = locks /\
  Plan.allLockedTeams (planAttempt teams slots targetSlot locks verbose) =
    collectLockedTeams locks.
Proof. unfold planAttempt. by destruct (computeTargetRange _ _) as [[? ?] ?]. Qed.

(** The figures an attempt reports are those of its games, whatever the
    locks. *)
Lemma attempt_reports_its_games teams slots targetSlot seed gamesPerPair locks verbose result :
  tryGenerateSchedule teams slots targetSlot seed gamesPerPair locks verbose = inl result ->
  (forall team,
     default 0 (Stats.targetCounts (Success.stats result) !! team) =
     slotAppearances (Success.games result) targetSlot team) /\
  (forall team, team ∈ teams ->
     HomeAway.home (Success.homeAwayCounts result) !! team =
       Some (Js.Int (timesHome (Success.games result) team)) /\
     HomeAway.away (Success.homeAwayCounts result) !! team =
       Some (Js.Int (timesAway (Success.games result) team))).
Proof.
  unfold tryGenerateSchedule.
  set (plan := planAttempt teams slots targetSlot locks verbose).
  destruct (planAttempt_fields teams slots targetSlot locks verbose) as (Hslot & _ & _).
  fold plan in Hslot.
  destruct (fillSlots plan 0 slots (initialAttempt teams seed gamesPerPair)) as [st|] eqn:Erun;
    [|discriminate].
  destruct (List.filter _ _); [|discriminate]. intros [= <-].
  cbn [Success.games Success.stats Success.homeAwayCounts Stats.targetCounts].
  assert (tallied teams (Plan.targetSlot plan) st) as Htally.
  { eapply (fillSlots_invariant (tallied teams (Plan.targetSlot plan)) plan); [| |exact Erun].
    - intros i slot st0 st1. apply fillSlot_tallied.
    - unfold tallied, initialAttempt.
      cbn [Attempt.teamTargetCounts Attempt.assignments Attempt.homeAwayCounts
           HomeAway.home HomeAway.away]. split.
      + intros team. rewrite lookup_constant_map. by case_decide.
      + intros team Hin. rewrite !lookup_constant_map, !decide_True by done. done. }
  rewrite Hslot in Htally. exact Htally.
Qed.
End Tally.

Lemma weekGames_app `{Host} games game week team :
  weekGames (games ++ [game]) week team =
  weekGames games week team +
  (if String.eqb (getWeekKey (Game.date game)) week &&
      (String.eqb (Game.away game) team || String.eqb (Game.home game) team)
   then 1 else 0).
Proof.
  unfold weekGames. rewrite List.filter_app, length_app. cbn [List.filter].
  destruct (_ && _)%bool; cbn [length]; lia.
Qed.

Section Caps.
Context `{Host}.

Lemma fillSlot_capped plan i slot st st' :
  Plan.lockRequirements plan = ∅ -> Plan.allLockedTeams plan = ∅ ->
  clean st -> capped (Plan.maxTarget plan) st -> fillSlot plan i slot st = inl st' ->
  capped (Plan.maxTarget plan) st'.
Proof.
  intros Hlocks Hall [Hpairs _] [Hweek Hcap] Hfill.
  destruct (fillSlot_fields _ _ _ _ _ Hfill) as (game & Hlabel & Ha' & Ht' & _ & Hw').
  destruct (fillSlot_free _ _ _ _ _ Hlocks Hall Hfill)
    as (k & entry & game' & Hlook & Ha'' & Hsides & Hroom).
  assert (game' = game) as ->.
  { rewrite Ha' in Ha''. by apply app_inj_tail in Ha'' as [_ ->]. }
  injection Hlabel as Hdate Hslot.
  assert (Game.away game <> Game.home game) as Hne.
  { pose proof (Hpairs k entry Hlook) as Hdiff.
    destruct Hsides as [Hs|Hs]; rewrite <- Hs in Hdiff; cbn [fst snd] in Hdiff; congruence. }
  unfold capped. rewrite Ha', Ht', Hw'. split.
  - intros week team. rewrite weekGames_app, Hdate.
    destruct (Hweek week team) as [Hbook Hle].
    destruct (String.eqb_spec (getWeekKey (Slot.date slot)) week) as [<-|Hwk]; cbn [andb].
    + rewrite lookup_insert_eq. cbn [default from_option id]. rewrite !countUp_lookup, Hbook.
      destruct (String.eqb_spec (Game.away game) team) as [Ea|Ea];
        destruct (String.eqb_spec (Game.home game) team) as [Eh|Eh]; cbn [orb];
        try congruence; try (split; lia).
      * destruct (Hroom team (or_introl (eq_sym Ea))) as [Hlt _]. rewrite Hbook in Hlt. lia.
      * destruct (Hroom team (or_intror (eq_sym Eh))) as [Hlt _]. rewrite Hbook in Hlt. lia.
    + rewrite lookup_insert_ne by done. split; [lia|lia].
  - intros team. destruct (String.eqb (Slot.slot slot) (Plan.targetSlot plan)) eqn:Etarget.
    + rewrite !countUp_lookup.
      destruct (String.eqb_spec (Game.away game) team) as [Ea|Ea];
        destruct (String.eqb_spec (Game.home game) team) as [Eh|Eh];
        try congruence; try (specialize (Hcap team); lia).
      * destruct (Hroom team (or_introl (eq_sym Ea))) as [_ Hle]. lia.
      * destruct (Hroom team (or_intror (eq_sym Eh))) as [_ Hle]. lia.
    + apply Hcap.
Qed.
End Caps.

Section LockFree.
Context `{Host}.

Lemma collectLockedTeams_empty : collectLockedTeams ∅ = ∅.
Proof. unfold collectLockedTeams. apply map_fold_empty. Qed.

Lemma sideless_empty : sideless ∅.
Proof. intros k lock Hk. by rewrite lookup_empty in Hk. Qed.

(** Without locks an attempt that succeeds keeps every team within two
    games a week and at or under the target ceiling. *)
Lemma lockfree_attempt_is_capped teams slots targetSlot seed gamesPerPair verbose result :
  NoDup teams ->
  tryGenerateSchedule teams slots targetSlot seed gamesPerPair ∅ verbose = inl result ->
  (forall week team, weekGames (Success.games result) week team <= 2) /\
  (forall team, slotAppearances (Success.games result) targetSlot team
                <= Z.max 0 (Stats.maxTarget (Success.stats result))).
Proof.
  intros Hnd Htry.
  destruct (attempt_reports_its_games _ _ _ _ _ _ _ _ Htry) as [Htally _].
  revert Htry Htally. unfold tryGenerateSchedule.
  set (plan := planAttempt teams slots targetSlot ∅ verbose).
  destruct (planAttempt_fields teams slots targetSlot ∅ verbose) as (_ & Hlocks & Hall).
  fold plan in Hlocks, Hall. rewrite collectLockedTeams_empty in Hall.
  destruct (fillSlots plan 0 slots (initialAttempt teams seed gamesPerPair)) as [st|] eqn:Erun;
    [|discriminate].
  destruct (List.filter _ _); [|discriminate]. intros [= <-].
  cbn [Success.games Success.stats Stats.maxTarget Stats.targetCounts]. intros Htally.
  assert (clean st /\ capped (Plan.maxTarget plan) st) as [_ [Hweek Hcap]].
  { eapply (fillSlots_invariant (fun st => clean st /\ capped (Plan.maxTarget plan) st) plan);
      [| |exact Erun].
    - intros i slot st0 st1 [Hclean Hcapped] Hfill. split.
      + eapply fillSlot_clean; [|done..]. rewrite Hlocks. apply sideless_empty.
      + by eapply fillSlot_capped.
    - split; [by apply initialAttempt_clean|].
      unfold capped, initialAttempt.
      cbn [Attempt.teamsByWeek Attempt.assignments Attempt.teamTargetCounts]. split.
      + intros week team. rewrite lookup_empty. cbn [default from_option id].
        rewrite lookup_empty. unfold weekGames. cbn. lia.
      + intros team. rewrite lookup_constant_map. case_decide; cbn; lia. }
  split.
  - intros week team. apply Hweek.
  - intros team. rewrite <- Htally. apply Hcap.
Qed.
End LockFree.

Lemma map_teams_insert pairs k entry :
  pairs !! k = Some entry ->
  map Pair.teams (<[k := playPair entry]> pairs) = map Pair.teams pairs.
Proof.
  intros Hk. change (map Pair.teams) with (fmap (M:=list) Pair.teams).
  rewrite list_fmap_insert. cbn [playPair Pair.teams].
  apply list_insert_id. by rewrite list_lookup_fmap, Hk.
Qed.

Section Roster.
Context `{Host}.

Lemma fillSlot_roster plan pairings i slot st st' :
  sideless (Plan.lockRequirements plan) ->
  roster pairings st -> fillSlot plan i slot st = inl st' -> roster pairings st'.
Proof.
  intros Hsideless [Hteams Hgames] Hfill.
  destruct (fillSlot_inl _ _ _ _ _ Hsideless Hfill)
    as (k & entry & game & Hlook & _ & _ & _ & _ & _ & Hsides & _ & Hp' & Ha' & _).
  unfold roster. rewrite Hp', Ha'. split.
  - by rewrite map_teams_insert.
  - intros g [Hin| ->%list_elem_of_singleton]%elem_of_app; [by apply Hgames|].
    assert (Pair.teams entry ∈ pairings) as Hin.
    { rewrite <- Hteams. apply list_elem_of_fmap. exists entry. split; [done|].
      by eapply list_elem_of_lookup_2. }
    destruct Hsides as [-> | ->]; tauto.
Qed.

(** Under locks without explicit sides every game of a successful attempt
    opposes two different teams of the list. *)
Lemma sideless_attempt_fields_the_list teams slots targetSlot seed gamesPerPair locks
    verbose result :
  NoDup teams -> sideless locks ->
  tryGenerateSchedule teams slots targetSlot seed gamesPerPair locks verbose = inl result ->
  forall game, game ∈ Success.games result ->
    Game.away game ∈ teams /\ Game.home game ∈ teams /\ Game.away game <> Game.home game.
Proof.
  intros Hnd Hsideless. unfold tryGenerateSchedule.
  set (plan := planAttempt teams slots targetSlot locks verbose).
  destruct (planAttempt_fields teams slots targetSlot locks verbose) as (_ & Hlocks & _).
  fold plan in Hlocks.
  destruct (fillSlots plan 0 slots (initialAttempt teams seed gamesPerPair)) as [st|] eqn:Erun;
    [|discriminate].
  destruct (List.filter _ _); [|discriminate]. intros [= <-]. cbn [Success.games].
  set (sorted := stableSort localeCompare teams).
  set (pairings := map Pair.teams (pairUp sorted gamesPerPair)).
  destruct (pairUp_apart sorted gamesPerPair (stableSort_NoDup _ _ Hnd)) as [_ Hapart].
  assert (roster pairings st) as [_ Hgames].
  { eapply (fillSlots_invariant (roster pairings) plan); [| |exact Erun].
    - intros i slot st0 st1 Hr Hfill. eapply fillSlot_roster; try done. by rewrite Hlocks.
    - unfold roster, initialAttempt. cbn [Attempt.pairs Attempt.assignments]. split; [done|].
      intros game Hin. by apply elem_of_nil in Hin. }
  intros game Hin. destruct (Hgames game Hin) as [Hp|Hp].
  - destruct (pairUp_members _ _ _ _ Hp) as [Ha Hh]. destruct (Hapart _ _ Hp) as [Hne _].
    split; [by apply stableSort_elem_of in Ha|]. split; [by apply stableSort_elem_of in Hh|done].
  - destruct (pairUp_members _ _ _ _ Hp) as [Hh Ha]. destruct (Hapart _ _ Hp) as [Hne _].
    split; [by apply stableSort_elem_of in Ha|]. split; [by apply stableSort_elem_of in Hh|done].
Qed.
End Roster.

(** ** What the side swaps of the optimizer leave alone *)

Lemma sameFixture_weekGames `{Host} games games' week team :
  Forall2 sameFixture games games' -> weekGames games' week team = weekGames games week team.
Proof.
  unfold weekGames. induction 1 as [|g g' games games' Hsame Hrest IH]; [done|].
  cbn [List.filter].
  assert ((String.eqb (getWeekKey (Game.date g')) week &&
           (String.eqb (Game.away g') team || String.eqb (Game.home g') team)) =
          (String.eqb (getWeekKey (Game.date g)) week &&
           (String.eqb (Game.away g) team || String.eqb (Game.home g) team))) as ->.
  { destruct Hsame as [-> | ->]; [done|]. cbn [flipGame Game.date Game.away Game.home].
    by rewrite orb_comm. }
  destruct (_ && _)%bool; cbn [length]; lia.
Qed.

Lemma sameFixture_slotAppearances games games' slot team :
  Forall2 sameFixture games games' ->
  slotAppearances games' slot team = slotAppearances games slot team.
Proof.
  unfold slotAppearances. induction 1 as [|g g' games games' Hsame Hrest IH]; [done|].
  cbn [List.filter]. destruct Hsame as [-> | ->].
  - destruct (_ && _)%bool, (_ && _)%bool; cbn [length]; lia.
  - cbn [flipGame Game.slot Game.away Game.home].
    destruct (String.eqb (Game.slot g) slot), (String.eqb (Game.away g) team),
             (String.eqb (Game.home g) team); cbn [andb length]; lia.
Qed.

Lemma sameFixture_fields games games' game' :
  Forall2 sameFixture games games' -> game' ∈ games' ->
  exists game, game ∈ games /\ (game' = game \/ game' = flipGame game).
Proof.
  intros Hfix Hin. apply list_elem_of_lookup in Hin as [i Hi].
  destruct (Forall2_lookup_r _ _ _ _ _ Hfix Hi) as (game & Hgame & Hsame).
  exists game. split; [by eapply list_elem_of_lookup_2|done].
Qed.

Section Returned.
Context `{Host}.

Lemma generate_stats now rq schedule :
  generateBalancedSchedule now rq = Built schedule ->
  exists seed k result,
    attemptOf rq (toTeamArray (Request.teams rq)) seed k = inl result /\
    Forall2 sameFixture (Success.games result) (Schedule.games schedule) /\
    Schedule.stats schedule = Success.stats result /\
    Schedule.homeAwayCounts schedule = Success.homeAwayCounts result /\
    (Schedule.homeAwayFlips schedule = 0 -> Schedule.games schedule = Success.games result \/
                                            Request.optimizeHomeAway rq = true).
Proof.
  unfold generateBalancedSchedule. destruct (toTeamArray (Request.teams rq)) eqn:Eteams; [done|].
  destruct (Request.slots rq) eqn:Eslots; [done|]. intros Hloop.
  destruct (attemptsFrom_built _ _ _ _ _ _ _ Hloop)
    as (k & result & _ & Htry & _ & _ & _ & _ & Hstats & Hcounts & Hhow).
  eexists _, k, result. split; [exact Htry|]. split; [|split; [done|split; [done|]]].
  - destruct Hhow as [[-> _]|[_ Hopt]]; [apply sameFixture_refl|].
    by destruct (optimizer_swaps_sides_only _ _ _ _ _ _ Hopt) as (Hfix & _).
  - intros _. destruct Hhow as [[-> _]|[Hopt _]]; [by left|by right].
Qed.

(** The target-slot counts a returned schedule reports are those of its
    games. *)
Lemma generate_target_counts now rq schedule :
  generateBalancedSchedule now rq = Built schedule ->
  forall team,
    default 0 (Stats.targetCounts (Schedule.stats schedule) !! team) =
    slotAppearances (Schedule.games schedule) (Request.targetSlot rq) team.
Proof.
  intros Hgen team.
  destruct (generate_stats _ _ _ Hgen) as (seed & k & result & Htry & Hfix & -> & _).
  rewrite (sameFixture_slotAppearances _ _ _ _ Hfix).
  by destruct (attempt_reports_its_games _ _ _ _ _ _ _ _ Htry) as [-> _].
Qed.

Lemma generate_capped now rq schedule :
  Request.lockRequirements rq = ∅ ->
  generateBalancedSchedule now rq = Built schedule ->
  (forall week team, weekGames (Schedule.games schedule) week team <= 2) /\
  (forall team, slotAppearances (Schedule.games schedule) (Request.targetSlot rq) team
                <= Z.max 0 (Stats.maxTarget (Schedule.stats schedule))).
Proof.
  intros Hlocks Hgen.
  destruct (generate_stats _ _ _ Hgen) as (seed & k & result & Htry & Hfix & -> & _).
  unfold attemptOf in Htry. rewrite Hlocks in Htry.
  destruct (lockfree_attempt_is_capped _ _ _ _ _ _ _ (toTeamArray_NoDup _) Htry) as [Hweek Hcap].
  split.
  - intros week team. rewrite (sameFixture_weekGames _ _ _ _ Hfix). apply Hweek.
  - intros team. rewrite (sameFixture_slotAppearances _ _ _ _ Hfix). apply Hcap.
Qed.

Lemma generate_fields_the_list now rq schedule :
  sideless (Request.lockRequirements rq) ->
  generateBalancedSchedule now rq = Built schedule ->
  forall game, game ∈ Schedule.games schedule ->
    Game.away game ∈ Request.teams rq /\ Game.home game ∈ Request.teams rq /\
    Game.away game <> Game.home game.
Proof.
  intros Hsideless Hgen game' Hin.
  destruct (generate_stats _ _ _ Hgen) as (seed & k & result & Htry & Hfix & _).
  destruct (sameFixture_fields _ _ _ Hfix Hin) as (game & Hgame & Hsame).
  destruct (sideless_attempt_fields_the_list _ _ _ _ _ _ _ _ (toTeamArray_NoDup _) Hsideless
              Htry game Hgame) as (Ha & Hh & Hne).
  rewrite toTeamArray_elem_of in Ha, Hh.
  destruct Hsame as [-> | ->]; [by repeat split|]. cbn [flipGame Game.away Game.home].
  repeat split; [done|done|congruence].
Qed.

(** The checks the generate command runs on a schedule it has built
    cannot fail when the locks state no sides. *)
Lemma generate_passes_checks now rq schedule :
  sideless (Request.lockRequirements rq) -> 0 <= Request.gamesPerPair rq ->
  generateBalancedSchedule now rq = Built schedule ->
  Opponents.issues (verifyOpponentCounts (buildTeamStats (Schedule.games schedule))
                      (Request.gamesPerPair rq)) = [] /\
  Adherence.isExact (verifyTimeSlots (Schedule.games schedule) (Request.slots rq)) = true.
Proof.
  intros Hsideless Hg Hgen. split.
  - apply verifyOpponentCounts_passes. intros a b _ _ (ga & Hga & Ha) (gb & Hgb & Hb) Hne.
    destruct (generate_fields_the_list _ _ _ Hsideless Hgen ga Hga) as (Ha1 & Ha2 & _).
    destruct (generate_fields_the_list _ _ _ Hsideless Hgen gb Hgb) as (Hb1 & Hb2 & _).
    apply (generate_ledger now rq schedule); try done.
    + destruct Ha as [-> | ->]; done.
    + destruct Hb as [-> | ->]; done.
  - apply verifyTimeSlots_exact. by eapply generate_labels.
Qed.

Lemma generate_from_locked_teams now rq schedule games lockedTeams :
  Request.lockRequirements rq = buildLockRequirements games (Request.slots rq) lockedTeams ->
  0 <= Request.gamesPerPair rq ->
  generateBalancedSchedule now rq = Built schedule ->
  Opponents.issues (verifyOpponentCounts (buildTeamStats (Schedule.games schedule))
                      (Request.gamesPerPair rq)) = [] /\
  Adherence.isExact (verifyTimeSlots (Schedule.games schedule) (Request.slots rq)) = true /\
  forall i slot game old team,
    Request.slots rq !! i = Some slot -> Schedule.games schedule !! i = Some game ->
    old ∈ games ->
    slotIndexByKey (Request.slots rq) !! slotKey (Game.date old) (Game.slot old) =
      Some (default (Z.of_nat i) (Slot.index slot)) ->
    team ∈ lockedTeams -> team = Game.away old \/ team = Game.home old ->
    team = Game.away game \/ team = Game.home game.
Proof.
  intros Hlocks Hg Hgen.
  assert (sideless (Request.lockRequirements rq)) as Hsideless.
  { rewrite Hlocks. apply buildLockRequirements_sideless. }
  destruct (generate_passes_checks _ _ _ Hsideless Hg Hgen) as [Hopp Hexact].
  split; [done|]. split; [done|].
  intros i slot game old team Hslot Hgame Hold Hkey Hlocked Hplays.
  destruct (buildLockRequirements_complete games (Request.slots rq) lockedTeams old _ team
              Hold Hkey Hlocked Hplays) as (lock & Hlock & Hin).
  rewrite <- Hlocks in Hlock.
  by eapply (generate_honours_locks now rq schedule Hsideless Hgen i slot game lock team).
Qed.
End Returned.

(** ** Slot distribution *)

Lemma mapIncr_uniqueKeys m k : uniqueKeys m -> uniqueKeys (mapIncr m k).
Proof. apply mapSet_uniqueKeys. Qed.

Lemma mapIncr_positive m k :
  (forall team n, mapGet m team = Some n -> 0 < n) ->
  forall team n, mapGet (mapIncr m k) team = Some n -> 0 < n.
Proof.
  intros Hpos team n. unfold mapIncr. destruct (decide (k = team)) as [->|Hne].
  - rewrite mapGet_mapSet_eq. intros [= <-].
    destruct (mapGet m team) as [c|] eqn:E; cbn [default from_option id]; [|lia].
    specialize (Hpos team c E). lia.
  - rewrite mapGet_mapSet_ne by done. apply Hpos.
Qed.

Lemma slotAppearances_cons game games slot team :
  slotAppearances (game :: games) slot team =
  (if String.eqb (Game.slot game) slot
   then (if String.eqb (Game.away game) team then 1 else 0) +
        (if String.eqb (Game.home game) team then 1 else 0)
   else 0) + slotAppearances games slot team.
Proof.
  unfold slotAppearances. cbn [List.filter].
  destruct (String.eqb (Game.slot game) slot), (String.eqb (Game.away game) team),
           (String.eqb (Game.home game) team); cbn [andb length]; lia.
Qed.

Lemma slotCounts_spec slot games : forall counts,
  uniqueKeys counts -> (forall team n, mapGet counts team = Some n -> 0 < n) ->
  let counts' :=
    fold_left
      (fun counts game =>
         if negb (String.eqb (Game.slot game) slot) then counts
         else mapIncr (mapIncr counts (Game.away game)) (Game.home game))
      games counts in
  uniqueKeys counts' /\
  (forall team n, mapGet counts' team = Some n -> 0 < n) /\
  forall team, default 0 (mapGet counts' team) =
               default 0 (mapGet counts team) + slotAppearances games slot team.
Proof.
  induction games as [|g games IH]; intros counts Hnd Hpos; cbn [fold_left].
  - split; [done|]. split; [done|]. intros team. unfold slotAppearances. cbn. lia.
  - cbv zeta in IH.
    destruct (String.eqb (Game.slot g) slot) eqn:Eslot; cbn [negb].
    + destruct (IH (mapIncr (mapIncr counts (Game.away g)) (Game.home g)))
        as (Hnd' & Hpos' & Hcount).
      { by do 2 apply mapIncr_uniqueKeys. }
      { by do 2 apply mapIncr_positive. }
      split; [done|]. split; [done|]. intros team.
      rewrite Hcount, !mapIncr_get, slotAppearances_cons, Eslot. lia.
    + destruct (IH counts Hnd Hpos) as (Hnd' & Hpos' & Hcount).
      split; [done|]. split; [done|]. intros team.
      rewrite Hcount, slotAppearances_cons, Eslot. lia.
Qed.

Section Distribution.
Context `{Host}.

Lemma summarizeSlotDistribution_entries games slot :
  NoDup (map fst (summarizeSlotDistribution games slot)) /\
  forall team n,
    (team, n) ∈ summarizeSlotDistribution games slot <->
    n = slotAppearances games slot team /\ 0 < n.
Proof.
  unfold summarizeSlotDistribution.
  destruct (slotCounts_spec slot games []) as (Hnd & Hpos & Hcount).
  { apply NoDup_nil_2. }
  { intros team n. discriminate. }
  cbv zeta in Hnd, Hpos, Hcount.
  set (counts := fold_left _ games []) in *.
  split.
  - assert (map fst (stableSort (fun a b => localeCompare a.1 b.1) counts) ≡ₚ map fst counts)
      as ->; [|done].
    apply Permutation_map, stableSort_Permutation.
  - intros team n. rewrite stableSort_elem_of. split.
    + intros Hin. apply (elem_of_mapGet _ _ _ Hnd) in Hin.
      specialize (Hcount team). rewrite Hin in Hcount. cbn in Hcount.
      split; [lia|]. by eapply Hpos.
    + intros [-> Hgt]. apply mapGet_elem_of.
      specialize (Hcount team). destruct (mapGet counts team) as [c|]; cbn in Hcount.
      * f_equal. lia.
      * lia.
Qed.
End Distribution.

(** ** Home/away balance *)

Lemma fold_mapIncr_keys keys : forall m x,
  x ∈ map fst (fold_left mapIncr keys m) <-> x ∈ map fst m \/ x ∈ keys.
Proof.
  induction keys as [|k keys IH]; intros m x; cbn [fold_left].
  - rewrite elem_of_nil. tauto.
  - rewrite IH. unfold mapIncr. rewrite mapSet_keys, elem_of_cons. tauto.
Qed.

Lemma computeHomeAwayBalance_entries games :
  NoDup (map fst (computeHomeAwayBalance games)) /\
  forall team b,
    (team, b) ∈ computeHomeAwayBalance games <->
    fields games team /\
    b = Balance.mk (timesHome games team) (timesAway games team)
          (Z.abs (timesHome games team - timesAway games team)).
Proof.
  assert (forall team, team ∈ map fst (computeHomeAwayBalance games) <-> fields games team)
    as Hkeys.
  { intros team. unfold computeHomeAwayBalance. rewrite tally_split.
    set (homeCount := fold_left mapIncr (map Game.home games) []).
    set (awayCount := fold_left mapIncr (map Game.away games) []).
    set (teams := fold_left setAdd (map fst homeCount ++ map fst awayCount)%list []).
    assert (forall l acc x,
              x ∈ map fst (fold_left
                (fun balance team =>
                   let home := default 0 (mapGet homeCount team) in
                   let away := default 0 (mapGet awayCount team) in
                   mapSet balance team (Balance.mk home away (Z.abs (home - away)))) l acc) <->
              x ∈ map fst acc \/ x ∈ l) as Hfold.
    { induction l as [|t l IH]; intros acc x; cbn [fold_left].
      - rewrite elem_of_nil. tauto.
      - rewrite IH. cbv zeta. rewrite mapSet_keys, elem_of_cons. tauto. }
    rewrite Hfold. unfold teams.
    destruct (fold_setAdd (map fst homeCount ++ map fst awayCount)%list [] (NoDup_nil_2 (A:=string)))
      as [_ Hin].
    rewrite Hin, elem_of_app. unfold homeCount, awayCount. rewrite !fold_mapIncr_keys.
    cbn [map]. rewrite !elem_of_nil. unfold fields. split.
    - intros [?|[?|[[?|Hh]|[?|Ha]]]]; try done.
      + apply list_elem_of_fmap in Hh as (g & -> & Hg). exists g. auto.
      + apply list_elem_of_fmap in Ha as (g & -> & Hg). exists g. auto.
    - intros (g & Hg & [-> | ->]).
      + right. right. right. right. apply list_elem_of_fmap. by exists g.
      + right. right. left. right. apply list_elem_of_fmap. by exists g. }
  assert (NoDup (map fst (computeHomeAwayBalance games))) as Hnd.
  { unfold computeHomeAwayBalance. rewrite tally_split.
    generalize (fold_left setAdd
                  (map fst (fold_left mapIncr (map Game.home games) []) ++
                   map fst (fold_left mapIncr (map Game.away games) []))%list []).
    intros teams.
    assert (forall l (acc : list (string * Balance.t)) (f : string -> Balance.t),
              uniqueKeys acc ->
              uniqueKeys (fold_left (fun balance team => mapSet balance team (f team)) l acc))
      as Hfold.
    { induction l as [|t l IH]; intros acc f Hacc; cbn [fold_left]; [done|].
      apply IH. by apply mapSet_uniqueKeys. }
    apply (Hfold teams [] (fun team =>
             Balance.mk (default 0 (mapGet (fold_left mapIncr (map Game.home games) []) team))
               (default 0 (mapGet (fold_left mapIncr (map Game.away games) []) team))
               (Z.abs (default 0 (mapGet (fold_left mapIncr (map Game.home games) []) team) -
                       default 0 (mapGet (fold_left mapIncr (map Game.away games) []) team))))).
    apply NoDup_nil_2. }
  split; [done|]. intros team b. split.
  - intros Hin. split; [|by apply balance_entry].
    apply Hkeys. apply list_elem_of_fmap. by exists (team, b).
  - intros [Hfields ->]. apply Hkeys in Hfields.
    apply list_elem_of_fmap in Hfields as ([team' b'] & Heq & Hin). cbn [fst] in Heq. subst team'.
    by rewrite <- (balance_entry _ _ _ Hin).
Qed.

(** ** Teams of a schedule *)

Section Teams.
Context `{Host}.

Lemma extractTeams_spec games :
  NoDup (extractTeams games) /\
  forall team, team ∈ extractTeams games <-> team <> "" /\ fields games team.
Proof.
  unfold extractTeams.
  set (step := fun (teamSet : list string) (game : Game.t) =>
         let teamSet := if String.eqb (Game.away game) "" then teamSet
                        else setAdd teamSet (Game.away game) in
         if String.eqb (Game.home game) "" then teamSet else setAdd teamSet (Game.home game)).
  assert (forall gs acc, NoDup acc ->
            NoDup (fold_left step gs acc) /\
            forall team, team ∈ fold_left step gs acc <->
                         team ∈ acc \/ (team <> "" /\ fields gs team)) as Hfold.
  { induction gs as [|g gs IH]; intros acc Hnd; cbn [fold_left].
    - split; [done|]. intros team. split; [tauto|].
      intros [?|[_ (game & Hin & _)]]; [done|]. by apply elem_of_nil in Hin.
    - assert (NoDup (step acc g) /\
              forall team, team ∈ step acc g <->
                team ∈ acc \/ (team <> "" /\ (team = Game.away g \/ team = Game.home g)))
        as [Hnd' Hin'].
      { assert (forall (s : list string) t, NoDup s ->
                  NoDup (if String.eqb t "" then s else setAdd s t) /\
                  forall x, x ∈ (if String.eqb t "" then s else setAdd s t) <->
                            x ∈ s \/ (x <> "" /\ x = t)) as Hadd.
        { intros s t Hs. destruct (String.eqb_spec t "") as [E|E].
          - split; [done|]. intros x. split; [tauto|]. intros [?|[? ?]]; [done|congruence].
          - split; [by apply setAdd_NoDup|]. intros x. rewrite setAdd_elem_of.
            split; [|tauto]. intros [?| ->]; [tauto|right; done]. }
        unfold step. destruct (Hadd acc (Game.away g) Hnd) as [Hnd1 Hin1].
        destruct (Hadd _ (Game.home g) Hnd1) as [Hnd2 Hin2].
        split; [done|]. intros team. rewrite Hin2, Hin1. tauto. }
      destruct (IH _ Hnd') as [Hnd'' Hin'']. split; [done|].
      intros team. rewrite Hin'', Hin'. unfold fields. split.
      + intros [[?|[Hne Hg]]|[Hne (game & Hin & Hg)]]; [by left| |].
        * right. split; [done|]. exists g. split; [by left|done].
        * right. split; [done|]. exists game. split; [by right|done].
      + intros [?|[Hne (game & [-> | Hin]%elem_of_cons & Hg)]]; [tauto|tauto|].
        right. split; [done|]. by exists game. }
  destruct (Hfold games [] (NoDup_nil_2 (A:=string))) as [Hnd Hin].
  split; [by apply stableSort_NoDup|]. intros team.
  rewrite stableSort_elem_of, Hin, elem_of_nil. tauto.
Qed.
End Teams.

(** ** Target band *)

Lemma floor_le_ceil x f c :
  Js.floor x = Some f -> Js.ceil x = Some c -> f <= c <= f + 1.
Proof.
  unfold Js.ceil, Js.neg. destruct x as [s| | |s m e]; cbn [Js.floor SFopp]; try discriminate.
  - intros [= <-] [= <-]. lia.
  - intros [= <-] [= <-].
    destruct (Z.leb_spec 0 e) as [He|He].
    + rewrite !Z.shiftl_mul_pow2 by done. destruct s; cbn [negb]; lia.
    + rewrite !Z.shiftr_div_pow2 by lia.
      assert (0 < 2 ^ (- e)) as Hpow by (apply Z.pow_pos_nonneg; lia).
      generalize dependent (2 ^ (- e)). intros d Hd.
      destruct s; cbn [negb].
      * pose proof (Z.div_mod (Z.neg m) d ltac:(lia)) as E1.
        pose proof (Z.mod_pos_bound (Z.neg m) d Hd) as B1.
        pose proof (Z.div_mod (Z.pos m) d ltac:(lia)) as E2.
        pose proof (Z.mod_pos_bound (Z.pos m) d Hd) as B2.
        assert (Z.neg m = - Z.pos m) as Hneg by lia. nia.
      * pose proof (Z.div_mod (Z.neg m) d ltac:(lia)) as E1.
        pose proof (Z.mod_pos_bound (Z.neg m) d Hd) as B1.
        pose proof (Z.div_mod (Z.pos m) d ltac:(lia)) as E2.
        pose proof (Z.mod_pos_bound (Z.pos m) d Hd) as B2.
        assert (Z.neg m = - Z.pos m) as Hneg by lia. nia.
Qed.

Lemma computeTargetRange_band teamCount slotGameCount :
  let '(minTarget, maxTarget, _) := computeTargetRange teamCount slotGameCount in
  minTarget <= maxTarget <= minTarget + 1.
Proof.
  unfold computeTargetRange. cbv zeta.
  generalize (if teamCount =? 0 then Js.ofZ 0
              else Js.div (Js.ofZ (slotGameCount * 2)) (Js.ofZ teamCount)).
  intros ideal. pose proof (floor_le_ceil ideal) as Hband.
  destruct (Js.floor ideal) as [f|] eqn:Ef, (Js.ceil ideal) as [c|] eqn:Ec;
    cbn [default from_option id].
  - by apply Hband.
  - exfalso. unfold Js.ceil, Js.neg in Ec. destruct ideal; cbn in Ef, Ec; discriminate.
  - exfalso. unfold Js.ceil, Js.neg in Ec. destruct ideal; cbn in Ef, Ec; discriminate.
  - lia.
Qed.

(** ** Doubleheader report *)

Lemma verifyNoDoubleheaders_violations games :
  (forall v, v ∈ (verifyNoDoubleheaders games).2 ->
     Violation.gameCount v = appearances games (Violation.date v) (Violation.team v) /\
     length (Violation.gameIndices v) = Violation.gameCount v /\
     (2 <= Violation.gameCount v)%nat) /\
  (forall date team, (2 <= appearances games date team)%nat ->
     exists v, v ∈ (verifyNoDoubleheaders games).2 /\
               Violation.date v = date /\ Violation.team v = team).
Proof.
  unfold verifyNoDoubleheaders. cbn [snd].
  set (tbd := fold_left recordGame _ []).
  assert (wellKeyed ([] : list (string * list (string * list nat)))) as Hwk0.
  { split; [apply NoDup_nil_2|]. intros ? ? Hin. by apply elem_of_nil in Hin. }
  destruct (recordGames_spec (imap (fun idx game => (idx, game)) games) [] Hwk0) as [[Hu Hd] Hlen].
  fold tbd in Hu, Hd, Hlen. rewrite imap_snd in Hlen.
  assert (forall date team, length (indicesOf tbd date team) = appearances games date team)
    as Hcount.
  { intros date team. rewrite Hlen. unfold indicesOf. cbn. lia. }
  split.
  - intros v Hv. unfold findViolations in Hv.
    apply list_elem_of_In, in_flat_map in Hv as [[date dateMap] [Hdate Hv]].
    apply in_flat_map in Hv as [[team indices] [Hteam Hv]].
    apply list_elem_of_In in Hdate, Hteam.
    destruct (Nat.ltb_spec 1 (length indices)) as [Hbig|]; [|by destruct Hv].
    destruct Hv as [<-|[]]. cbn [Violation.gameCount Violation.date Violation.team Violation.gameIndices].
    split; [|split; [done|lia]].
    rewrite <- Hcount. unfold indicesOf.
    rewrite (elem_of_mapGet _ _ _ Hu Hdate). cbn [default from_option id].
    by rewrite (elem_of_mapGet _ _ _ (Hd _ _ Hdate) Hteam).
  - intros date team Hbig. rewrite <- Hcount in Hbig. unfold indicesOf in Hbig.
    destruct (mapGet tbd date) as [dateMap|] eqn:Edate; [|cbn in Hbig; lia].
    cbn [default from_option id] in Hbig.
    destruct (mapGet dateMap team) as [indices|] eqn:Eteam; [|cbn in Hbig; lia].
    cbn [default from_option id] in Hbig.
    exists (Violation.mk date team (length indices) indices). split; [|done].
    unfold findViolations. apply list_elem_of_In, in_flat_map. exists (date, dateMap).
    split; [by apply list_elem_of_In, mapGet_elem_of|]. apply in_flat_map.
    exists (team, indices). split; [by apply list_elem_of_In, mapGet_elem_of|].
    destruct (Nat.ltb_spec 1 (length indices)); [by left|lia].
Qed.

(** * Further properties of the engine and of the command line *)

(** ** Doubleheader verification *)

(** X1: [verifyNoDoubleheaders] answers valid exactly when no team appears
    more than once among the games of any one date. *)
Theorem doubleheader_check_is_exact (games : list Game.t) :
  (verifyNoDoubleheaders games).1 = true <->
  forall date team, (appearances games date team <= 1)%nat.
Proof. exact (verifyNoDoubleheaders_valid games). Qed.

(** X2: every violation [verifyNoDoubleheaders] reports names a date and a
    team with at least two appearances that day, its game count and the
    number of its game indices being that number of appearances; and every
    team with two or more appearances on a date is reported. *)
Theorem doubleheader_report_is_exact (games : list Game.t) :
  (forall v, v ∈ (verifyNoDoubleheaders games).2 ->
     Violation.gameCount v = appearances games (Violation.date v) (Violation.team v) /\
     length (Violation.gameIndices v) = Violation.gameCount v /\
     (2 <= Violation.gameCount v)%nat) /\
  (forall date team, (2 <= appearances games date team)%nat ->
     exists v, v ∈ (verifyNoDoubleheaders games).2 /\
               Violation.date v = date /\ Violation.team v = team).
Proof. exact (verifyNoDoubleheaders_violations games). Qed.

(** ** Home/away optimizer *)

(** X3: the optimizer never changes the verdict of the doubleheader check:
    its output is valid exactly when its input is. *)
Theorem optimizer_keeps_doubleheader_verdict (games : list Game.t)
    (lockRequirements : gmap Z Lock.t) (seed : string) (maxFlips : Z)
    (games' : list Game.t) (flips : Z) :
  optimizeHomeAwayBalance games lockRequirements seed maxFlips = Normal (games', flips) ->
  (verifyNoDoubleheaders games').1 = (verifyNoDoubleheaders games).1.
Proof. exact (optimize_keeps_validity games lockRequirements seed maxFlips games' flips). Qed.

Lemma optimizer_keeps_doubleheader_verdict_witness :
  let output := completed ([], 0) (optimizeHomeAwayBalance awayTwiceADay ∅ "s" 100) in
  optimizeHomeAwayBalance awayTwiceADay ∅ "s" 100 = Normal output /\
  output.1 <> awayTwiceADay /\
  (verifyNoDoubleheaders output.1).1 = false.
Proof.
  intros output.
  assert (optimizeHomeAwayBalance awayTwiceADay ∅ "s" 100 = Normal (output.1, output.2)) as Hrun
    by (vm_compute; reflexivity).
  split; [vm_compute; reflexivity|]. split; [vm_compute; discriminate|].
  rewrite (optimizer_keeps_doubleheader_verdict _ _ _ _ _ _ Hrun).
  vm_compute; reflexivity.
Defined.

(** X4: the optimizer only swaps the sides of games: its output has the
    games of its input in the same order, each as it was or with home and
    away exchanged; the number of flips it reports lies between 0 and
    [maxFlips]; and a game whose lock states both sides is returned as it
    was. *)
Theorem optimizer_only_swaps_sides (games : list Game.t) (lockRequirements : gmap Z Lock.t)
    (seed : string) (maxFlips : Z) (games' : list Game.t) (flips : Z) :
  optimizeHomeAwayBalance games lockRequirements seed maxFlips = Normal (games', flips) ->
  Forall2 sameFixture games games' /\
  0 <= flips <= Z.max 0 maxFlips /\
  forall i, fullyPinned (lockRequirements !! Z.of_nat i) = true -> games' !! i = games !! i.
Proof. exact (optimizer_swaps_sides_only games lockRequirements seed maxFlips games' flips). Qed.

Lemma optimizer_only_swaps_sides_witness :
  let output := completed ([], 0) (optimizeHomeAwayBalance alwaysAway firstPinned "s" 100) in
  output.1 <> alwaysAway /\
  Forall2 sameFixture alwaysAway output.1 /\
  0 <= output.2 <= 100 /\
  output.1 !! 0%nat = alwaysAway !! 0%nat.
Proof.
  intros output.
  assert (optimizeHomeAwayBalance alwaysAway firstPinned "s" 100 = Normal (output.1, output.2))
    as Hrun by (vm_compute; reflexivity).
  destruct (optimizer_only_swaps_sides _ _ _ _ _ _ Hrun) as (Hfix & Hflips & Hpinned).
  split; [vm_compute; discriminate|]. split; [exact Hfix|]. split; [exact Hflips|].
  apply Hpinned. vm_compute; reflexivity.
Defined.

(** X5: the second doubleheader check of the retry loop never discards the
    output of the program's own optimizer: when the games of the attempt
    passed the first check, what the optimizer returns for them is returned
    with its flip count. *)
Theorem optimizer_output_is_never_discarded (result : Success.t) (attemptSeed : string)
    (attempt : nat) (lockRequirements : gmap Z Lock.t) (seed : string) (maxFlips : Z)
    (optimized : list Game.t) (flips : Z) :
  (verifyNoDoubleheaders (Success.games result)).1 = true ->
  optimizeHomeAwayBalance (Success.games result) lockRequirements seed maxFlips =
    Normal (optimized, flips) ->
  afterOptimizer result attemptSeed attempt (Normal (optimized, flips)) =
  returned result attemptSeed attempt optimized flips.
Proof.
  intros Hvalid Hrun. unfold afterOptimizer.
  by rewrite (optimize_keeps_validity _ _ _ _ _ _ Hrun), Hvalid.
Qed.

Lemma optimizer_output_is_never_discarded_witness :
  let result :=
    succeeded (tryGenerateSchedule (H := Civil.host) fourTeams ownDays evening
                 (attemptSeed "t1" 0) 1 ∅ false) in
  let output :=
    completed ([], 0)
      (optimizeHomeAwayBalance (Success.games result) ∅ (attemptSeed "t1" 0 ++ "-optimize") 100) in
  afterOptimizer result (attemptSeed "t1" 0) 0 (Normal (output.1, output.2)) =
  returned result (attemptSeed "t1" 0) 0 output.1 output.2.
Proof.
  intros result output.
  assert ((verifyNoDoubleheaders (Success.games result)).1 = true) as Hvalid
    by (vm_compute; reflexivity).
  assert (optimizeHomeAwayBalance (Success.games result) ∅ (attemptSeed "t1" 0 ++ "-optimize") 100
          = Normal (output.1, output.2)) as Hrun by (vm_compute; reflexivity).
  exact (optimizer_output_is_never_discarded result (attemptSeed "t1" 0) 0 ∅
           (attemptSeed "t1" 0 ++ "-optimize") 100 output.1 output.2 Hvalid Hrun).
Defined.

(** ** Sample seasons *)

Lemma fourTeams_NoDup : NoDup fourTeams.
Proof. apply (bool_decide_unpack _). by vm_compute. Qed.

Lemma locksWithoutSides_sideless : sideless locksWithoutSides.
Proof.
  intros k lock Hk. unfold locksWithoutSides in Hk.
  apply lookup_insert_Some in Hk as [[_ <-]|[_ Hk]]; [done|].
  apply lookup_insert_Some in Hk as [[_ <-]|[_ Hk]]; [done|].
  apply lookup_singleton_Some in Hk as [_ <-]. done.
Qed.

(** ** Retry loop and attempts *)

(** X6: a schedule [generateBalancedSchedule] returns never holds a
    doubleheader, whatever the locks, explicit sides included. *)
Theorem returned_schedule_has_no_doubleheaders `{Host} (now : Z) (rq : Request.t)
    (schedule : Schedule.t) :
  generateBalancedSchedule now rq = Built schedule ->
  (verifyNoDoubleheaders (Schedule.games schedule)).1 = true.
Proof. exact (generated_schedule_has_no_doubleheaders now rq schedule). Qed.

Lemma returned_schedule_has_no_doubleheaders_witness :
  let schedule := built (generateBalancedSchedule (H := Civil.host) 0 patientRequest) in
  generateBalancedSchedule (H := Civil.host) 0 patientRequest = Built schedule /\
  Schedule.attempts schedule = 5%nat /\
  (verifyNoDoubleheaders (Schedule.games schedule)).1 = true.
Proof.
  intros schedule.
  assert (generateBalancedSchedule (H := Civil.host) 0 patientRequest = Built schedule) as Hgen
    by (vm_compute; reflexivity).
  split; [exact Hgen|]. split; [vm_compute; reflexivity|].
  exact (returned_schedule_has_no_doubleheaders (H := Civil.host) 0 patientRequest schedule Hgen).
Defined.

(** X7: a schedule [generateBalancedSchedule] returns has one game for
    every slot of the request, in the order of the slots, each with the date
    and the label of its slot. *)
Theorem returned_schedule_fills_the_slots_in_order `{Host} (now : Z) (rq : Request.t)
    (schedule : Schedule.t) :
  generateBalancedSchedule now rq = Built schedule ->
  map labelOfGame (Schedule.games schedule) = map labelOfSlot (Request.slots rq).
Proof. exact (generate_labels now rq schedule). Qed.

Lemma returned_schedule_fills_the_slots_in_order_witness :
  let schedule := built (generateBalancedSchedule (H := Civil.host) 0 patientRequest) in
  generateBalancedSchedule (H := Civil.host) 0 patientRequest = Built schedule /\
  map labelOfGame (Schedule.games schedule) = map labelOfSlot sharedDay.
Proof.
  intros schedule.
  assert (generateBalancedSchedule (H := Civil.host) 0 patientRequest = Built schedule) as Hgen
    by (vm_compute; reflexivity).
  split; [exact Hgen|].
  exact (returned_schedule_fills_the_slots_in_order (H := Civil.host) 0 patientRequest schedule
           Hgen).
Defined.

(** X8: the partial games of a failed attempt are the games of the slots
    filled before the failure, in order: of the slots before the failing
    slot when the failure names a slot, of all the slots when pairs were
    left unassigned at the end. *)
Theorem failed_attempt_keeps_the_slots_filled `{Host} (teams : list string)
    (slots : list Slot.t) (targetSlot seed : string) (gamesPerPair : Z)
    (locks : gmap Z Lock.t) (verbose : bool) (failure : Failure.t) :
  tryGenerateSchedule teams slots targetSlot seed gamesPerPair locks verbose = inr failure ->
  match Failure.slotIndex failure with
  | Some i =>
      (i < length slots)%nat /\
      map labelOfGame (Failure.partialGames failure) = map labelOfSlot (take i slots)
  | None => map labelOfGame (Failure.partialGames failure) = map labelOfSlot slots
  end.
Proof.
  exact (attempt_labels_failure teams slots targetSlot seed gamesPerPair locks verbose failure).
Qed.

Lemma failed_attempt_keeps_the_slots_filled_witness :
  let failure :=
    failed (tryGenerateSchedule (H := Civil.host) fourTeams oneDay evening "t1-0" 1 ∅ false) in
  Failure.slotIndex failure = Some 2%nat /\
  map labelOfGame (Failure.partialGames failure) = map labelOfSlot (take 2 oneDay).
Proof.
  intros failure.
  assert (tryGenerateSchedule (H := Civil.host) fourTeams oneDay evening "t1-0" 1 ∅ false =
          inr failure) as Htry by (vm_compute; reflexivity).
  assert (Failure.slotIndex failure = Some 2%nat) as Hidx by (vm_compute; reflexivity).
  split; [exact Hidx|].
  pose proof (failed_attempt_keeps_the_slots_filled (H := Civil.host) fourTeams oneDay evening
                "t1-0" 1 ∅ false failure Htry) as Hkept.
  rewrite Hidx in Hkept. exact (proj2 Hkept).
Defined.

(** X9: under locks that state no side, a successful attempt holds no
    doubleheader (the teams being listed once each). *)
Theorem no_doubleheaders_without_explicit_sides `{Host} (teams : list string)
    (slots : list Slot.t) (targetSlot seed : string) (gamesPerPair : Z)
    (locks : gmap Z Lock.t) (verbose : bool) (result : Success.t) :
  NoDup teams -> sideless locks ->
  tryGenerateSchedule teams slots targetSlot seed gamesPerPair locks verbose = inl result ->
  (verifyNoDoubleheaders (Success.games result)).1 = true.
Proof.
  exact (sideless_attempt_is_clean teams slots targetSlot seed gamesPerPair locks verbose result).
Qed.

Lemma no_doubleheaders_without_explicit_sides_witness :
  let result :=
    succeeded (tryGenerateSchedule (H := Civil.host) fourTeams sharedDay evening "t1-0" 1
                 locksWithoutSides false) in
  tryGenerateSchedule (H := Civil.host) fourTeams sharedDay evening "t1-0" 1 locksWithoutSides
    false = inl result /\
  (verifyNoDoubleheaders (Success.games result)).1 = true.
Proof.
  intros result.
  assert (tryGenerateSchedule (H := Civil.host) fourTeams sharedDay evening "t1-0" 1
            locksWithoutSides false = inl result) as Htry by (vm_compute; reflexivity).
  split; [exact Htry|].
  exact (no_doubleheaders_without_explicit_sides (H := Civil.host) fourTeams sharedDay evening
           "t1-0" 1 locksWithoutSides false result fourTeams_NoDup locksWithoutSides_sideless
           Htry).
Defined.

(** X10: under locks that state no side, the games of a successful attempt
    oppose every two different teams of the list exactly [gamesPerPair]
    times. *)
Theorem pair_ledger_without_explicit_sides `{Host} (teams : list string)
    (slots : list Slot.t) (targetSlot seed : string) (gamesPerPair : Z)
    (locks : gmap Z Lock.t) (verbose : bool) (result : Success.t) :
  NoDup teams -> 0 <= gamesPerPair -> sideless locks ->
  tryGenerateSchedule teams slots targetSlot seed gamesPerPair locks verbose = inl result ->
  forall a b, a ∈ teams -> b ∈ teams -> a <> b ->
    meetings (Success.games result) a b = gamesPerPair.
Proof.
  exact (sideless_attempt_settles_ledger teams slots targetSlot seed gamesPerPair locks verbose
           result).
Qed.

Lemma pair_ledger_without_explicit_sides_witness :
  let result :=
    succeeded (tryGenerateSchedule (H := Civil.host) fourTeams ownDays evening "t1-0" 1
                 locksWithoutSides false) in
  tryGenerateSchedule (H := Civil.host) fourTeams ownDays evening "t1-0" 1 locksWithoutSides
    false = inl result /\
  forall a b, a ∈ fourTeams -> b ∈ fourTeams -> a <> b -> meetings (Success.games result) a b = 1.
Proof.
  intros result.
  assert (tryGenerateSchedule (H := Civil.host) fourTeams ownDays evening "t1-0" 1
            locksWithoutSides false = inl result) as Htry by (vm_compute; reflexivity).
  split; [exact Htry|].
  exact (pair_ledger_without_explicit_sides (H := Civil.host) fourTeams ownDays evening "t1-0" 1
           locksWithoutSides false result fourTeams_NoDup ltac:(lia) locksWithoutSides_sideless
           Htry).
Defined.

(** X11: under locks that state no side, every team a lock requires for a
    slot plays in the game the returned schedule has for that slot. *)
Theorem returned_schedule_honours_locks `{Host} (now : Z) (rq : Request.t)
    (schedule : Schedule.t) :
  sideless (Request.lockRequirements rq) ->
  generateBalancedSchedule now rq = Built schedule ->
  forall i slot game lock team,
    Request.slots rq !! i = Some slot -> Schedule.games schedule !! i = Some game ->
    Request.lockRequirements rq !! default (Z.of_nat i) (Slot.index slot) = Some lock ->
    team ∈ Lock.requiredTeams lock ->
    team = Game.away game \/ team = Game.home game.
Proof. exact (generate_honours_locks now rq schedule). Qed.

Lemma returned_schedule_honours_locks_witness :
  let schedule := built (generateBalancedSchedule (H := Civil.host) 0 sidelessRequest) in
  let game := gameAt (Schedule.games schedule) 3 in
  Schedule.games schedule !! 3%nat = Some game /\
  ("A" = Game.away game \/ "A" = Game.home game).
Proof.
  intros schedule game.
  assert (generateBalancedSchedule (H := Civil.host) 0 sidelessRequest = Built schedule) as Hgen
    by (vm_compute; reflexivity).
  assert (Schedule.games schedule !! 3%nat = Some game) as Hgame by (vm_compute; reflexivity).
  split; [exact Hgame|].
  apply (returned_schedule_honours_locks (H := Civil.host) 0 sidelessRequest schedule
           locksWithoutSides_sideless Hgen 3%nat (Slot.mk "05/27/2024" evening (Some 3)) game
           (Lock.mk ["A"] None None) "A"); [reflexivity|exact Hgame|reflexivity|].
  apply list_elem_of_singleton. reflexivity.
Defined.

(** X12: under locks that state no side, every game of a returned schedule
    opposes two different teams of the request. *)
Theorem returned_schedule_fields_the_listed_teams `{Host} (now : Z) (rq : Request.t)
    (schedule : Schedule.t) :
  sideless (Request.lockRequirements rq) ->
  generateBalancedSchedule now rq = Built schedule ->
  forall game, game ∈ Schedule.games schedule ->
    Game.away game ∈ Request.teams rq /\ Game.home game ∈ Request.teams rq /\
    Game.away game <> Game.home game.
Proof. exact (generate_fields_the_list now rq schedule). Qed.

Lemma returned_schedule_fields_the_listed_teams_witness :
  let schedule := built (generateBalancedSchedule (H := Civil.host) 0 sidelessRequest) in
  generateBalancedSchedule (H := Civil.host) 0 sidelessRequest = Built schedule /\
  forall game, game ∈ Schedule.games schedule ->
    Game.away game ∈ fourTeams /\ Game.home game ∈ fourTeams /\
    Game.away game <> Game.home game.
Proof.
  intros schedule.
  assert (generateBalancedSchedule (H := Civil.host) 0 sidelessRequest = Built schedule) as Hgen
    by (vm_compute; reflexivity).
  split; [exact Hgen|].
  exact (returned_schedule_fields_the_listed_teams (H := Civil.host) 0 sidelessRequest schedule
           locksWithoutSides_sideless Hgen).
Defined.

(** X13: without locks, a returned schedule gives no team more than two
    games in one week (weeks as [getWeekKey] keys them), and no team more
    games in the target slot than the ceiling [maxTarget] it reports. *)
Theorem lockfree_schedule_is_capped `{Host} (now : Z) (rq : Request.t)
    (schedule : Schedule.t) :
  Request.lockRequirements rq = ∅ ->
  generateBalancedSchedule now rq = Built schedule ->
  (forall week team, weekGames (Schedule.games schedule) week team <= 2) /\
  (forall team, slotAppearances (Schedule.games schedule) (Request.targetSlot rq) team
                <= Z.max 0 (Stats.maxTarget (Schedule.stats schedule))).
Proof. exact (generate_capped now rq schedule). Qed.

Lemma lockfree_schedule_is_capped_witness :
  let schedule := built (generateBalancedSchedule (H := Civil.host) 0 freeRequest) in
  Stats.maxTarget (Schedule.stats schedule) = 3 /\
  (forall week team, weekGames (H := Civil.host) (Schedule.games schedule) week team <= 2) /\
  (forall team, slotAppearances (Schedule.games schedule) evening team
                <= Z.max 0 (Stats.maxTarget (Schedule.stats schedule))).
Proof.
  intros schedule.
  assert (generateBalancedSchedule (H := Civil.host) 0 freeRequest = Built schedule) as Hgen
    by (vm_compute; reflexivity).
  split; [vm_compute; reflexivity|].
  exact (lockfree_schedule_is_capped (H := Civil.host) 0 freeRequest schedule eq_refl Hgen).
Defined.

(** X14: the figures a successful attempt reports are those of its games,
    whatever the locks: the target-slot count of every team is the number
    of its appearances in that slot, and the home and away counts of every
    listed team are the numbers of its home and away games. *)
Theorem attempt_figures_match_its_games `{Host} (teams : list string) (slots : list Slot.t)
    (targetSlot seed : string) (gamesPerPair : Z) (locks : gmap Z Lock.t) (verbose : bool)
    (result : Success.t) :
  tryGenerateSchedule teams slots targetSlot seed gamesPerPair locks verbose = inl result ->
  (forall team,
     default 0 (Stats.targetCounts (Success.stats result) !! team) =
     slotAppearances (Success.games result) targetSlot team) /\
  (forall team, team ∈ teams ->
     HomeAway.home (Success.homeAwayCounts result) !! team =
       Some (Js.Int (timesHome (Success.games result) team)) /\
     HomeAway.away (Success.homeAwayCounts result) !! team =
       Some (Js.Int (timesAway (Success.games result) team))).
Proof.
  exact (attempt_reports_its_games teams slots targetSlot seed gamesPerPair locks verbose result).
Qed.

Lemma attempt_figures_match_its_games_witness :
  let result :=
    succeeded (tryGenerateSchedule (H := Civil.host) fourTeams ownDays evening "t1-0" 1 locksOfA
                 false) in
  (forall team,
     default 0 (Stats.targetCounts (Success.stats result) !! team) =
     slotAppearances (Success.games result) evening team) /\
  (forall team, team ∈ fourTeams ->
     HomeAway.home (Success.homeAwayCounts result) !! team =
       Some (Js.Int (timesHome (Success.games result) team)) /\
     HomeAway.away (Success.homeAwayCounts result) !! team =
       Some (Js.Int (timesAway (Success.games result) team))).
Proof.
  intros result.
  assert (tryGenerateSchedule (H := Civil.host) fourTeams ownDays evening "t1-0" 1 locksOfA false
          = inl result) as Htry by (vm_compute; reflexivity).
  exact (attempt_figures_match_its_games (H := Civil.host) fourTeams ownDays evening "t1-0" 1
           locksOfA false result Htry).
Defined.

(** X15: the schedule returned is the work of the first attempt that
    succeeds without a doubleheader: every earlier attempt failed or held a
    doubleheader, the attempt count is its number, the seed is the seed of
    that attempt, and the games are its games, as they are (0 flips) or as
    the optimizer returned them. *)
Theorem returned_schedule_is_first_valid_attempt `{Host} (now : Z) (rq : Request.t)
    (schedule : Schedule.t) :
  generateBalancedSchedule now rq = Built schedule ->
  exists seed k result,
    seed = match Request.seed rq with Some seed => seed | None => pretty now end /\
    (k < Z.to_nat (Request.maxAttempts rq))%nat /\
    attemptOf rq (toTeamArray (Request.teams rq)) seed k = inl result /\
    (verifyNoDoubleheaders (Success.games result)).1 = true /\
    (forall j, (j < k)%nat ->
       attemptRejected (attemptOf rq (toTeamArray (Request.teams rq)) seed j)) /\
    Schedule.attempts schedule = S k /\
    Schedule.seed schedule = attemptSeed seed k /\
    ((Schedule.games schedule = Success.games result /\ Schedule.homeAwayFlips schedule = 0) \/
     (Request.optimizeHomeAway rq = true /\
      optimizeHomeAwayBalance (Success.games result) (Request.lockRequirements rq)
        (attemptSeed seed k ++ "-optimize") 100 =
      Normal (Schedule.games schedule, Schedule.homeAwayFlips schedule))).
Proof. exact (generate_built now rq schedule). Qed.

Lemma returned_schedule_is_first_valid_attempt_witness :
  let rq := patientRequest in
  let schedule := built (generateBalancedSchedule (H := Civil.host) 0 rq) in
  Schedule.attempts schedule = 5%nat /\
  exists seed k result,
    seed = match Request.seed rq with Some seed => seed | None => pretty 0 end /\
    (k < Z.to_nat (Request.maxAttempts rq))%nat /\
    attemptOf (H := Civil.host) rq (toTeamArray (Request.teams rq)) seed k = inl result /\
    (verifyNoDoubleheaders (Success.games result)).1 = true /\
    (forall j, (j < k)%nat ->
       attemptRejected (attemptOf (H := Civil.host) rq (toTeamArray (Request.teams rq)) seed j)) /\
    Schedule.attempts schedule = S k /\
    Schedule.seed schedule = attemptSeed seed k /\
    ((Schedule.games schedule = Success.games result /\ Schedule.homeAwayFlips schedule = 0) \/
     (Request.optimizeHomeAway rq = true /\
      optimizeHomeAwayBalance (Success.games result) (Request.lockRequirements rq)
        (attemptSeed seed k ++ "-optimize") 100 =
      Normal (Schedule.games schedule, Schedule.homeAwayFlips schedule))).
Proof.
  intros rq schedule.
  assert (generateBalancedSchedule (H := Civil.host) 0 rq = Built schedule) as Hgen
    by (vm_compute; reflexivity).
  split; [vm_compute; reflexivity|].
  exact (returned_schedule_is_first_valid_attempt (H := Civil.host) 0 rq schedule Hgen).
Defined.

(** X16: when every attempt fails, the error carries one failure for each
    of the [maxAttempts] attempts, in order, numbered from 1, each with the
    seed of its attempt, and each attempt indeed failed or held a
    doubleheader. *)
Theorem exhausted_retries_report_every_attempt `{Host} (now : Z) (rq : Request.t) (m : Z)
    (failures : list FailedAttempt.t) :
  generateBalancedSchedule now rq = UnableToBuild m failures ->
  m = Request.maxAttempts rq /\ 0 < m /\
  length failures = Z.to_nat m /\
  forall j f, failures !! j = Some f ->
    FailedAttempt.attempt f = S j /\
    FailedAttempt.seed f =
      attemptSeed (match Request.seed rq with Some seed => seed | None => pretty now end) j /\
    attemptRejected
      (attemptOf rq (toTeamArray (Request.teams rq))
         (match Request.seed rq with Some seed => seed | None => pretty now end) j).
Proof. exact (generate_exhausted now rq m failures). Qed.

Lemma exhausted_retries_report_every_attempt_witness :
  let failures := failuresOf (generateBalancedSchedule (H := Civil.host) 0 shortRequest) in
  generateBalancedSchedule (H := Civil.host) 0 shortRequest = UnableToBuild 2 failures /\
  length failures = 2%nat /\
  forall j f, failures !! j = Some f ->
    FailedAttempt.attempt f = S j /\
    FailedAttempt.seed f = attemptSeed "t1" j /\
    attemptRejected (attemptOf (H := Civil.host) shortRequest (toTeamArray fourTeams) "t1" j).
Proof.
  intros failures.
  assert (generateBalancedSchedule (H := Civil.host) 0 shortRequest = UnableToBuild 2 failures)
    as Hgen by (vm_compute; reflexivity).
  split; [exact Hgen|].
  destruct (exhausted_retries_report_every_attempt (H := Civil.host) 0 shortRequest 2 failures
              Hgen) as (_ & _ & Hlen & Hall).
  split; [exact Hlen|exact Hall].
Defined.

(** X17: with teams and slots but [maxAttempts] at or below 0 the loop
    never runs, and the error message reads the reason of a last failure
    that does not exist: the call ends with a TypeError, not with the
    error that lists the failures. *)
Theorem no_attempts_raise_type_error `{Host} (now : Z) (rq : Request.t) :
  Request.teams rq <> [] -> Request.slots rq <> [] -> Request.maxAttempts rq <= 0 ->
  generateBalancedSchedule now rq = RaisedTypeError.
Proof. exact (generate_without_attempts now rq). Qed.

Lemma no_attempts_raise_type_error_witness :
  generateBalancedSchedule (H := Civil.host) 0 noAttemptsRequest = RaisedTypeError.
Proof.
  apply (no_attempts_raise_type_error (H := Civil.host) 0 noAttemptsRequest).
  - discriminate.
  - discriminate.
  - cbn. lia.
Defined.

(** X18: [toTeamArray] lists every team of its argument exactly once, and
    leaves a list without repeats as it is. *)
Theorem toTeamArray_removes_repeats (teams : list string) :
  NoDup (toTeamArray teams) /\
  (forall team, team ∈ toTeamArray teams <-> team ∈ teams) /\
  (NoDup teams -> toTeamArray teams = teams).
Proof.
  split; [apply toTeamArray_NoDup|]. split; [apply toTeamArray_elem_of|].
  apply toTeamArray_fixes_NoDup.
Qed.

(** ** Slot assigner *)

(** X19: a pair [selectPair] returns stands at a position of the pair
    list, has games remaining, includes every required team when the slot is
    forced, and has no team that already played on the day. *)
Theorem selectPair_returns_an_eligible_pair (a : Select.t) (i : nat) :
  Selected.chosen (selectPair a) = Some i ->
  exists entry,
    Select.pairs a !! i = Some entry /\
    0 < Pair.remaining entry /\
    (isForced (Select.requiredTeams a) = true ->
       forall team, team ∈ default [] (Select.requiredTeams a) -> includes entry team = true) /\
    (forall today, Select.teamsPlayedToday a = Some today ->
       ((Pair.teams entry).1 ∉ today) /\ ((Pair.teams entry).2 ∉ today)).
Proof.
  intros Hchosen. destruct (selectPair_chosen_eligible a i Hchosen) as (entry & Hlook & Helig).
  exists entry. split; [exact Hlook|]. exact (screenPair_eligible a entry Helig).
Qed.

Lemma selectPair_returns_an_eligible_pair_witness :
  Selected.chosen (selectPair openingSlot) = Some 1%nat /\
  exists entry,
    Select.pairs openingSlot !! 1%nat = Some entry /\
    0 < Pair.remaining entry /\
    (isForced (Select.requiredTeams openingSlot) = true ->
       forall team, team ∈ default [] (Select.requiredTeams openingSlot) ->
                    includes entry team = true) /\
    (forall today, Select.teamsPlayedToday openingSlot = Some today ->
       ((Pair.teams entry).1 ∉ today) /\ ((Pair.teams entry).2 ∉ today)).
Proof.
  assert (Selected.chosen (selectPair openingSlot) = Some 1%nat) as Hchosen
    by (vm_compute; reflexivity).
  split; [exact Hchosen|]. exact (selectPair_returns_an_eligible_pair openingSlot 1 Hchosen).
Defined.

(** X20: for counts of arrays, the target band [computeTargetRange] returns
    is at most one wide: the floor is at or below the ceiling, and the
    ceiling at most one above the floor. *)
Theorem target_band_is_at_most_one_wide (teamCount slotGameCount : Z) :
  0 <= teamCount < 2 ^ 32 -> 0 <= slotGameCount < 2 ^ 32 ->
  let '(minTarget, maxTarget, _) := computeTargetRange teamCount slotGameCount in
  minTarget <= maxTarget <= minTarget + 1.
Proof. intros _ _. exact (computeTargetRange_band teamCount slotGameCount). Qed.

Lemma target_band_is_at_most_one_wide_witness :
  (computeTargetRange 4 5).1 = (2, 3) /\
  let '(minTarget, maxTarget, _) := computeTargetRange 4 5 in
  minTarget <= maxTarget <= minTarget + 1.
Proof.
  split; [vm_compute; reflexivity|].
  apply (target_band_is_at_most_one_wide 4 5); lia.
Defined.

(** ** Utilities *)

(** X21: [summarizeSlotDistribution] lists each team at most once, and
    lists a team with a count exactly when the count is the number of the
    team's appearances (away and home) in games of the slot and is not 0. *)
Theorem slot_distribution_is_exact `{Host} (games : list Game.t) (slot : string) :
  NoDup (map fst (summarizeSlotDistribution games slot)) /\
  forall team n,
    (team, n) ∈ summarizeSlotDistribution games slot <->
    n = slotAppearances games slot team /\ 0 < n.
Proof. exact (summarizeSlotDistribution_entries games slot). Qed.

(** X22: [computeHomeAwayBalance] has one entry for every team that plays
    in some game and no other entry, and the entry of a team holds the
    number of its home games, the number of its away games and the absolute
    difference of the two. *)
Theorem home_away_balance_is_exact (games : list Game.t) :
  NoDup (map fst (computeHomeAwayBalance games)) /\
  forall team b,
    (team, b) ∈ computeHomeAwayBalance games <->
    fields games team /\
    b = Balance.mk (timesHome games team) (timesAway games team)
          (Z.abs (timesHome games team - timesAway games team)).
Proof. exact (computeHomeAwayBalance_entries games). Qed.

(** ** Command line *)

(** X23: [extractTeams] lists every non-empty team name of the games, away
    or home, exactly once, and nothing else. *)
Theorem extractTeams_lists_each_team_once `{Host} (games : list Game.t) :
  NoDup (extractTeams games) /\
  forall team, team ∈ extractTeams games <-> team <> "" /\ fields games team.
Proof. exact (extractTeams_spec games). Qed.

(** X24: every lock [buildLockRequirements] builds states no side, has a
    non-empty list of required teams without repeats, and requires only
    locked teams, each because it plays in a game of the schedule whose date
    and slot are those of the lock's slot. *)
Theorem built_locks_come_from_locked_games (games : list Game.t) (slots : list Slot.t)
    (lockedTeams : list string) (k : Z) (lock : Lock.t) :
  buildLockRequirements games slots lockedTeams !! k = Some lock ->
  builtFrom games slots lockedTeams k lock.
Proof. exact (buildLockRequirements_sound games slots lockedTeams k lock). Qed.

Lemma built_locks_come_from_locked_games_witness :
  buildLockRequirements lastYear ownDays ["A"] !! 2 = Some (Lock.mk ["A"] None None) /\
  builtFrom lastYear ownDays ["A"] 2 (Lock.mk ["A"] None None).
Proof.
  assert (buildLockRequirements lastYear ownDays ["A"] !! 2 = Some (Lock.mk ["A"] None None))
    as Hlock by (vm_compute; reflexivity).
  split; [exact Hlock|].
  exact (built_locks_come_from_locked_games lastYear ownDays ["A"] 2 (Lock.mk ["A"] None None)
           Hlock).
Defined.

(** X25: every locked team is required at the slot of each of its games:
    when a game of the schedule has the date and slot of a slot of index
    [k] and a locked team plays in it, the lock built for [k] requires that
    team. *)
Theorem locked_games_are_built_into_locks (games : list Game.t) (slots : list Slot.t)
    (lockedTeams : list string) (game : Game.t) (k : Z) (team : string) :
  game ∈ games ->
  slotIndexByKey slots !! slotKey (Game.date game) (Game.slot game) = Some k ->
  team ∈ lockedTeams -> team = Game.away game \/ team = Game.home game ->
  exists lock, buildLockRequirements games slots lockedTeams !! k = Some lock /\
               team ∈ Lock.requiredTeams lock.
Proof. exact (buildLockRequirements_complete games slots lockedTeams game k team). Qed.

Lemma locked_games_are_built_into_locks_witness :
  let game := gameAt lastYear 1 in
  lastYear !! 1%nat = Some game /\ Game.away game = "A" /\
  exists lock, buildLockRequirements lastYear ownDays ["A"] !! 1 = Some lock /\
               "A" ∈ Lock.requiredTeams lock.
Proof.
  intros game.
  assert (lastYear !! 1%nat = Some game) as Hgame by (vm_compute; reflexivity).
  split; [exact Hgame|]. split; [vm_compute; reflexivity|].
  apply (locked_games_are_built_into_locks lastYear ownDays ["A"] game 1 "A").
  - exact (list_elem_of_lookup_2 _ _ _ Hgame).
  - vm_compute; reflexivity.
  - apply list_elem_of_singleton. reflexivity.
  - left. vm_compute; reflexivity.
Defined.

(** X26: [verifyTimeSlots] reports an exact match exactly when the games
    and the slots have the same number of entries and every game has the
    date and the label of the slot at its position. *)
Theorem slot_check_is_exact (games : list Game.t) (slotPairs : list Slot.t) :
  Adherence.isExact (verifyTimeSlots games slotPairs) = true <->
  map labelOfGame games = map labelOfSlot slotPairs.
Proof. exact (verifyTimeSlots_exact games slotPairs). Qed.

(** X27: on the statistics [buildTeamStats] builds, [verifyOpponentCounts]
    reports no issue exactly when every two different teams with non-empty
    names that play in the games meet [expectedCount] times. *)
Theorem opponent_check_is_exact `{Host} (games : list Game.t) (expectedCount : Z) :
  Opponents.issues (verifyOpponentCounts (buildTeamStats games) expectedCount) = [] <->
  forall a b, a <> "" -> b <> "" -> fields games a -> fields games b -> a <> b ->
    meetings games a b = expectedCount.
Proof. exact (verifyOpponentCounts_passes games expectedCount). Qed.

(** X28: in every issue [verifyOpponentCounts] reports on the statistics
    of [buildTeamStats], the two teams differ, both counts are the number
    of their meetings, so the two teams never see different counts, and
    that number is not the expected one. *)
Theorem opponent_issue_counts_agree `{Host} (games : list Game.t) (expectedCount : Z)
    (issue : Issue.t) :
  issue ∈ Opponents.issues (verifyOpponentCounts (buildTeamStats games) expectedCount) ->
  Issue.teamA issue <> Issue.teamB issue /\
  Issue.countA issue = meetings games (Issue.teamA issue) (Issue.teamB issue) /\
  Issue.countB issue = Issue.countA issue /\
  Issue.countA issue <> expectedCount.
Proof. exact (verifyOpponentCounts_issue games expectedCount issue). Qed.

Lemma opponent_issue_counts_agree_witness :
  Opponents.issues (verifyOpponentCounts (H := Civil.host) (buildTeamStats uneven) 1) =
    [Issue.mk "A" "B" 2 2; Issue.mk "B" "C" 0 0] /\
  meetings uneven "A" "B" = 2 /\ meetings uneven "B" "C" = 0.
Proof.
  assert (Opponents.issues (verifyOpponentCounts (H := Civil.host) (buildTeamStats uneven) 1) =
          [Issue.mk "A" "B" 2 2; Issue.mk "B" "C" 0 0]) as Hissues by (vm_compute; reflexivity).
  split; [exact Hissues|].
  destruct (opponent_issue_counts_agree (H := Civil.host) uneven 1 (Issue.mk "A" "B" 2 2))
    as (_ & HAB & _).
  { rewrite Hissues. left. }
  destruct (opponent_issue_counts_agree (H := Civil.host) uneven 1 (Issue.mk "B" "C" 0 0))
    as (_ & HBC & _).
  { rewrite Hissues. right. left. }
  split; [symmetry; exact HAB|symmetry; exact HBC].
Defined.

(** X29: the checks of the generate command pass on what it builds: for
    locks built by [buildLockRequirements] and a games-per-pair count that
    is not negative, the opponent check reports no issue on the returned
    schedule, the slot check reports an exact match, and every locked team
    plays in the slot of each of its games of the earlier schedule. *)
Theorem generate_command_checks_pass `{Host} (now : Z) (rq : Request.t)
    (schedule : Schedule.t) (games : list Game.t) (lockedTeams : list string) :
  Request.lockRequirements rq = buildLockRequirements games (Request.slots rq) lockedTeams ->
  0 <= Request.gamesPerPair rq ->
  generateBalancedSchedule now rq = Built schedule ->
  Opponents.issues (verifyOpponentCounts (buildTeamStats (Schedule.games schedule))
                      (Request.gamesPerPair rq)) = [] /\
  Adherence.isExact (verifyTimeSlots (Schedule.games schedule) (Request.slots rq)) = true /\
  forall i slot game old team,
    Request.slots rq !! i = Some slot -> Schedule.games schedule !! i = Some game ->
    old ∈ games ->
    slotIndexByKey (Request.slots rq) !! slotKey (Game.date old) (Game.slot old) =
      Some (default (Z.of_nat i) (Slot.index slot)) ->
    team ∈ lockedTeams -> team = Game.away old \/ team = Game.home old ->
    team = Game.away game \/ team = Game.home game.
Proof. exact (generate_from_locked_teams now rq schedule games lockedTeams). Qed.

Lemma generate_command_checks_pass_witness :
  let rq := relockedRequest in
  let schedule := built (generateBalancedSchedule (H := Civil.host) 0 rq) in
  generateBalancedSchedule (H := Civil.host) 0 rq = Built schedule /\
  Schedule.games schedule <> lastYear /\
  Opponents.issues (verifyOpponentCounts (H := Civil.host)
                      (buildTeamStats (Schedule.games schedule))
                      (Request.gamesPerPair rq)) = [] /\
  Adherence.isExact (verifyTimeSlots (Schedule.games schedule) (Request.slots rq)) = true /\
  forall i slot game old team,
    Request.slots rq !! i = Some slot -> Schedule.games schedule !! i = Some game ->
    old ∈ lastYear ->
    slotIndexByKey (Request.slots rq) !! slotKey (Game.date old) (Game.slot old) =
      Some (default (Z.of_nat i) (Slot.index slot)) ->
    team ∈ ["A"] -> team = Game.away old \/ team = Game.home old ->
    team = Game.away game \/ team = Game.home game.
Proof.
  intros rq schedule.
  assert (generateBalancedSchedule (H := Civil.host) 0 rq = Built schedule) as Hgen
    by (vm_compute; reflexivity).
  assert (Request.lockRequirements rq = buildLockRequirements lastYear (Request.slots rq) ["A"])
    as Hlocks by (vm_compute; reflexivity).
  assert (0 <= Request.gamesPerPair rq) as Hcount by (vm_compute; discriminate).
  split; [exact Hgen|]. split; [vm_compute; discriminate|].
  exact (generate_command_checks_pass (H := Civil.host) 0 rq schedule lastYear ["A"] Hlocks
           Hcount Hgen).
Defined.
